(** * Building reconstruction engine (app/build3d.py): a shallow embedding

    The development follows [Build3d.make_objfiles], [Build3d.get_pointcloud]
    and the [Surface] class of [app/build3d.py].

    Numbers.  The pipeline computes with IEEE floats.  Every finite float is
    a rational, and comparison, [min], [max], [abs] and [==] on finite floats
    agree with the same operations on rationals, so the assignment, masking,
    deduplication and rasterisation code is embedded over [Q] with exact
    arithmetic ([Qeq] plays the role of float [==]).  The only irrational
    operation is [np.linalg.norm]; [Surface.calc_basic_metrics] is therefore
    written once, over an arbitrary carrier with a table of operations
    ([NumOps]) and a square root, and used at [Q] (the square root of the
    numeric library being an argument) inside the pipeline and at [R] (with
    the exact square root) for the statement about the projection frame.

    Exceptions are modelled by [option]: [None] stands for a raised Python
    exception.  Files are modelled by a finite map from path to content. *)

From Stdlib Require Import QArith Qabs Qround Qminmax Lqa Lia ZArith List Reals Lra.
From stdpp Require Import base option list gmap strings pretty.

(** ** Numeric carrier *)

Record NumOps (F : Type) := {
  f_zero : F;
  f_one : F;
  f_add : F -> F -> F;
  f_sub : F -> F -> F;
  f_mul : F -> F -> F;
  f_div : F -> F -> F;
  f_ltb : F -> F -> bool
}.
Arguments f_zero {F}. Arguments f_one {F}. Arguments f_add {F}.
Arguments f_sub {F}. Arguments f_mul {F}. Arguments f_div {F}.
Arguments f_ltb {F}.

(** A 3x3 matrix, row by row, as [np.array([(..),(..),(..)])] builds it. *)
Record Mat3 (F : Type) := {
  m00 : F; m01 : F; m02 : F;
  m10 : F; m11 : F; m12 : F;
  m20 : F; m21 : F; m22 : F
}.
Arguments m00 {F}. Arguments m01 {F}. Arguments m02 {F}.
Arguments m10 {F}. Arguments m11 {F}. Arguments m12 {F}.
Arguments m20 {F}. Arguments m21 {F}. Arguments m22 {F}.

(** The attributes a [Surface] object caches after [calc_basic_metrics]. *)
Record Surface (F : Type) := {
  face_number : nat;
  origin : F * F * F;
  boundary : F * F * F * F;          (* [minx, miny, maxx, maxy] *)
  area : F;
  projected_vertices : list (F * F * F);
  projection_matrix : Mat3 F
}.
Arguments face_number {F}. Arguments origin {F}. Arguments boundary {F}.
Arguments area {F}. Arguments projected_vertices {F}.
Arguments projection_matrix {F}.

Section Metrics.
Context {F : Type} (ops : NumOps F) (fsqrt : F -> F).

Local Abbreviation vec := (F * F * F)%type.
Notation "a +! b" := (f_add ops a b) (at level 50, left associativity).
Notation "a -! b" := (f_sub ops a b) (at level 50, left associativity).
Notation "a *! b" := (f_mul ops a b) (at level 40, left associativity).
Notation "a /! b" := (f_div ops a b) (at level 40, left associativity).

Definition vx (a : vec) : F := fst (fst a).
Definition vy (a : vec) : F := snd (fst a).
Definition vz (a : vec) : F := snd a.

Definition vsub (a b : vec) : vec :=
  (vx a -! vx b, vy a -! vy b, vz a -! vz b).

(** [np.cross] *)
Definition cross (a b : vec) : vec :=
  (vy a *! vz b -! vz a *! vy b,
   vz a *! vx b -! vx a *! vz b,
   vx a *! vy b -! vy a *! vx b).

Definition dot (a b : vec) : F :=
  vx a *! vx b +! vy a *! vy b +! vz a *! vz b.

(** [np.linalg.norm] *)
Definition norm (a : vec) : F := fsqrt (dot a a).

Definition vdiv (a : vec) (s : F) : vec := (vx a /! s, vy a /! s, vz a /! s).

(** [np.matmul(p, m)] for one row vector [p]. *)
Definition matmul_row (p : vec) (m : Mat3 F) : vec :=
  (vx p *! m00 m +! vy p *! m10 m +! vz p *! m20 m,
   vx p *! m01 m +! vy p *! m11 m +! vz p *! m21 m,
   vx p *! m02 m +! vy p *! m12 m +! vz p *! m22 m).

Definition col0 (m : Mat3 F) : vec := (m00 m, m10 m, m20 m).
Definition col1 (m : Mat3 F) : vec := (m01 m, m11 m, m21 m).
Definition col2 (m : Mat3 F) : vec := (m02 m, m12 m, m22 m).

Definition fmin (a b : F) : F := if f_ltb ops b a then b else a.
Definition fmax (a b : F) : F := if f_ltb ops a b then b else a.

(** [x.min()] and [x.max()] of a non-empty array. *)
Definition arr_min (d : F) (l : list F) : F :=
  match l with [] => d | x :: r => foldl fmin x r end.
Definition arr_max (d : F) (l : list F) : F :=
  match l with [] => d | x :: r => foldl fmax x r end.

(** Area of the polygon spanned by the projected ring (shoelace formula,
    absolute value), as [shapely.geometry.Polygon(...).area] for a ring
    without holes. *)
Fixpoint shoelace (first : F * F) (l : list (F * F)) : F :=
  match l with
  | [] => f_zero ops
  | p :: r =>
      let q := match r with [] => first | q :: _ => q end in
      (fst p *! snd q -! fst q *! snd p) +! shoelace first r
  end.

Definition polygon_area (l : list (F * F)) : F :=
  match l with
  | [] => f_zero ops
  | p :: _ =>
      let s := shoelace p l in
      let a := if f_ltb ops s (f_zero ops) then f_zero ops -! s else s in
      a /! (f_one ops +! f_one ops)
  end.

(** [x] is zero: dividing by it gives no number in the source. *)
Definition is_zero (x : F) : bool :=
  negb (f_ltb ops x (f_zero ops)) && negb (f_ltb ops (f_zero ops) x).

(** The area vector of a closed ring (Newell's formula, without the factor
    one half): the sum of the cross products of consecutive vertices.  Seen
    from the side it points to the ring winds counter-clockwise, so its
    direction is the normal "given by the right-hand rule from the ring
    winding" of the specification.  The code does not compute it. *)
Fixpoint winding_vector (ring : list vec) : vec :=
  match ring with
  | p :: (q :: _) as rest =>
      let c := cross p q in
      let w := winding_vector rest in
      (vx c +! vx w, vy c +! vy w, vz c +! vz w)
  | _ => (f_zero ops, f_zero ops, f_zero ops)
  end.

(** [Surface.__init__] followed by [Surface.calc_basic_metrics].  [ring] is
    [face.exterior.coords], closing vertex included.  Fewer than three
    stored vertices end in an [IndexError] or in the [RuntimeError] of the
    area computation: [None].  When the first edge is zero or parallel to
    the closing edge, one of the three norms is zero, the division gives
    0/0 (NaN) and the projected ring has NaN coordinates, from which
    neither an area nor a bounding box comes out (lines 641-645 report a
    failed area computation as a [RuntimeError]): [None] as well. *)
Definition calc_basic_metrics (n : nat) (ring : list vec) : option (Surface F) :=
  let vertices := removelast ring in
  match vertices with
  | o :: _ :: _ :: _ =>
      let vertices := map (fun v => vsub v o) vertices in
      let z := (f_zero ops, f_zero ops, f_zero ops) in
      let v0 := vsub (nth 1 vertices z) (nth 0 vertices z) in
      let v1 := vsub (List.last vertices z) (nth 0 vertices z) in
      let v2 := cross v0 v1 in
      let v1 := cross v2 v0 in
      if is_zero (norm v0) || is_zero (norm v1) || is_zero (norm v2)
      then None else
      let u0 := vdiv v0 (norm v0) in
      let u1 := vdiv v1 (norm v1) in
      let u2 := vdiv v2 (norm v2) in
      let m := {| m00 := vx u0; m01 := vx u1; m02 := vx u2;
                  m10 := vy u0; m11 := vy u1; m12 := vy u2;
                  m20 := vz u0; m21 := vz u1; m22 := vz u2 |} in
      let pv := map (fun v => matmul_row v m) vertices in
      let x := map vx pv in
      let y := map vy pv in
      Some {| face_number := n;
              origin := o;
              boundary := (arr_min (f_zero ops) x, arr_min (f_zero ops) y,
                           arr_max (f_zero ops) x, arr_max (f_zero ops) y);
              area := polygon_area (map (fun v => (vx v, vy v)) pv);
              projected_vertices := pv;
              projection_matrix := m |}
  | _ => None
  end.
End Metrics.

(** ** Rational instance (the pipeline) *)

Definition Qltb (x y : Q) : bool := negb (Qle_bool y x).

Definition QOps : NumOps Q :=
  {| f_zero := 0%Q; f_one := 1%Q;
     f_add := Qplus; f_sub := Qminus; f_mul := Qmult; f_div := Qdiv;
     f_ltb := Qltb |}.

(** ** Real instance (exact arithmetic, for the frame) *)

Definition Rltb (x y : R) : bool := if Rlt_dec x y then true else false.

Definition ROps : NumOps R :=
  {| f_zero := 0%R; f_one := 1%R;
     f_add := Rplus; f_sub := Rminus; f_mul := Rmult; f_div := Rdiv;
     f_ltb := Rltb |}.

(** ** Point cloud and job state *)

Abbreviation V3 := (Q * Q * Q)%type.

(** [o3d.geometry.PointCloud]: index-aligned positions and colours. *)
Record PointCloud := {
  points : list V3;
  colors : list V3
}.

(** The fields of a [Build3d] object the pipeline reads.  [building] holds
    the exterior rings of the faces ([get_building], already loaded) and
    [pcd] the cached point cloud ([None] until [get_pointcloud] ran). *)
Record Build3d := {
  bldid : string;
  lod : Z;
  dirname : string;
  building : list (list V3);
  pcd : option PointCloud;
  gridsize : Q
}.

Definition BUFFER : Q := 1.
Definition GRIDSIZE : Q := 1 # 100.
Definition LIMIT_POINTS : Z := 500000.
Definition DEFAULT_IMAGESIZE : Z := 1024.

(** The penalty 999.9 added to the distance of a point outside the bounding
    box, and to every distance of the first and last face when [lod = 1]. *)
Definition SENTINEL : Q := 9999 # 10.

(** Python's builtin [min(a, b)] and [max(a, b)]: the first argument wins
    unless the second is strictly better. *)
Definition py_min (a b : Q) : Q := if Qltb b a then b else a.
Definition py_max (a b : Q) : Q := if Qltb a b then b else a.

(** [Surface.get_projected_points] on the loaded cloud. *)
Definition get_projected_points (pc : PointCloud) (s : Surface Q) : list V3 :=
  map (fun p => matmul_row QOps (vsub QOps p (origin s)) (projection_matrix s))
      (points pc).

(** [Surface.get_distance_matrix].  The argument [check_bounds] is not read
    by the source: the penalty is always applied. *)
Definition outbound (bd : Q * Q * Q * Q) (p : V3) : bool :=
  let '(minx, miny, maxx, maxy) := bd in
  Qltb (vx p) minx || Qltb maxx (vx p) || Qltb (vy p) miny || Qltb maxy (vy p).

Definition get_distance_matrix (pc : PointCloud) (s : Surface Q)
    (check_bounds : bool) : list Q :=
  map (fun p => (Qabs (vz p) + (if outbound (boundary s) p then SENTINEL else 0))%Q)
      (get_projected_points pc s).

(** ** Distance matrix and nearest face ([make_objfiles], lines 194-233) *)

(** [distances.min()] *)
Definition min_of (l : list Q) : Q :=
  match l with [] => 0%Q | x :: r => foldl py_min x r end.
Definition max_of (l : list Q) : Q :=
  match l with [] => 0%Q | x :: r => foldl py_max x r end.

(** The loop over [enumerate(surfaces)]: [n] is the running index, [nsurf]
    is [len(surfaces)], and [list_of_distances], [k], [nkmap] are the three
    loop variables. *)
Fixpoint distance_rows (pc : PointCloud) (lod : Z) (nsurf n : nat)
    (surfaces : list (Surface Q))
    (list_of_distances : list (list Q)) (k : nat) (nkmap : list (option nat))
    : list (list Q) * list (option nat) :=
  match surfaces with
  | [] => (list_of_distances, nkmap)
  | surface :: rest =>
      let distances := get_distance_matrix pc surface true in
      if (length distances =? 0)%nat then
        distance_rows pc lod nsurf (S n) rest list_of_distances k (nkmap ++ [None])
      else
        let distances :=
          if (lod =? 1)%Z && ((n =? 0)%nat || (n =? nsurf - 1)%nat)
          then map (fun d => (d + SENTINEL)%Q) distances
          else distances in
        let min_dist := min_of distances in
        if Qltb 10 min_dist then
          distance_rows pc lod nsurf (S n) rest list_of_distances k (nkmap ++ [None])
        else
          distance_rows pc lod nsurf (S n) rest
                        (list_of_distances ++ [distances]) (S k) (nkmap ++ [Some k])
  end.

Definition build_distance_matrix (pc : PointCloud) (lod : Z)
    (surfaces : list (Surface Q)) : list (list Q) * list (option nat) :=
  distance_rows pc lod (length surfaces) 0 surfaces [] 0%nat [].

(** [np.argmin] of one column: the first index holding the minimum. *)
Fixpoint argmin_from (best_i : nat) (best : Q) (i : nat) (l : list Q) : nat :=
  match l with
  | [] => best_i
  | x :: r => if Qltb x best then argmin_from i x (S i) r
              else argmin_from best_i best (S i) r
  end.

Definition argmin (l : list Q) : nat :=
  match l with [] => 0%nat | x :: r => argmin_from 0 x 1 r end.

Definition column (m : list (list Q)) (p : nat) : list Q :=
  map (fun row => nth p row 0%Q) m.

(** [nearest_face] is the Python value [False] when the matrix has no row,
    and the array [np.argmin(distance_matrix, axis=0)] otherwise. *)
Inductive NearestFace :=
| NF_False
| NF_Array (a : list nat).

Definition nearest_face_of (distance_matrix : list (list Q)) : NearestFace :=
  match distance_matrix with
  | [] => NF_False
  | row0 :: _ =>
      NF_Array (map (fun p => argmin (column distance_matrix p))
                    (seq 0 (length row0)))
  end.

(** ** Masks *)

(** [mask: Union[np.ndarray, bool]] *)
Inductive Mask :=
| MBool (b : bool)
| MArray (a : list bool).

(** Boolean-array indexing [arr[mask]]: the lengths must agree. *)
Fixpoint select {A : Type} (mask : list bool) (l : list A) : list A :=
  match mask, l with
  | b :: mask', x :: l' => if b then x :: select mask' l' else select mask' l'
  | _, _ => []
  end.

Definition index_by_mask {A : Type} (mask : list bool) (l : list A) : option (list A) :=
  if (length mask =? length l)%nat then Some (select mask l) else None.

(** Method [nearest] (lines 240-246): the mask of surface [n], whose row
    number is [k = nkmap[n]].  A row number exists only when the matrix has
    rows; indexing an empty matrix raises. *)
Definition nearest_mask (nearest_face : NearestFace)
    (distance_matrix : list (list Q)) (k : option nat) : option Mask :=
  match k with
  | None => Some (MBool false)
  | Some k =>
      match nearest_face, distance_matrix !! k with
      | NF_Array a, Some row =>
          Some (MArray (zip_with andb (map (fun f => (f =? k)%nat) a)
                                      (map (fun d => Qltb d 999) row)))
      | _, _ => None
      end
  end.

(** [nearest_face == k], where [k] may be [None]. *)
Definition eq_row (nearest_face : NearestFace) (k : option nat) : Mask :=
  match nearest_face, k with
  | NF_False, None => MBool false
  | NF_False, Some k => MBool (k =? 0)%nat
  | NF_Array a, None => MArray (map (fun _ => false) a)
  | NF_Array a, Some k => MArray (map (fun f => (f =? k)%nat) a)
  end.

(** Method [smart] (lines 259-272).  [projected_pcd[False]] has length 0;
    the scalar [True] cannot arise from [eq_row] on the values the matrix
    loop produces and is left undefined. *)
Definition smart_mask (nearest_face : NearestFace) (k : option nat)
    (projected_pcd : list V3) : option Mask :=
  match eq_row nearest_face k with
  | MBool false => Some (MBool false)
  | MBool true => None
  | MArray mask =>
      filtered_pcd ← index_by_mask mask projected_pcd;
      if (length filtered_pcd =? 0)%nat then Some (MBool false)
      else
        let z := map (@vz Q) filtered_pcd in
        let z_range := (py_min (-1) (py_max (-10) (min_of z)),
                        py_max 1 (max_of z)) in
        let z := map (@vz Q) projected_pcd in
        Some (MArray (map (fun d => Qle_bool (fst z_range) d && Qle_bool d (snd z_range)) z))
  end.

(** ** Files *)

Abbreviation RGB := (Z * Z * Z)%type.

(** The lines of the mesh file, each with the values its [print] is given.
    [L_v] and [L_vn] hold the vector handed to the format [{:.4f}], which
    the file shows with four decimals; [L_vt] holds the texture coordinate,
    already rounded to three decimals, handed to [{:.3f}]. *)
Inductive ObjLine :=
| L_mtllib (name : string)
| L_o (name : string)
| L_v (v : V3)
| L_vn (v : V3)
| L_vt (t : Q * Q)
| L_usemtl (name : string)
| L_f (triples : list (nat * nat * nat)).

(** The lines of the material file: per face eight of them. *)
Inductive MtlLine :=
| L_newmtl (name : string)
| L_Kd                   (* Kd 1 1 1 *)
| L_Ns                   (* Ns 0 *)
| L_d                    (* d 1 *)
| L_illum                (* illum 1 *)
| L_Ka                   (* Ka 0 0 0 *)
| L_Ks                   (* Ks 1 1 1 *)
| L_map_Kd (name : string).

(** Content of a written file: a raster (the rows of [rgbarray], in array
    order), a point cloud dump, or the records of a mesh or material file. *)
Inductive File :=
| PNG (rows : list (list RGB))
| PLY (cloud : PointCloud)
| OBJ (lines : list ObjLine)
| MTL (lines : list MtlLine).

Abbreviation FS := (gmap string File).

Definition slash : Ascii.ascii := Ascii.ascii_of_nat 47.

Fixpoint has_slash (s : string) : bool :=
  match s with
  | EmptyString => false
  | String c r => if Ascii.eqb c slash then true else has_slash r
  end.

Fixpoint ends_with_slash (s : string) : bool :=
  match s with
  | EmptyString => false
  | String c EmptyString => Ascii.eqb c slash
  | String _ r => ends_with_slash r
  end.

(** [os.path.join(a, b)] on POSIX paths. *)
Definition path_join (a b : string) : string :=
  match b with
  | String c _ =>
      if Ascii.eqb c slash then b
      else if String.eqb a EmptyString || ends_with_slash a then a +:+ b
      else a +:+ "/" +:+ b
  | EmptyString =>
      if String.eqb a EmptyString || ends_with_slash a then a else a +:+ "/"
  end.

(** [os.path.basename]: what follows the last slash. *)
Fixpoint basename (s : string) : string :=
  match s with
  | EmptyString => EmptyString
  | String c r =>
      if has_slash r then basename r
      else if Ascii.eqb c slash then r
      else String c r
  end.

(** [{:03d}] *)
Definition fmt_03d (n : nat) : string :=
  let s := pretty n in
  String.concat EmptyString (replicate (3 - String.length s) "0") +:+ s.

Definition gray : RGB := (128, 128, 128)%Z.

(** [Image.new('RGB', (4, 4), (128, 128, 128))] *)
Definition gray_image : list (list RGB) := replicate 4 (replicate 4 gray).

(** ** Texture rasterisation ([Surface.create_texture_image]) *)

(** [(x >= minx) & (x <= maxx) & (y >= miny) & (y <= maxy)] *)
Definition in_bounds (bd : Q * Q * Q * Q) (p : V3) : bool :=
  let '(minx, miny, maxx, maxy) := bd in
  Qle_bool minx (vx p) && Qle_bool (vx p) maxx &&
  Qle_bool miny (vy p) && Qle_bool (vy p) maxy.

(** [mask & inb] under numpy's rules: a scalar applies to every element,
    equal lengths combine element by element, a length of one is broadcast,
    anything else is a [ValueError]. *)
Definition broadcast_and (mask : Mask) (inb : list bool) : option (list bool) :=
  match mask with
  | MBool b => Some (map (andb b) inb)
  | MArray a =>
      if (length a =? length inb)%nat then Some (zip_with andb a inb)
      else match a, inb with
           | [b], _ => Some (map (andb b) inb)
           | _, [i] => Some (map (fun b => b && i) a)
           | _, _ => None
           end
  end.

(** [np.any] *)
Definition np_any (mask : list bool) : bool := existsb (fun x : bool => x) mask.

(** [gridsize = max(w / (imagesize - 1.0), h / (imagesize - 1.0),
    self.build3d.gridsize)], with Python's left-to-right [max].  The model
    is meant for [imagesize <> 1]: with [imagesize = 1] the source divides
    by zero and continues with an infinite or undefined float, which the
    rationals do not have. *)
Definition texture_gridsize (b : Build3d) (s : Surface Q) (imagesize : Z) : Q :=
  let '(minx, miny, maxx, maxy) := boundary s in
  py_max (py_max ((maxx - minx) / (inject_Z imagesize - 1))
                 ((maxy - miny) / (inject_Z imagesize - 1)))
         (gridsize b).

(** [int(x)]: truncation towards zero. *)
Definition Qtrunc (x : Q) : Z := Z.quot (Qnum x) (Zpos (Qden x)).

(** [np.linspace(start, stop, num)] for [num >= 0]. *)
Definition linspace (start stop : Q) (num : Z) : list Q :=
  if (num =? 1)%Z then [start]
  else map (fun i => (start + inject_Z (Z.of_nat i)
                              * ((stop - start) / inject_Z (num - 1)))%Q)
           (seq 0 (Z.to_nat num)).

Definition sq_dist (a b : Q * Q) : Q :=
  ((fst a - fst b) * (fst a - fst b) + (snd a - snd b) * (snd a - snd b))%Q.

(** [tree.query(xi)]: squared distance to, and index of, the nearest sample
    (the first one among equidistant samples). *)
Definition tree_query (xyarray : list (Q * Q)) (xi : Q * Q) : Q * nat :=
  let d := map (sq_dist xi) xyarray in
  let i := argmin d in
  (nth i d 0%Q, i).

(** [dists > gridsize * 2], on the squared distance. *)
Definition too_far (d2 g : Q) : bool :=
  Qltb (g * 2) 0 || Qltb ((g * 2) * (g * 2)) d2.

(** [(c * 256).astype(np.uint8)] *)
Definition to_uint8 (c : Q) : Z := (Qtrunc (c * 256) mod 256)%Z.

Definition color_to_rgb (c : V3) : RGB :=
  (to_uint8 (vx c), to_uint8 (vy c), to_uint8 (vz c)).

(** One cell of [rgbarray]: the colour of the nearest sample, overwritten
    by 128 when that sample is farther than [gridsize * 2]. *)
Definition cell_color (xyarray : list (Q * Q)) (sample_colors : list V3)
    (g : Q) (xi : Q * Q) : RGB :=
  let '(d2, i) := tree_query xyarray xi in
  if too_far d2 g then gray
  else color_to_rgb (nth i sample_colors (0, 0, 0)%Q).

(** The raster of lines 786-804 drawn from the samples
    [(sample_points, sample_colors)]. *)
Definition rasterize (bd : Q * Q * Q * Q) (g : Q)
    (sample_points : list V3) (sample_colors : list V3) : list (list RGB) :=
  let '(minx, miny, maxx, maxy) := bd in
  let xyarray := map (fun p => (vx p, vy p)) sample_points in
  let width := (Qtrunc ((maxx - minx) / g) + 1)%Z in
  let height := (Qtrunc ((maxy - miny) / g) + 1)%Z in
  let new_xcoord := linspace minx maxx width in
  let new_ycoord := linspace miny maxy height in
  map (fun y => map (fun x => cell_color xyarray sample_colors g (x, y)) new_xcoord)
      new_ycoord.

Section WithVoxelDownSample.
(** [pcd.voxel_down_sample(voxel_size=...)] of Open3D. *)
Variable voxel_down_sample : PointCloud -> Q -> PointCloud.

(** The [while] loop of [get_pointcloud] (lines 422-430).  The last
    component is [self.gridsize]. *)
Fixpoint downsample_loop (fuel : nat) (pcd : PointCloud) (limit_points : Z)
    (down_pcd : PointCloud) (gridsize self_gridsize : Q)
    : option (PointCloud * Q) :=
  match fuel with
  | O => None
  | S fuel =>
      if (0 <? limit_points)%Z &&
         (limit_points <? Z.of_nat (length (points down_pcd)))%Z
      then
        let down_pcd := voxel_down_sample pcd gridsize in
        downsample_loop fuel pcd limit_points down_pcd
                        (gridsize * (141421356 # 100000000))%Q gridsize
      else Some (down_pcd, self_gridsize)
  end.

(** [Build3d.get_pointcloud].  [cropped] is the cloud read from the LAS
    files and cut to the prism over the footprint (lines 391-419). *)
Definition get_pointcloud (fuel : nat) (b : Build3d) (cropped : PointCloud)
    (limit_points : option Z) : option (Build3d * PointCloud) :=
  match pcd b with
  | Some pc => Some (b, pc)
  | None =>
      let limit_points := default LIMIT_POINTS limit_points in
      '(down_pcd, g) ← downsample_loop fuel cropped limit_points cropped
                                       GRIDSIZE (gridsize b);
      Some ({| bldid := bldid b; lod := lod b; dirname := dirname b;
               building := building b; pcd := Some down_pcd;
               gridsize := g |}, down_pcd)
  end.

(** [Surface.create_texture_image].  The cloud must be loaded ([pcd b]).
    The result is the returned file name and the files after the call. *)
Definition create_texture_image (b : Build3d) (s : Surface Q) (mask : Mask)
    (imagesize : option Z) (prefix : option string)
    (write_pointcloud : bool) (fs : FS) : option (string * FS) :=
  let imagesize := default DEFAULT_IMAGESIZE imagesize in
  let prefix := match prefix with
                | Some p => if String.eqb p EmptyString then bldid b else p
                | None => bldid b
                end in
  let g := texture_gridsize b s imagesize in
  pc ← pcd b;
  let projected_points := get_projected_points pc s in
  mask ← broadcast_and mask (map (in_bounds (boundary s)) projected_points);
  if negb (np_any mask) then
    let pngfilename := path_join (dirname b) "no_texture.png" in
    let fs := match fs !! pngfilename with
              | Some _ => fs
              | None => <[pngfilename := PNG gray_image]> fs
              end in
    Some (basename pngfilename, fs)
  else
    filtered_points ← index_by_mask mask projected_points;
    filtered_colors ← index_by_mask mask (colors pc);
    let new_pcd := {| points := filtered_points; colors := filtered_colors |} in
    let new_pcd := if Qltb (gridsize b * 2) g
                   then voxel_down_sample new_pcd g else new_pcd in
    let fs := if write_pointcloud
              then <[path_join (dirname b)
                       (prefix +:+ "_" +:+ fmt_03d (face_number s) +:+ ".ply")
                     := PLY new_pcd]> fs
              else fs in
    (* a grid size of zero makes the divisions of the raster raise; a
       negative one cannot arise, the grid size of the job starting at
       [GRIDSIZE] and only growing *)
    if Qle_bool g 0 then None
    else
      let rgbarray := rasterize (boundary s) g filtered_points filtered_colors in
      let pngfilename :=
        path_join (dirname b)
          (prefix +:+ "_" +:+ fmt_03d (face_number s) +:+ ".png") in
      Some (basename pngfilename, <[pngfilename := PNG rgbarray]> fs).
End WithVoxelDownSample.

(** ** Open3D's voxel grid filter

    [voxel_down_sample] buckets the points into cubes of edge [voxel_size]
    whose grid starts at [min_bound - voxel_size / 2], and replaces every
    occupied cube by the average position and the average colour of its
    points.  Open3D does not specify the order of the output; here cubes
    come in the order in which they are first hit. *)

Definition vmin3 (a b : V3) : V3 :=
  (py_min (vx a) (vx b), py_min (vy a) (vy b), py_min (vz a) (vz b)).

Definition get_min_bound (l : list V3) : V3 :=
  match l with [] => (0, 0, 0)%Q | p :: r => foldl vmin3 p r end.

Definition voxel_index (min_bound : V3) (voxel_size : Q) (p : V3) : Z * Z * Z :=
  let f c m := Qfloor ((c - (m - voxel_size / 2)) / voxel_size) in
  (f (vx p) (vx min_bound), f (vy p) (vy min_bound), f (vz p) (vz min_bound)).

Definition vadd3 (a b : V3) : V3 :=
  (vx a + vx b, vy a + vy b, vz a + vz b)%Q.

Definition vavg3 (a : V3) (n : Z) : V3 :=
  (vx a / inject_Z n, vy a / inject_Z n, vz a / inject_Z n)%Q.

Definition Z3_eqb (a b : Z * Z * Z) : bool :=
  (a.1.1 =? b.1.1)%Z && (a.1.2 =? b.1.2)%Z && (a.2 =? b.2)%Z.

Fixpoint accumulate_voxel (key : Z * Z * Z) (p c : V3)
    (acc : list (Z * Z * Z * (V3 * V3 * Z))) : list (Z * Z * Z * (V3 * V3 * Z)) :=
  match acc with
  | [] => [(key, (p, c, 1%Z))]
  | (key', (sp, sc, n)) :: rest =>
      if Z3_eqb key key' then (key', (vadd3 sp p, vadd3 sc c, (n + 1)%Z)) :: rest
      else (key', (sp, sc, n)) :: accumulate_voxel key p c rest
  end.

Definition o3d_voxel_down_sample (pcd : PointCloud) (voxel_size : Q) : PointCloud :=
  let mb := get_min_bound (points pcd) in
  let acc := foldl (fun acc pc => accumulate_voxel (voxel_index mb voxel_size pc.1)
                                                   pc.1 pc.2 acc)
                   [] (zip (points pcd) (colors pcd)) in
  {| points := map (fun e => vavg3 e.2.1.1 e.2.2) acc;
     colors := map (fun e => vavg3 e.2.1.2 e.2.2) acc |}.

(** ** Mesh assembly ([make_objfiles]) *)

(** [==] on tuples of floats. *)
Definition V3_eqb (a b : V3) : bool :=
  Qeq_bool (vx a) (vx b) && Qeq_bool (vy a) (vy b) && Qeq_bool (vz a) (vz b).

Definition Q2_eqb (a b : Q * Q) : bool :=
  Qeq_bool a.1 b.1 && Qeq_bool a.2 b.2.

Section Dedup.
Context {A : Type} (eqb : A -> A -> bool).

(** [l.index(v)]: the position of the first element equal to [v];
    [None] is the [ValueError]. *)
Fixpoint list_index (l : list A) (v : A) : option nat :=
  match l with
  | [] => None
  | x :: r => if eqb x v then Some 0%nat else S <$> list_index r v
  end.

(** [try: pos = l.index(v)  except ValueError: pos = len(l); l.append(v)] *)
Definition index_or_append (l : list A) (v : A) : nat * list A :=
  match list_index l v with
  | Some pos => (pos, l)
  | None => (length l, l ++ [v])
  end.

(** The inner loop over the elements of one face: [positions] collects
    the indices, [l] is the shared list. *)
Fixpoint index_all (items : list A) (l : list A) (positions : list nat)
    : list nat * list A :=
  match items with
  | [] => (positions, l)
  | v :: rest =>
      let '(pos, l) := index_or_append l v in
      index_all rest l (positions ++ [pos])
  end.
End Dedup.

Section WithLibraries.
Variable np_sqrt : Q -> Q.
Variable voxel_down_sample : PointCloud -> Q -> PointCloud.

(** Lines 158-179: the global vertex list, the per-face vertex indices and
    the [Surface] objects. *)
Fixpoint collect_faces (i : nat) (faces : list (list V3))
    (face_vertices : list (list nat)) (all_vertices : list V3)
    (surfaces : list (Surface Q))
    : option (list (list nat) * list V3 * list (Surface Q)) :=
  match faces with
  | [] => Some (face_vertices, all_vertices, surfaces)
  | ring :: rest =>
      let '(vertices, all_vertices) :=
        index_all V3_eqb (removelast ring) all_vertices [] in
      surface ← calc_basic_metrics QOps np_sqrt i ring;
      collect_faces (S i) rest (face_vertices ++ [vertices]) all_vertices
                    (surfaces ++ [surface])
  end.

(** One pass [for n, surface in enumerate(surfaces)] that stores
    [create_texture_image(...)] in [texture_images[n]]; [mask_of] is the
    body computing the mask. *)
Fixpoint texture_loop (b : Build3d) (imagesize : option Z) (prefix : string)
    (mask_of : nat -> Surface Q -> option Mask) (n : nat)
    (surfaces : list (Surface Q)) (texture_images : list string) (fs : FS)
    : option (list string * FS) :=
  match surfaces with
  | [] => Some (texture_images, fs)
  | surface :: rest =>
      mask ← mask_of n surface;
      '(name, fs) ← create_texture_image voxel_down_sample b surface mask
                                         imagesize (Some prefix) false fs;
      texture_loop b imagesize prefix mask_of (S n) rest
                   (texture_images ++ [name]) fs
  end.

(** [str.lower] on ASCII. *)
Definition lower_char (c : Ascii.ascii) : Ascii.ascii :=
  let n := Ascii.nat_of_ascii c in
  if (65 <=? n)%nat && (n <=? 90)%nat then Ascii.ascii_of_nat (n + 32) else c.

Fixpoint lower (s : string) : string :=
  match s with
  | EmptyString => EmptyString
  | String c r => String (lower_char c) (lower r)
  end.

(** Lines 181-275: the mask of every surface under the chosen method. *)
Definition texture_images_of (b : Build3d) (pc : PointCloud)
    (imagesize : option Z) (prefix texture_mapping_method : string)
    (surfaces : list (Surface Q)) (fs : FS) : option (list string * FS) :=
  if String.eqb (lower texture_mapping_method) "all" then
    texture_loop b imagesize prefix (fun _ _ => Some (MBool true)) 0 surfaces [] fs
  else
    let '(distance_matrix, nkmap) := build_distance_matrix pc (lod b) surfaces in
    let nearest_face := nearest_face_of distance_matrix in
    if String.eqb (lower texture_mapping_method) "nearest" then
      texture_loop b imagesize prefix
        (fun n _ => k ← nkmap !! n; nearest_mask nearest_face distance_matrix k)
        0 surfaces [] fs
    else
      texture_loop b imagesize prefix
        (fun n surface =>
           k ← nkmap !! n;
           smart_mask nearest_face k (get_projected_points pc surface))
        0 surfaces [] fs.

(** [round(x, 3)]: to the nearest multiple of 1/1000, ties to even. *)
Definition round3 (x : Q) : Q :=
  let y := (x * 1000)%Q in
  let n := Qfloor y in
  let frac := (y - inject_Z n)%Q in
  let r := if Qltb frac (1 # 2) then n
           else if Qltb (1 # 2) frac then (n + 1)%Z
           else if Z.even n then n else (n + 1)%Z in
  (inject_Z r / 1000)%Q.

Definition texture_coord (bd : Q * Q * Q * Q) (vertice : V3) : Q * Q :=
  let '(minx, miny, maxx, maxy) := bd in
  let width := (maxx - minx)%Q in
  let height := (maxy - miny)%Q in
  (round3 ((vx vertice - minx) / width),
   round3 (1 - (vy vertice - miny) / height)).

(** Lines 293-317: [vt_list] and [vt_index] over all surfaces.  [vt_list]
    is created once, before the loop. *)
Fixpoint collect_texcoords (surfaces : list (Surface Q))
    (vt_list : list (Q * Q)) (vt_index : list (list nat))
    : list (Q * Q) * list (list nat) :=
  match surfaces with
  | [] => (vt_list, vt_index)
  | surface :: rest =>
      let '(face_vt_index, vt_list) :=
        index_all Q2_eqb
          (map (texture_coord (boundary surface)) (projected_vertices surface))
          vt_list [] in
      collect_texcoords rest vt_list (vt_index ++ [face_vt_index])
  end.

(** Lines 327-330: the index triples of face [n]. *)
Fixpoint face_triples (n i : nat) (vertices : list nat) (vt_n : list nat)
    : option (list (nat * nat * nat)) :=
  match vertices with
  | [] => Some []
  | v :: rest =>
      t ← vt_n !! i;
      r ← face_triples n (S i) rest vt_n;
      Some ((v + 1, t + 1, n + 1)%nat :: r)
  end.

(** Lines 324-333: the [usemtl] and [f] lines. *)
Fixpoint face_lines (n : nat) (face_vertices : list (list nat))
    (texture_images : list string) (vt_index : list (list nat))
    : option (list ObjLine) :=
  match face_vertices with
  | [] => Some []
  | vertices :: rest =>
      name ← texture_images !! n;
      vt_n ← vt_index !! n;
      values ← face_triples n 0 vertices vt_n;
      r ← face_lines (S n) rest texture_images vt_index;
      Some (L_usemtl name :: L_f values :: r)
  end.

(** Lines 282-333: the records of the mesh file. *)
Definition obj_lines (prefix : string) (b : Build3d)
    (all_vertices : list V3) (surfaces : list (Surface Q))
    (face_vertices : list (list nat)) (texture_images : list string)
    : option (list ObjLine) :=
  let '(vt_list, vt_index) := collect_texcoords surfaces [] [] in
  fl ← face_lines 0 face_vertices texture_images vt_index;
  Some ([L_mtllib (prefix +:+ ".mtl"); L_o (bldid b)]
        ++ map L_v all_vertices
        ++ map (fun s => L_vn (col2 (projection_matrix s))) surfaces
        ++ map L_vt vt_list
        ++ fl).

(** Lines 340-348: per face the [newmtl] line, the six lines of the
    second [print], and the [map_Kd] line. *)
Fixpoint mtl_lines (nfaces n : nat) (texture_images : list string)
    : option (list MtlLine) :=
  match nfaces with
  | O => Some []
  | S nfaces =>
      texture_image ← texture_images !! n;
      r ← mtl_lines nfaces (S n) texture_images;
      Some (L_newmtl texture_image
            :: L_Kd :: L_Ns :: L_d :: L_illum :: L_Ka :: L_Ks
            :: L_map_Kd texture_image :: r)
  end.

Definition format_imagesize (imagesize : option Z) : string :=
  match imagesize with Some n => pretty n | None => "None" end.

(** ["{}_lod{}_{}_{}_{}".format(...)] *)
Definition make_prefix (b : Build3d) (pc : PointCloud)
    (imagesize : option Z) (texture_mapping_method : string) : string :=
  bldid b +:+ "_lod" +:+ pretty (lod b) +:+ "_" +:+ texture_mapping_method
    +:+ "_" +:+ format_imagesize imagesize
    +:+ "_" +:+ pretty (length (points pc)).

(** [Build3d.make_objfiles], on a job whose building and point cloud are
    loaded; the result is the file system after the call. *)
Definition make_objfiles (b : Build3d) (imagesize : option Z)
    (texture_mapping_method : string) (fs : FS) : option FS :=
  pc ← pcd b;
  let faces := building b in
  let prefix := make_prefix b pc imagesize texture_mapping_method in
  '(face_vertices, all_vertices, surfaces) ← collect_faces 0 faces [] [] [];
  '(texture_images, fs) ←
      texture_images_of b pc imagesize prefix texture_mapping_method surfaces fs;
  lines ← obj_lines prefix b all_vertices surfaces face_vertices texture_images;
  let fs := <[path_join (dirname b) (prefix +:+ ".obj") := OBJ lines]> fs in
  mtl ← mtl_lines (length faces) 0 texture_images;
  Some (<[path_join (dirname b) (prefix +:+ ".mtl") := MTL mtl]> fs).
End WithLibraries.

(** ** Reading the emitted mesh back *)

Definition f_records (lines : list ObjLine) : list (list (nat * nat * nat)) :=
  omap (fun l => match l with L_f t => Some t | _ => None end) lines.

Definition v_records (lines : list ObjLine) : list V3 :=
  omap (fun l => match l with L_v v => Some v | _ => None end) lines.

Definition vt_records (lines : list ObjLine) : list (Q * Q) :=
  omap (fun l => match l with L_vt t => Some t | _ => None end) lines.

(** ** Derived notions used in the statements *)

(** The distance vector of surface [n] as it enters the exclusion test of
    the matrix loop: the cap penalty of [lod = 1] is already added. *)
Definition face_distances (pc : PointCloud) (lod : Z) (nsurf n : nat)
    (s : Surface Q) : list Q :=
  let d := get_distance_matrix pc s true in
  if (lod =? 1)%Z && ((n =? 0)%nat || (n =? nsurf - 1)%nat)
  then map (fun d => (d + SENTINEL)%Q) d else d.

(** Texture coordinates of the vertices of one surface. *)
Definition texcoords_of (s : Surface Q) : list (Q * Q) :=
  map (texture_coord (boundary s)) (projected_vertices s).

(** The depth window of method [smart], from the depths [z] of the
    restriction subset. *)
Definition depth_window (z : list Q) : Q * Q :=
  (py_min (-1) (py_max (-10) (min_of z)), py_max 1 (max_of z)).

(** Surface [n] keeps a row: the cloud is not empty and the smallest entry
    of its (penalised) distance vector is at most 10. *)
Definition survives (pc : PointCloud) (lod : Z) (nsurf n : nat) (s : Surface Q) : bool :=
  negb (length (get_distance_matrix pc s true) =? 0)%nat &&
  negb (Qltb 10 (min_of (face_distances pc lod nsurf n s))).

(** [k] is the first position of the minimum of [col]: the arg-min with
    ties resolved towards the lowest index. *)
Definition first_min (col : list Q) (k : nat) : Prop :=
  (k < length col)%nat /\
  (forall j, (j < length col)%nat -> (nth k col 0 <= nth j col 0)%Q) /\
  (forall j, (j < k)%nat -> (nth k col 0 < nth j col 0)%Q).

(** Depths of the points whose nearest row is [k]: the restriction subset
    of method [smart]. *)
Definition restriction_depths (nf : list nat) (k : nat) (pp : list V3) : list Q :=
  omap (fun fp => if (fp.1 =? k)%nat then Some (vz fp.2) else None) (zip nf pp).

(** The directory part [os.path.join] puts in front of a relative name, and
    what it puts in front of an extension appended to the name [x]. *)
Definition join_dir (a : string) : string :=
  if String.eqb a EmptyString || ends_with_slash a then a else a +:+ "/".

Definition join_pre (a x : string) : string :=
  match x with
  | String y _ => if Ascii.eqb y slash then x else join_dir a +:+ x
  | EmptyString => join_dir a
  end.

(** Position in the mask of the [i]-th selected element. *)
Fixpoint nth_true (m : list bool) (i : nat) : nat :=
  match m with
  | [] => 0
  | true :: m' => match i with 0 => 0 | S i' => S (nth_true m' i') end
  | false :: m' => S (nth_true m' i)
  end.

(** The zero vector of the real instance. *)
Definition rzero : R * R * R := (0, 0, 0)%R.

(** ** Sample data *)

Module Sample.
(** A square root rounded down to an integer: on the squared lengths
    4, 16 and 64 that the sample faces produce it returns 2, 4 and 8, as
    the library's square root does. *)
Definition isqrt (x : Q) : Q := inject_Z (Z.sqrt (Qfloor x)).

(** Horizontal squares of side 2 at heights 0 and 1, a right triangle in
    the plane [y = 0], and a wall in the plane [x = 0]. *)
Definition ring_A : list V3 :=
  [(0, 0, 0); (2, 0, 0); (2, 2, 0); (0, 2, 0); (0, 0, 0)]%Q.
Definition ring_B : list V3 :=
  [(0, 0, 1); (2, 0, 1); (2, 2, 1); (0, 2, 1); (0, 0, 1)]%Q.
Definition ring_T : list V3 :=
  [(0, 0, 0); (2, 0, 0); (0, 0, 1); (0, 0, 0)]%Q.
Definition ring_W : list V3 :=
  [(0, 0, 0); (0, 2, 0); (0, 2, 1); (0, 0, 1); (0, 0, 0)]%Q.

Definition surface_of (n : nat) (ring : list V3) : Surface Q :=
  default {| face_number := n; origin := (0, 0, 0)%Q;
             boundary := (0, 0, 0, 0)%Q; area := 0%Q;
             projected_vertices := [];
             projection_matrix := {| m00 := 0; m01 := 0; m02 := 0;
                                     m10 := 0; m11 := 0; m12 := 0;
                                     m20 := 0; m21 := 0; m22 := 0 |}%Q |}
          (calc_basic_metrics QOps isqrt n ring).

Definition surface_A : Surface Q := surface_of 0 ring_A.
Definition surfaces_AB : list (Surface Q) :=
  [surface_of 0 ring_A; surface_of 1 ring_B].
Definition surfaces_AWB : list (Surface Q) :=
  [surface_of 0 ring_A; surface_of 1 ring_W; surface_of 2 ring_B].
Definition surfaces_AT : list (Surface Q) :=
  [surface_of 0 ring_A; surface_of 1 ring_T].

Definition red : V3 := (1 # 4, 0, 0)%Q.
Definition green : V3 := (0, 1 # 4, 0)%Q.

Definition job (l : Z) (faces : list (list V3)) (pc : PointCloud) : Build3d :=
  {| bldid := "b"; lod := l; dirname := "out"; building := faces;
     pcd := Some pc; gridsize := GRIDSIZE |}.

(** One point just above square A, one just above square B. *)
Definition cloud_AB : PointCloud :=
  {| points := [(1, 1, 1 # 10); (1, 1, 3 # 2)]%Q; colors := [red; green] |}.

(** One point far above square A (depth 999.5), one close to it. *)
Definition cloud_far : PointCloud :=
  {| points := [(1, 1, 1999 # 2); (1, 1, 1 # 10)]%Q; colors := [red; green] |}.

(** Two points over square A that fall into one voxel of edge 1. *)
Definition cloud_near : PointCloud :=
  {| points := [(1 # 5, 1 # 5, 0); (3 # 5, 3 # 5, 0)]%Q; colors := [red; green] |}.

Definition job_near : Build3d := job 2 [ring_A] cloud_near.

(** Texture of square A from [cloud_near] at three pixels a side: the
    grid size of the face is 1, a hundred times that of the cloud. *)
Definition texture_near : string * FS :=
  default (EmptyString, ∅)
    (create_texture_image o3d_voxel_down_sample job_near surface_A
                          (MBool true) (Some 3%Z) None false ∅).

(** The square A and the triangle T meshed with method [smart]. *)
Definition job_AT : Build3d := job 2 [ring_A; ring_T] cloud_near.

Definition mesh_AT : FS :=
  default ∅ (make_objfiles isqrt o3d_voxel_down_sample job_AT (Some 3%Z) "smart" ∅).

Definition lines_AT : list ObjLine :=
  default [] (obj_lines "p" job_AT (removelast ring_A ++ [(0, 0, 1)%Q])
                        surfaces_AT [[0; 1; 2; 3]; [0; 1; 4]]%nat ["a"; "b"]).

Definition masked_near : PointCloud :=
  {| points := get_projected_points cloud_near surface_A;
     colors := colors cloud_near |}.
End Sample.


(** * Further code of the repository *)

(** ** More readers of the mesh and material files *)

Definition usemtl_records (lines : list ObjLine) : list string :=
  omap (fun l => match l with L_usemtl n => Some n | _ => None end) lines.

Definition vn_records (lines : list ObjLine) : list V3 :=
  omap (fun l => match l with L_vn v => Some v | _ => None end) lines.

Definition newmtl_records (lines : list MtlLine) : list string :=
  omap (fun l => match l with L_newmtl n => Some n | _ => None end) lines.

Definition map_Kd_records (lines : list MtlLine) : list string :=
  omap (fun l => match l with L_map_Kd n => Some n | _ => None end) lines.

(** Number of rows handed out to the faces before face [n]. *)
Definition rows_before (nkmap : list (option nat)) (n : nat) : nat :=
  length (omap (fun k : option nat => k) (take n nkmap)).

(** A mask that numpy can combine with a vector of [npoints] entries and
    use as an index afterwards: a scalar, or one entry per point. *)
Definition mask_fits (npoints : nat) (mask : Mask) : Prop :=
  match mask with
  | MBool _ => True
  | MArray a => length a = npoints
  end.

(** Every file of [fs] is still present in [fs']. *)
Definition files_kept (fs fs' : FS) : Prop :=
  forall path, is_Some (fs !! path) -> is_Some (fs' !! path).

(** The name is the base name of a file present in [fs]. *)
Definition has_file (fs : FS) (name : string) : Prop :=
  exists path, basename path = name /\ is_Some (fs !! path).

(** No two entries of the list are equal under [eqb]. *)
Definition distinct_under {A : Type} (eqb : A -> A -> bool) (l : list A) : Prop :=
  forall i j x y, l !! i = Some x -> l !! j = Some y -> eqb x y = true -> i = j.


(** ** The voxel sizes tried by [get_pointcloud] *)

(** The voxel size of the [j]-th pass of the downsampling loop: [GRIDSIZE]
    multiplied [j] times by 1.41421356. *)
Fixpoint grid_at (j : nat) : Q :=
  match j with
  | O => GRIDSIZE
  | S j => (grid_at j * (141421356 # 100000000))%Q
  end.

(** The job after [get_pointcloud] stored the cloud [pc] and the voxel
    size [g]. *)
Definition with_cloud (b : Build3d) (pc : PointCloud) (g : Q) : Build3d :=
  {| bldid := bldid b; lod := lod b; dirname := dirname b;
     building := building b; pcd := Some pc; gridsize := g |}.

(** The loop condition of [get_pointcloud]: the limit is positive and the
    cloud has more points than the limit. *)
Definition over_limit (limit : Z) (pc : PointCloud) : bool :=
  (0 <? limit)%Z && (limit <? Z.of_nat (length (points pc)))%Z.


(** ** Points near the walls and the total wall area
    ([count_points_near_walls], [get_surface_area]) *)

Section WithSqrt.
Variable np_sqrt : Q -> Q.

(** The first loop of [count_points_near_walls]: one [Surface] per face,
  in face order, and the running sum of the areas. *)
Fixpoint surfaces_with_area (i : nat) (faces : list (list V3))
  (surfaces : list (Surface Q)) (total_area : Q)
  : option (list (Surface Q) * Q) :=
match faces with
| [] => Some (surfaces, total_area)
| ring :: rest =>
    surface ← calc_basic_metrics QOps np_sqrt i ring;
    surfaces_with_area (S i) rest (surfaces ++ [surface])
                       (total_area + area surface)%Q
end.

(** The second loop: the distance vectors of the faces whose nearest point
  is within [threshold]. *)
Fixpoint near_rows (pc : PointCloud) (lod : Z) (nsurf n : nat)
  (surfaces : list (Surface Q)) (list_of_distances : list (list Q))
  (threshold : Q) : list (list Q) :=
match surfaces with
| [] => list_of_distances
| surface :: rest =>
    let distances := get_distance_matrix pc surface true in
    let distances :=
      if (lod =? 1)%Z && ((n =? 0)%nat || (n =? nsurf - 1)%nat)
      then map (fun d => (d + SENTINEL)%Q) distances
      else distances in
    let min_dist := min_of distances in
    if Qltb threshold min_dist then
      near_rows pc lod nsurf (S n) rest list_of_distances threshold
    else
      near_rows pc lod nsurf (S n) rest (list_of_distances ++ [distances])
                threshold
end.

(** [Build3d.count_points_near_walls], on a job whose building and point
  cloud are loaded.  [threshold] defaults to 1.0. *)
Definition count_points_near_walls (b : Build3d) (threshold : option Q)
  : option Z :=
let threshold := default 1%Q threshold in
pc ← pcd b;
if (length (points pc) =? 0)%nat then Some 0%Z else
'(surfaces, total_area) ← surfaces_with_area 0 (building b) [] 0%Q;
let list_of_distances :=
  near_rows pc (lod b) (length surfaces) 0 surfaces [] threshold in
if (length list_of_distances =? 0)%nat then Some 0%Z else
let dists := map (fun p => min_of (column list_of_distances p))
                 (seq 0 (length (points pc))) in
Some (Z.of_nat (length (List.filter (fun d => Qle_bool d threshold) dists))).

(** [Build3d.get_surface_area]: the areas of the faces, summed in face
  order from 0.0. *)
Fixpoint area_loop (i : nat) (faces : list (list V3)) (total_area : Q)
  : option Q :=
match faces with
| [] => Some total_area
| ring :: rest =>
    surface ← calc_basic_metrics QOps np_sqrt i ring;
    area_loop (S i) rest (total_area + area surface)%Q
end.

Definition get_surface_area (b : Build3d) : option Q :=
area_loop 0 (building b) 0%Q.
End WithSqrt.

(** Number of [True] entries of a boolean vector. *)
Definition count_true (l : list bool) : Z :=
  Z.of_nat (length (List.filter (fun x : bool => x) l)).


(** * Map-sheet codes ([zukaku.py]) *)

Module zukaku.
(** A Python [str] is the list of its code points, so that [ord] is the
  identity; [chr] raises outside the Unicode range. *)
Definition chr (i : Z) : option Z :=
if (0 <=? i)%Z && (i <? 1114112)%Z then Some i else None.

Definition is_digit (c : Z) : bool := (48 <=? c)%Z && (c <=? 57)%Z.
Definition is_upper (c : Z) : bool := (65 <=? c)%Z && (c <=? 90)%Z.
(** The class [[0-9A-T]]. *)
Definition is_number_char (c : Z) : bool :=
is_digit c || ((65 <=? c)%Z && (c <=? 84)%Z).

(** Two characters of one class at the head of the string, and the rest. *)
Definition match2 (f : Z -> bool) (s : list Z) : option (list Z * list Z) :=
match s with
| a :: b :: rest => if f a && f b then Some ([a; b], rest) else None
| _ => None
end.

Fixpoint take_while (f : Z -> bool) (s : list Z) : list Z :=
match s with
| c :: rest => if f c then c :: take_while f rest else []
| [] => []
end.

(** The [re.match] of [get_extent] followed by [m.groups()]: an optional
  group of two digits, a group of two capitals, and the longest run of
  characters of the class [0-9A-T].  The optional group is tried first and
  given up when the two capitals do not follow; [None] when there is no
  match (the call of [groups] then raises). *)
Definition re_match (code : list Z)
  : option (option (list Z) * list Z * list Z) :=
let without_system :=
  match match2 is_upper code with
  | Some (kukaku, rest) => Some (None, kukaku, take_while is_number_char rest)
  | None => None
  end in
match match2 is_digit code with
| Some (system_code, rest) =>
    match match2 is_upper rest with
    | Some (kukaku, rest) =>
        Some (Some system_code, kukaku, take_while is_number_char rest)
    | None => without_system
    end
| None => without_system
end.

(** [int(system_code)] of a string of two digits. *)
Definition int_of_digits (s : list Z) : Z :=
foldl (fun acc c => (10 * acc + (c - 48))%Z) 0%Z s.

(** [get_extent].  The components of the result are the west, south, east
  and north bounds, the EPSG number [n] of the string ['EPSG:n'] (or
  [None]), and the map level. *)
Definition get_extent (code : list Z) : option (Q * Q * Q * Q * option Z * Q) :=
'(system_code, kukaku, numbers) ← re_match code;
let k i := inject_Z (nth i kukaku 0%Z) in
let c i := nth i numbers 0%Z in
let n i := inject_Z (c i) in
let len := length numbers in
let x0 := ((-160 + (k 1%nat - 65) * 40) * 1000)%Q in
let y0 := ((300 - (k 0%nat - 65) * 30) * 1000)%Q in
let st := (x0, y0, 40000, 30000, 50000)%Q in
let st :=
  if (2 <=? len)%nat then
    let '(x0, y0, dx, dy, level) := st in
    (x0 + (n 1%nat - 48) * 4000, y0 - (n 0%nat - 48) * 3000, 4000, 3000, 5000)%Q
  else st in
let st :=
  if (len =? 3)%nat then
    let '(x0, y0, dx, dy, level) := st in
    let x0 := if (c 2%nat =? 50)%Z || (c 2%nat =? 52)%Z then (x0 + 2000)%Q else x0 in
    let y0 := if (c 2%nat =? 51)%Z || (c 2%nat =? 52)%Z then (y0 - 1500)%Q else y0 in
    (x0, y0, 2000, 1500, 2500)%Q
  else st in
let st :=
  if (4 <=? len)%nat then
    let '(x0, y0, dx, dy, level) := st in
    if (48 <=? c 2%nat)%Z && (c 2%nat <? 58)%Z then
      if (65 <=? c 3%nat)%Z && (c 3%nat <? 70)%Z then
        (x0 + (n 3%nat - 65) * 800, y0 - (n 2%nat - 48) * 600, 800, 600, 1000)%Q
      else if (48 <=? c 3%nat)%Z && (c 3%nat <? 58)%Z then
        (x0 + (n 3%nat - 48) * 400, y0 - (n 2%nat - 48) * 300, 400, 300, 500)%Q
      else st
    else if (65 <=? c 2%nat)%Z && (c 2%nat <? 85)%Z then
      (x0 + (n 3%nat - 65) * 200, y0 - (n 2%nat - 65) * 150, 200, 150, 250)%Q
    else st
  else st in
let st :=
  if (len =? 5)%nat then
    let '(x0, y0, dx, dy, level) := st in
    (* [ord(numbers[4]) in ('2', '4')] compares a number with strings and
       is never true: neither bound moves. *)
    (x0, y0, dx / 2, dy / 2, level / 2)%Q
  else st in
let st :=
  if (len =? 6)%nat then
    let '(x0, y0, dx, dy, level) := st in
    if (48 <=? c 4%nat)%Z && (c 4%nat <? 58)%Z then
      if (65 <=? c 5%nat)%Z && (c 5%nat <? 70)%Z then
        let dx := (dx / 5)%Q in let dy := (dy / 5)%Q in
        (x0 + (n 5%nat - 65) * dx, y0 - (n 4%nat - 48) * dy, dx, dy, level / 5)%Q
      else if (48 <=? c 5%nat)%Z && (c 5%nat <? 58)%Z then
        let dx := (dx / 10)%Q in let dy := (dy / 10)%Q in
        (x0 + (n 5%nat - 48) * dx, y0 - (n 4%nat - 48) * dy, dx, dy, level / 10)%Q
      else st
    else if (65 <=? c 4%nat)%Z && (c 4%nat <? 85)%Z then
      let dx := (dx / 20)%Q in let dy := (dy / 20)%Q in
      (x0 + (n 5%nat - 65) * dx, y0 - (n 4%nat - 65) * dy, dx, dy, level / 20)%Q
    else st
  else st in
let '(x0, y0, dx, dy, level) := st in
let crs := match system_code with
           | Some s => Some (6668 + int_of_digits s)%Z
           | None => None
           end in
Some (x0, y0 - dy, x0 + dx, y0, crs, level)%Q.

(** The decimal digits of a number that is not negative, most significant
  first. *)
Fixpoint digits (fuel : nat) (n : Z) (acc : list Z) : list Z :=
match fuel with
| O => acc
| S fuel =>
    let acc := (48 + n mod 10)%Z :: acc in
    if (n <? 10)%Z then acc else digits fuel (n / 10)%Z acc
end.

(** ['{:02d}'.format(n)] *)
Definition format_02d (n : Z) : list Z :=
if (n <? 0)%Z then 45%Z :: digits (S (Z.to_nat (Z.log2 (- n)))) (- n) []
else if (n <? 10)%Z then [48%Z; (48 + n)%Z]
else digits (S (Z.to_nat (Z.log2 n))) n [].

(** [get_code]: [None] stands for the [ValueError] raised. *)
Definition get_code (x y : Q) (system_code : option Z) (level : Z)
  : option (list Z) :=
if Qle_bool 160000 (Qabs x) || Qle_bool 300000 (Qabs y) then None else
let code := match system_code with
            | Some n => if (n =? 0)%Z then [] else format_02d n
            | None => []
            end in
let x := Qtrunc x in
let y := Qtrunc (- y) in
c1 ← chr (75 + y / 30000); c2 ← chr (69 + x / 40000);
let code := code ++ [c1; c2] in
if (5000 <? level)%Z then Some code else
let x := (x mod 40000)%Z in
let y := (y mod 30000)%Z in
c1 ← chr (48 + y / 3000); c2 ← chr (48 + x / 4000);
let code := code ++ [c1; c2] in
if (2500 <? level)%Z then Some code else
let x := (x mod 4000)%Z in
let y := (y mod 3000)%Z in
if (level =? 2500)%Z then
  Some (code ++ [if (x <? 2000)%Z
                 then (if (y <? 1500)%Z then 49%Z else 51%Z)
                 else (if (y <? 1500)%Z then 50%Z else 52%Z)])
else if (level =? 1000)%Z then
  c1 ← chr (548 + y / 600); c2 ← chr (65 + x / 800);
  Some (code ++ [c1; c2])
else if (level =? 250)%Z then
  c1 ← chr (65 + y / 150); c2 ← chr (65 + x / 200);
  Some (code ++ [c1; c2])
else
  c1 ← chr (48 + y / 300); c2 ← chr (48 + x / 400);
  let code := code ++ [c1; c2] in
  if (level =? 500)%Z then Some code else
  let x := (x mod 400)%Z in
  let y := (y mod 300)%Z in
  if (level =? 50)%Z then
    c1 ← chr (48 + y / 30); c2 ← chr (48 + x / 40);
    Some (code ++ [c1; c2])
  else None.

(** ** Derived notions used in the statements *)

(** The characters [get_code] puts in front for the system code. *)
Definition system_prefix (system_code : option Z) : list Z :=
match system_code with
| Some n => if (n =? 0)%Z then [] else format_02d n
| None => []
end.

(** The code of the integer position [(x, y)], [y] already mirrored, once
  the range check has passed and with the characters that [chr] returns
  there. *)
Definition sheet_code (x y : Z) (prefix : list Z) (level : Z) : option (list Z) :=
let code := prefix ++ [75 + y / 30000; 69 + x / 40000]%Z in
if (5000 <? level)%Z then Some code else
let x := (x mod 40000)%Z in
let y := (y mod 30000)%Z in
let code := code ++ [48 + y / 3000; 48 + x / 4000]%Z in
if (2500 <? level)%Z then Some code else
let x := (x mod 4000)%Z in
let y := (y mod 3000)%Z in
if (level =? 2500)%Z then
  Some (code ++ [if (x <? 2000)%Z
                 then (if (y <? 1500)%Z then 49%Z else 51%Z)
                 else (if (y <? 1500)%Z then 50%Z else 52%Z)])
else if (level =? 1000)%Z then
  Some (code ++ [548 + y / 600; 65 + x / 800]%Z)
else if (level =? 250)%Z then
  Some (code ++ [65 + y / 150; 65 + x / 200]%Z)
else
  let code := code ++ [48 + y / 300; 48 + x / 400]%Z in
  if (level =? 500)%Z then Some code else
  let x := (x mod 400)%Z in
  let y := (y mod 300)%Z in
  if (level =? 50)%Z then Some (code ++ [48 + y / 30; 48 + x / 40]%Z)
  else None.

(** The EPSG number [get_extent] reports for a system code. *)
Definition crs_of (system_code : option Z) : option Z :=
match system_code with
| Some n => if (n =? 0)%Z then None else Some (6668 + n)%Z
| None => None
end.
End zukaku.


(** ** More sample data *)

Module Sample2.
(** The faces A and T without any point, meshed with method [nearest]. *)
Definition cloud_empty : PointCloud := {| points := []; colors := [] |}.

Definition job_empty : Build3d :=
Sample.job 2 [Sample.ring_A; Sample.ring_T] cloud_empty.

Definition mesh_empty : FS :=
default ∅ (make_objfiles Sample.isqrt o3d_voxel_down_sample job_empty
                         (Some 3%Z) "nearest" ∅).

(** The mask of face A under [nearest], over the faces A and B. *)
Definition mask_A : list bool :=
let r := build_distance_matrix Sample.cloud_AB 2 Sample.surfaces_AB in
match nearest_mask (nearest_face_of r.1) r.1 (Some 0%nat) with
| Some (MArray a) => a
| _ => []
end.

(** A job whose cloud is not loaded yet, and a cropped cloud of two points
  6 mm apart: one voxel of edge 0.0141 holds both, voxels of edge 0.01 do
  not. *)
Definition job_unloaded : Build3d :=
{| bldid := "b"; lod := 2; dirname := "out";
   building := [Sample.ring_A; Sample.ring_T]; pcd := None;
   gridsize := GRIDSIZE |}.

Definition cloud_close : PointCloud :=
{| points := [(0, 0, 0); (6 # 1000, 0, 0)]%Q;
   colors := [Sample.red; Sample.green] |}.

(** A right triangle in the plane [z = 0], counter-clockwise seen from
  above, with real coordinates. *)
Definition triangle_R : list (R * R * R) :=
[(0, 0, 0); (1, 0, 0); (0, 1, 0); (0, 0, 0)]%R.

(** An L-shaped ring in the plane [z = 0], counter-clockwise seen from
  above and listed from its reflex corner, with real coordinates. *)
Definition ring_L : list (R * R * R) :=
[(1, 1, 0); (1, 2, 0); (0, 2, 0); (0, 0, 0); (2, 0, 0); (2, 1, 0);
 (1, 1, 0)]%R.

(** A cloud with one point over square A and one far outside its bounding
  box, and the texture method [all] draws for A at three pixels a side. *)
Definition cloud_out : PointCloud :=
{| points := [(1, 1, 0); (5, 5, 0)]%Q;
   colors := [Sample.red; Sample.green] |}.

Definition job_out : Build3d := Sample.job 2 [Sample.ring_A] cloud_out.

Definition texture_out : string * FS :=
default (EmptyString, ∅)
  (create_texture_image o3d_voxel_down_sample job_out Sample.surface_A
                        (MBool true) (Some 3%Z) None false ∅).
(** Square A with the two points of [cloud_near] on it, and a square
  twenty units above it, meshed with method [nearest]. *)
Definition ring_far : list V3 :=
[(0, 0, 20); (2, 0, 20); (2, 2, 20); (0, 2, 20); (0, 0, 20)]%Q.

Definition job_far : Build3d :=
Sample.job 2 [Sample.ring_A; ring_far] Sample.cloud_near.

Definition mesh_far : FS :=
default ∅ (make_objfiles Sample.isqrt o3d_voxel_down_sample job_far
                         (Some 3%Z) "nearest" ∅).

(** A box of level of detail 1: floor A, wall W, roof B, with the two
  points of [cloud_near] on the floor, meshed with method [nearest]. *)
Definition job_caps : Build3d :=
Sample.job 1 [Sample.ring_A; Sample.ring_W; Sample.ring_B] Sample.cloud_near.

Definition mesh_caps : FS :=
default ∅ (make_objfiles Sample.isqrt o3d_voxel_down_sample job_caps
                         (Some 3%Z) "nearest" ∅).
End Sample2.

(** * Properties *)

(** ** Comparisons, minima and the arg-min *)

Lemma Qltb_lt (x y : Q) : Qltb x y = true <-> (x < y)%Q.
Proof.
  unfold Qltb. rewrite negb_true_iff.
  split; intros H.
  - apply Qnot_le_lt. intros Hle. apply Qle_bool_iff in Hle. congruence.
  - destruct (Qle_bool y x) eqn:E; [|reflexivity].
    apply Qle_bool_iff in E. apply Qle_not_lt in E. contradiction.
Qed.

Lemma Qltb_ge (x y : Q) : Qltb x y = false <-> (y <= x)%Q.
Proof.
  unfold Qltb. rewrite negb_false_iff. apply Qle_bool_iff.
Qed.

Ltac case_Qltb :=
  match goal with
  | |- context [Qltb ?a ?b] =>
      let E := fresh "E" in
      destruct (Qltb a b) eqn:E;
      [apply Qltb_lt in E | apply Qltb_ge in E]
  end.

Lemma py_min_spec (a b : Q) :
  (py_min a b <= a)%Q /\ (py_min a b <= b)%Q /\ (py_min a b = a \/ py_min a b = b).
Proof. unfold py_min. case_Qltb; repeat split; auto; Lqa.lra. Qed.

Lemma py_max_spec (a b : Q) :
  (a <= py_max a b)%Q /\ (b <= py_max a b)%Q /\ (py_max a b = a \/ py_max a b = b).
Proof. unfold py_max. case_Qltb; repeat split; auto; Lqa.lra. Qed.

Lemma foldl_py_min_spec (r : list Q) (x : Q) :
  (foldl py_min x r <= x)%Q /\
  (forall y, In y r -> (foldl py_min x r <= y)%Q) /\
  In (foldl py_min x r) (x :: r).
Proof.
  revert x. induction r as [|y r IH]; intros x; simpl.
  - split; [Lqa.lra|]. split; [intros ? []|auto].
  - destruct (IH (py_min x y)) as (H1 & H2 & H3).
    destruct (py_min_spec x y) as (Ha & Hb & Hc).
    split; [Lqa.lra|]. split.
    + intros z [->|Hz]; [Lqa.lra|auto].
    + destruct H3 as [H3|H3]; [|auto].
      rewrite <- H3. destruct Hc as [->| ->]; auto.
Qed.

Lemma foldl_py_max_spec (r : list Q) (x : Q) :
  (x <= foldl py_max x r)%Q /\
  (forall y, In y r -> (y <= foldl py_max x r)%Q) /\
  In (foldl py_max x r) (x :: r).
Proof.
  revert x. induction r as [|y r IH]; intros x; simpl.
  - split; [Lqa.lra|]. split; [intros ? []|auto].
  - destruct (IH (py_max x y)) as (H1 & H2 & H3).
    destruct (py_max_spec x y) as (Ha & Hb & Hc).
    split; [Lqa.lra|]. split.
    + intros z [->|Hz]; [Lqa.lra|auto].
    + destruct H3 as [H3|H3]; [|auto].
      rewrite <- H3. destruct Hc as [->| ->]; auto.
Qed.

Lemma min_of_le (l : list Q) (y : Q) : In y l -> (min_of l <= y)%Q.
Proof.
  destruct l as [|x r]; [intros []|]. simpl.
  destruct (foldl_py_min_spec r x) as (H1 & H2 & _).
  intros [<-|Hy]; auto.
Qed.

Lemma min_of_In (l : list Q) : l <> [] -> In (min_of l) l.
Proof.
  destruct l as [|x r]; [congruence|]. intros _.
  apply (foldl_py_min_spec r x).
Qed.

Lemma max_of_ge (l : list Q) (y : Q) : In y l -> (y <= max_of l)%Q.
Proof.
  destruct l as [|x r]; [intros []|]. simpl.
  destruct (foldl_py_max_spec r x) as (H1 & H2 & _).
  intros [<-|Hy]; auto.
Qed.

Lemma max_of_In (l : list Q) : l <> [] -> In (max_of l) l.
Proof.
  destruct l as [|x r]; [congruence|]. intros _.
  apply (foldl_py_max_spec r x).
Qed.

Lemma argmin_from_spec (l pre : list Q) (bi : nat) (best : Q) :
  (bi < length pre)%nat ->
  nth bi pre 0%Q = best ->
  (forall j, (j < length pre)%nat -> (best <= nth j pre 0)%Q) ->
  (forall j, (j < bi)%nat -> (best < nth j pre 0)%Q) ->
  first_min (pre ++ l) (argmin_from bi best (length pre) l).
Proof.
  revert pre bi best. induction l as [|x r IH]; intros pre bi best Hbi Hn Hle Hlt; simpl.
  - rewrite app_nil_r. subst best. split; [|split]; auto.
  - replace (pre ++ x :: r) with ((pre ++ [x]) ++ r) by (rewrite <- app_assoc; reflexivity).
    replace (S (length pre)) with (length (pre ++ [x]))
      by (rewrite length_app; simpl; lia).
    case_Qltb.
    + apply IH.
      * rewrite length_app; simpl; lia.
      * rewrite app_nth2 by lia. rewrite Nat.sub_diag. reflexivity.
      * intros j Hj. rewrite length_app in Hj; simpl in Hj.
        destruct (decide (j < length pre)%nat).
        -- rewrite app_nth1 by lia. specialize (Hle j l). Lqa.lra.
        -- rewrite app_nth2 by lia. replace (j - length pre)%nat with 0%nat by lia.
           simpl. Lqa.lra.
      * intros j Hj. rewrite app_nth1 by lia. specialize (Hle j Hj). Lqa.lra.
    + apply IH.
      * rewrite length_app; simpl; lia.
      * rewrite app_nth1 by lia. assumption.
      * intros j Hj. rewrite length_app in Hj; simpl in Hj.
        destruct (decide (j < length pre)%nat).
        -- rewrite app_nth1 by lia. auto.
        -- rewrite app_nth2 by lia. replace (j - length pre)%nat with 0%nat by lia.
           simpl. Lqa.lra.
      * intros j Hj. rewrite app_nth1 by lia. auto.
Qed.

Lemma argmin_spec (l : list Q) : l <> [] -> first_min l (argmin l).
Proof.
  destruct l as [|x r]; [congruence|]. intros _.
  unfold argmin.
  apply (argmin_from_spec r [x] 0 x); simpl; auto; try lia.
  - intros j Hj. replace j with 0%nat by lia. simpl. Lqa.lra.
Qed.

Lemma first_min_unique (col : list Q) (i j : nat) :
  first_min col i -> first_min col j -> i = j.
Proof.
  intros (Hi & Hi1 & Hi2) (Hj & Hj1 & Hj2).
  destruct (Nat.lt_trichotomy i j) as [H|[H|H]]; auto.
  - specialize (Hj2 i H). specialize (Hi1 j Hj). Lqa.lra.
  - specialize (Hi2 j H). specialize (Hj1 i Hi). Lqa.lra.
Qed.


(** ** The distance matrix *)

Lemma length_get_distance_matrix pc s cb :
  length (get_distance_matrix pc s cb) = length (points pc).
Proof.
  unfold get_distance_matrix, get_projected_points.
  rewrite !length_map. reflexivity.
Qed.

Lemma length_face_distances pc lod nsurf n s :
  length (face_distances pc lod nsurf n s) = length (points pc).
Proof.
  unfold face_distances.
  destruct (_ && _); rewrite ?length_map; apply length_get_distance_matrix.
Qed.

Lemma distance_rows_inv pc lod nsurf (ss : list (Surface Q)) :
  forall n acc k nk dm nkmap,
    distance_rows pc lod nsurf n ss acc k nk = (dm, nkmap) ->
    length acc = k ->
    exists rows ks,
      dm = acc ++ rows /\ nkmap = nk ++ ks /\ length ks = length ss /\
      Forall (fun r => length r = length (points pc)) rows /\
      forall i s, ss !! i = Some s ->
        if survives pc lod nsurf (n + i) s
        then exists j, ks !! i = Some (Some j) /\
                       (acc ++ rows) !! j = Some (face_distances pc lod nsurf (n + i) s)
        else ks !! i = Some None.
Proof.
  induction ss as [|s0 rest IH]; intros n acc k nk dm nkmap Hrun Hk; simpl in Hrun.
  - injection Hrun as <- <-. exists [], []. rewrite !app_nil_r.
    repeat split; auto. intros i s Hi. discriminate.
  - assert (Hskip : forall dm nkmap,
        distance_rows pc lod nsurf (S n) rest acc k (nk ++ [None]) = (dm, nkmap) ->
        survives pc lod nsurf n s0 = false ->
        exists rows ks,
          dm = acc ++ rows /\ nkmap = nk ++ ks /\ length ks = length (s0 :: rest) /\
          Forall (fun r => length r = length (points pc)) rows /\
          forall i s, (s0 :: rest) !! i = Some s ->
            if survives pc lod nsurf (n + i) s
            then exists j, ks !! i = Some (Some j) /\
                   (acc ++ rows) !! j = Some (face_distances pc lod nsurf (n + i) s)
            else ks !! i = Some None).
    { intros dm' nkmap' Hrun' Hs.
      destruct (IH _ _ _ _ _ _ Hrun' Hk) as (rows & ks & -> & -> & Hlen & Hall & Hi).
      exists rows, (None :: ks). rewrite <- app_assoc. simpl.
      repeat split; auto.
      intros [|i] s Hs'; simpl in Hs'.
      - injection Hs' as <-. rewrite Nat.add_0_r, Hs. reflexivity.
      - specialize (Hi i s Hs'). rewrite Nat.add_succ_r. exact Hi. }
    destruct (length (get_distance_matrix pc s0 true) =? 0)%nat eqn:Elen.
    { apply Hskip; auto. unfold survives. rewrite Elen. reflexivity. }
    fold (face_distances pc lod nsurf n s0) in Hrun.
    destruct (Qltb 10 (min_of (face_distances pc lod nsurf n s0))) eqn:Emin.
    { apply Hskip; auto. unfold survives. rewrite Emin, andb_false_r. reflexivity. }
    assert (Hk' : length (acc ++ [face_distances pc lod nsurf n s0]) = S k)
      by (rewrite length_app; simpl; lia).
    destruct (IH _ _ _ _ _ _ Hrun Hk') as (rows & ks & -> & -> & Hlen & Hall & Hi).
    exists (face_distances pc lod nsurf n s0 :: rows), (Some k :: ks).
    rewrite <- !app_assoc. simpl.
    repeat split; auto.
    + constructor; auto. apply length_face_distances.
    + intros [|i] s Hs'; simpl in Hs'.
      * injection Hs' as <-. rewrite Nat.add_0_r.
        unfold survives. rewrite Elen, Emin. simpl.
        exists k. split; auto.
        rewrite lookup_app_r by lia. rewrite Hk, Nat.sub_diag. reflexivity.
      * specialize (Hi i s Hs'). rewrite Nat.add_succ_r.
        rewrite <- app_assoc in Hi. exact Hi.
Qed.

Lemma build_distance_matrix_inv pc lod (ss : list (Surface Q)) dm nkmap :
  build_distance_matrix pc lod ss = (dm, nkmap) ->
  length nkmap = length ss /\
  Forall (fun r => length r = length (points pc)) dm /\
  forall n s, ss !! n = Some s ->
    if survives pc lod (length ss) n s
    then exists k, nkmap !! n = Some (Some k) /\
                   dm !! k = Some (face_distances pc lod (length ss) n s)
    else nkmap !! n = Some None.
Proof.
  intros H. apply distance_rows_inv in H; [|reflexivity].
  destruct H as (rows & ks & -> & -> & Hlen & Hall & Hi). simpl in *.
  repeat split; auto.
Qed.

Lemma abs_distance_nonneg pc s cb d :
  In d (get_distance_matrix pc s cb) -> (0 <= d)%Q.
Proof.
  unfold get_distance_matrix. rewrite in_map_iff.
  intros (p & <- & _).
  pose proof (Qabs_nonneg (vz p)).
  destruct (outbound _ _); unfold SENTINEL; Lqa.lra.
Qed.

Lemma cap_never_survives pc s nsurf n :
  (n = 0 \/ n = nsurf - 1)%nat -> survives pc 1 nsurf n s = false.
Proof.
  intros Hn. unfold survives.
  destruct (length (get_distance_matrix pc s true) =? 0)%nat eqn:Elen; [reflexivity|].
  simpl. rewrite negb_false_iff. apply Qltb_lt.
  apply Nat.eqb_neq in Elen.
  assert (Hpen : face_distances pc 1 nsurf n s
                 = map (fun d => (d + SENTINEL)%Q) (get_distance_matrix pc s true)).
  { unfold face_distances.
    replace ((n =? 0)%nat || (n =? nsurf - 1)%nat) with true; [reflexivity|].
    symmetry. apply orb_true_iff.
    destruct Hn as [->| ->]; [left|right]; apply Nat.eqb_refl. }
  rewrite Hpen.
  assert (Hne : map (fun d => (d + SENTINEL)%Q) (get_distance_matrix pc s true) <> []).
  { intros E. apply (f_equal length) in E. rewrite length_map in E. simpl in E. lia. }
  apply min_of_In in Hne. apply in_map_iff in Hne as (d & <- & Hd).
  apply abs_distance_nonneg in Hd. unfold SENTINEL. Lqa.lra.
Qed.

(** C3 (amended): a face has no row exactly when the cloud is empty or the
    minimum of its distance vector, taken after the cap penalty of [lod = 1]
    has been added, exceeds 10.0; a surviving face's row is that vector; and
    in a [lod = 1] job the first and the last face of the building never
    keep a row. *)
Theorem cap_faces_never_keep_a_row pc lod (ss : list (Surface Q)) dm nkmap n s :
  build_distance_matrix pc lod ss = (dm, nkmap) ->
  ss !! n = Some s ->
  (nkmap !! n = Some None <->
     points pc = [] \/ (10 < min_of (face_distances pc lod (length ss) n s))%Q) /\
  (forall k, nkmap !! n = Some (Some k) ->
     dm !! k = Some (face_distances pc lod (length ss) n s)) /\
  (lod = 1%Z -> (n = 0 \/ n = length ss - 1)%nat -> nkmap !! n = Some None).
Proof.
  intros Hb Hs.
  destruct (build_distance_matrix_inv _ _ _ _ _ Hb) as (Hlen & Hall & Hrows).
  specialize (Hrows n s Hs).
  split; [|split].
  - unfold survives in Hrows. rewrite length_get_distance_matrix in Hrows.
    destruct (length (points pc) =? 0)%nat eqn:El; simpl in Hrows.
    + apply Nat.eqb_eq in El. split; [|auto].
      intros _. left. destruct (points pc); [reflexivity|discriminate].
    + apply Nat.eqb_neq in El.
      destruct (Qltb 10 (min_of (face_distances pc lod (length ss) n s))) eqn:Em;
        simpl in Hrows.
      * apply Qltb_lt in Em. split; auto.
      * apply Qltb_ge in Em. destruct Hrows as (k & Hk & _). split.
        -- congruence.
        -- intros [Hp|Hlt]; [rewrite Hp in El; simpl in El; lia|].
           apply Qlt_not_le in Hlt. contradiction.
  - intros k Hk. destruct (survives pc lod (length ss) n s); [|congruence].
    destruct Hrows as (j & Hj & Hrow). congruence.
  - intros -> Hn. rewrite (cap_never_survives pc s (length ss) n Hn) in Hrows.
    exact Hrows.
Qed.


(** ** Method [nearest] *)

Lemma lookup_map {A B : Type} (f : A -> B) (l : list A) (i : nat) :
  map f l !! i = f <$> l !! i.
Proof.
  revert i. induction l as [|x l IH]; intros [|i]; simpl; auto.
Qed.

Lemma nearest_face_of_lookup (dm : list (list Q)) (n : nat) (a : list nat) :
  Forall (fun r => length r = n) dm ->
  nearest_face_of dm = NF_Array a ->
  length a = n /\
  forall p, (p < n)%nat -> a !! p = Some (argmin (column dm p)).
Proof.
  intros Hall. destruct dm as [|row0 rest]; simpl; [discriminate|].
  intros [= <-]. inversion Hall as [|? ? Hrow0 _]; subst.
  rewrite length_map, length_seq. split; [reflexivity|].
  intros p Hp. rewrite lookup_map, lookup_seq_lt by assumption. reflexivity.
Qed.

Lemma column_nonempty (dm : list (list Q)) (p : nat) : dm <> [] -> column dm p <> [].
Proof. destruct dm; [congruence|]. discriminate. Qed.

Lemma argmin_is (col : list Q) (k : nat) :
  col <> [] -> argmin col = k <-> first_min col k.
Proof.
  intros Hne. split.
  - intros <-. apply argmin_spec, Hne.
  - intros Hk. apply (first_min_unique col); auto. apply argmin_spec, Hne.
Qed.

(** C5 (amended): under [nearest], a point belongs to the mask of a
    surviving face exactly when the row of that face is the first minimum of
    the point's column and the entry of the point in that row is below
    999.0 (the constant the code compares with), the row being the distance
    vector of the face. *)
Theorem nearest_mask_spec pc lod (ss : list (Surface Q)) dm nkmap n s k :
  build_distance_matrix pc lod ss = (dm, nkmap) ->
  ss !! n = Some s ->
  nkmap !! n = Some (Some k) ->
  exists a,
    dm !! k = Some (face_distances pc lod (length ss) n s) /\
    nearest_mask (nearest_face_of dm) dm (Some k) = Some (MArray a) /\
    length a = length (points pc) /\
    forall p, (p < length (points pc))%nat ->
      (a !! p = Some true <->
       first_min (column dm p) k /\
       (nth p (face_distances pc lod (length ss) n s) 0 < 999)%Q).
Proof.
  intros Hb Hs Hk.
  destruct (build_distance_matrix_inv _ _ _ _ _ Hb) as (Hlen & Hall & Hrows).
  specialize (Hrows n s Hs).
  destruct (survives pc lod (length ss) n s); [|congruence].
  destruct Hrows as (j & Hj & Hrow).
  assert (j = k) by congruence. subst j.
  set (row := face_distances pc lod (length ss) n s) in *.
  assert (Hne : dm <> []) by (intros ->; discriminate).
  destruct (nearest_face_of dm) as [|nf] eqn:Enf.
  { destruct dm; [congruence|discriminate]. }
  destruct (nearest_face_of_lookup dm _ nf Hall Enf) as (Hnf & Hlook).
  exists (zip_with andb (map (fun f => (f =? k)%nat) nf)
                        (map (fun d => Qltb d 999) row)).
  assert (Hrl : length row = length (points pc)) by apply length_face_distances.
  split; [assumption|]. split.
  { unfold nearest_mask. rewrite Hrow. reflexivity. }
  split.
  { rewrite length_zip_with, !length_map. lia. }
  intros p Hp.
  rewrite lookup_zip_with, !lookup_map, (Hlook p Hp). simpl.
  assert (Hrp : row !! p = Some (nth p row 0%Q)).
  { destruct (nth_lookup_or_length row p 0%Q); [assumption|lia]. }
  rewrite Hrp. simpl.
  rewrite <- (argmin_is (column dm p) k (column_nonempty dm p Hne)).
  split.
  - intros [= H]. apply andb_true_iff in H as [H1 H2].
    apply Nat.eqb_eq in H1. apply Qltb_lt in H2. auto.
  - intros [H1 H2]. f_equal. apply andb_true_iff. split.
    + apply Nat.eqb_eq; assumption.
    + apply Qltb_lt; assumption.
Qed.



(** ** Method [smart] *)

Lemma select_restriction (nf : list nat) (k : nat) (pp : list V3) :
  map (@vz Q) (select (map (fun f => (f =? k)%nat) nf) pp)
  = restriction_depths nf k pp.
Proof.
  unfold restriction_depths.
  revert pp. induction nf as [|f nf IH]; intros [|q pp]; simpl; auto.
  destruct (f =? k)%nat; simpl; rewrite IH; reflexivity.
Qed.

Lemma select_all_false {A : Type} (nf : list nat) (l : list A) :
  select (map (fun _ => false) nf) l = [].
Proof.
  revert l. induction nf as [|f nf IH]; intros [|x l]; simpl; auto.
Qed.

Lemma length_get_projected_points pc s :
  length (get_projected_points pc s) = length (points pc).
Proof. unfold get_projected_points. apply length_map. Qed.

(** The window lies in [[-10, -1]] on the left and starts at 1 on the right;
    it contains every depth of the subset that is not below -10. *)
Lemma depth_window_bounds (z : list Q) :
  (-10 <= (depth_window z).1 <= -1)%Q /\ (1 <= (depth_window z).2)%Q /\
  forall d, In d z -> (d <= (depth_window z).2)%Q /\
                      ((-10 <= d)%Q -> ((depth_window z).1 <= d)%Q).
Proof.
  unfold depth_window. simpl.
  destruct (py_min_spec (-1) (py_max (-10) (min_of z))) as (H1 & H2 & H3).
  destruct (py_max_spec (-10) (min_of z)) as (H4 & H5 & H6).
  destruct (py_max_spec 1 (max_of z)) as (H7 & H8 & H9).
  split; [|split].
  - split; [|assumption].
    destruct H3 as [-> | ->]; [Lqa.lra|assumption].
  - assumption.
  - intros d Hd. pose proof (max_of_ge z d Hd). pose proof (min_of_le z d Hd).
    split; [Lqa.lra|]. intros Hd10.
    destruct H6 as [E|E]; rewrite E in *; Lqa.lra.
Qed.

(** C1 (amended): under [smart], an excluded face has the empty mask; for a
    face with row [k], the restriction subset consists of the points whose
    nearest row is [k]; when it is empty the mask is empty, and otherwise a
    point belongs to the mask exactly when its depth lies in the window
    computed from the depths of the subset, whichever face is nearest to
    that point. *)
Theorem smart_mask_spec pc lod (ss : list (Surface Q)) dm nkmap n s :
  build_distance_matrix pc lod ss = (dm, nkmap) ->
  ss !! n = Some s ->
  (nkmap !! n = Some None ->
     smart_mask (nearest_face_of dm) None (get_projected_points pc s)
     = Some (MBool false)) /\
  (forall k, nkmap !! n = Some (Some k) ->
     exists nf,
       nearest_face_of dm = NF_Array nf /\
       length nf = length (points pc) /\
       (restriction_depths nf k (get_projected_points pc s) = [] ->
          smart_mask (nearest_face_of dm) (Some k) (get_projected_points pc s)
          = Some (MBool false)) /\
       (restriction_depths nf k (get_projected_points pc s) <> [] ->
          exists a,
            smart_mask (nearest_face_of dm) (Some k) (get_projected_points pc s)
            = Some (MArray a) /\
            length a = length (points pc) /\
            forall p q, get_projected_points pc s !! p = Some q ->
              (a !! p = Some true <->
               let w := depth_window
                          (restriction_depths nf k (get_projected_points pc s)) in
               (w.1 <= vz q)%Q /\ (vz q <= w.2)%Q))).
Proof.
  intros Hb Hs.
  destruct (build_distance_matrix_inv _ _ _ _ _ Hb) as (Hlen & Hall & Hrows).
  specialize (Hrows n s Hs).
  set (pp := get_projected_points pc s).
  assert (Hpp : length pp = length (points pc)) by apply length_get_projected_points.
  split.
  - intros _. unfold smart_mask.
    destruct (nearest_face_of dm) as [|nf] eqn:Enf; simpl; [reflexivity|].
    destruct (nearest_face_of_lookup dm _ nf Hall Enf) as (Hnf & _).
    unfold index_by_mask. rewrite length_map, Hnf, Hpp, Nat.eqb_refl. simpl.
    rewrite select_all_false. reflexivity.
  - intros k Hk.
    destruct (survives pc lod (length ss) n s); [|congruence].
    destruct Hrows as (j & Hj & Hrow).
    assert (Hne : dm <> []) by (intros ->; discriminate).
    destruct (nearest_face_of dm) as [|nf] eqn:Enf.
    { destruct dm; [congruence|discriminate]. }
    destruct (nearest_face_of_lookup dm _ nf Hall Enf) as (Hnf & _).
    exists nf. split; [reflexivity|]. split; [assumption|].
    unfold smart_mask. simpl.
    unfold index_by_mask. rewrite length_map, Hnf, Hpp, Nat.eqb_refl. simpl.
    rewrite <- (select_restriction nf k pp).
    set (filtered := select (map (fun f => (f =? k)%nat) nf) pp).
    split.
    + intros E. apply (f_equal length) in E. rewrite length_map in E.
      simpl in E. rewrite E. reflexivity.
    + intros Hz.
      destruct (length filtered =? 0)%nat eqn:El.
      { apply Nat.eqb_eq in El. destruct filtered; [contradiction Hz; reflexivity|discriminate]. }
      eexists. split; [reflexivity|]. split.
      { rewrite !length_map. assumption. }
      intros p q Hq. rewrite !lookup_map, Hq. simpl. unfold depth_window. simpl.
      split.
      * intros [= H]. apply andb_true_iff in H as [H1 H2].
        apply Qle_bool_iff in H1, H2. auto.
      * intros [H1 H2]. f_equal. apply andb_true_iff.
        split; apply Qle_bool_iff; assumption.
Qed.


(** ** The three statements on the sample building *)

(** The sample surfaces are the ones [calc_basic_metrics] builds from the
    sample rings. *)
Lemma sample_surfaces_computed :
  calc_basic_metrics QOps Sample.isqrt 0 Sample.ring_A = Some Sample.surface_A /\
  calc_basic_metrics QOps Sample.isqrt 1 Sample.ring_B
  = Some (Sample.surface_of 1 Sample.ring_B) /\
  calc_basic_metrics QOps Sample.isqrt 1 Sample.ring_W
  = Some (Sample.surface_of 1 Sample.ring_W) /\
  calc_basic_metrics QOps Sample.isqrt 1 Sample.ring_T
  = Some (Sample.surface_of 1 Sample.ring_T).
Proof. vm_compute. repeat split; reflexivity. Qed.

(** C3 as stated fails: in a [lod = 1] job over the faces A, W, B, the first
    face A has a point at distance 0.1 (at most 10.0 before the penalty),
    yet it keeps no row. *)
Lemma cap_face_with_near_point_has_no_row :
  existsb (fun d => Qle_bool d 10)
          (get_distance_matrix Sample.cloud_AB Sample.surface_A true) = true /\
  Sample.surfaces_AWB !! 0%nat = Some Sample.surface_A /\
  (build_distance_matrix Sample.cloud_AB 1 Sample.surfaces_AWB).2 !! 0%nat
  = Some None.
Proof. vm_compute. repeat split; reflexivity. Qed.

Lemma cap_faces_never_keep_a_row_witness :
  let r := build_distance_matrix Sample.cloud_AB 1 Sample.surfaces_AWB in
  let d := face_distances Sample.cloud_AB 1 3 0 Sample.surface_A in
  (r.2 !! 0%nat = Some None <->
     points Sample.cloud_AB = [] \/ (10 < min_of d)%Q) /\
  (forall k, r.2 !! 0%nat = Some (Some k) -> r.1 !! k = Some d) /\
  (1%Z = 1%Z -> (0 = 0 \/ 0 = 3 - 1)%nat -> r.2 !! 0%nat = Some None).
Proof.
  intros r d.
  apply (cap_faces_never_keep_a_row Sample.cloud_AB 1 Sample.surfaces_AWB
           r.1 r.2 0 Sample.surface_A).
  - apply surjective_pairing.
  - reflexivity.
Defined.

(** C5 as stated fails: with the single face A and a point at depth 999.5
    inside its bounding box, the point's nearest row is the row of A and its
    distance value is below the sentinel 999.9, yet the mask leaves it
    out. *)
Lemma nearest_mask_drops_point_below_sentinel :
  let r := build_distance_matrix Sample.cloud_far 2 [Sample.surface_A] in
  r.2 !! 0%nat = Some (Some 0%nat) /\
  nearest_face_of r.1 = NF_Array [0; 0]%nat /\
  Qltb (nth 0 (nth 0 r.1 []) 0%Q) SENTINEL = true /\
  nearest_mask (nearest_face_of r.1) r.1 (Some 0%nat)
  = Some (MArray [false; true]).
Proof. vm_compute. repeat split; reflexivity. Qed.

Lemma nearest_mask_spec_witness :
  let ss := [Sample.surface_A] in
  let r := build_distance_matrix Sample.cloud_far 2 ss in
  let row := face_distances Sample.cloud_far 2 (length ss) 0 Sample.surface_A in
  exists a,
    r.1 !! 0%nat = Some row /\
    nearest_mask (nearest_face_of r.1) r.1 (Some 0%nat) = Some (MArray a) /\
    length a = length (points Sample.cloud_far) /\
    forall p, (p < length (points Sample.cloud_far))%nat ->
      (a !! p = Some true <->
       first_min (column r.1 p) 0 /\ (nth p row 0 < 999)%Q).
Proof.
  intros ss r row.
  apply (nearest_mask_spec Sample.cloud_far 2 ss r.1 r.2 0 Sample.surface_A 0).
  - apply surjective_pairing.
  - reflexivity.
  - vm_compute. reflexivity.
Defined.

(** C1 as stated fails: over the faces A and B the first point has A (row
    0) as its nearest face, the restriction subset of B is not empty, and
    the first point, at depth -0.9 from B, is in the mask of B. *)
Lemma smart_mask_takes_points_of_other_faces :
  let r := build_distance_matrix Sample.cloud_AB 2 Sample.surfaces_AB in
  let pp := get_projected_points Sample.cloud_AB (Sample.surface_of 1 Sample.ring_B) in
  r.2 = [Some 0; Some 1]%nat /\
  nearest_face_of r.1 = NF_Array [0; 1]%nat /\
  length (restriction_depths [0; 1]%nat 1 pp) = 1%nat /\
  smart_mask (nearest_face_of r.1) (Some 1%nat) pp = Some (MArray [true; true]).
Proof. vm_compute. repeat split; reflexivity. Qed.

Lemma smart_mask_spec_witness :
  let ss := Sample.surfaces_AB in
  let s := Sample.surface_of 1 Sample.ring_B in
  let r := build_distance_matrix Sample.cloud_AB 2 ss in
  let pp := get_projected_points Sample.cloud_AB s in
  (r.2 !! 1%nat = Some None ->
     smart_mask (nearest_face_of r.1) None pp = Some (MBool false)) /\
  (forall k, r.2 !! 1%nat = Some (Some k) ->
     exists nf,
       nearest_face_of r.1 = NF_Array nf /\
       length nf = length (points Sample.cloud_AB) /\
       (restriction_depths nf k pp = [] ->
          smart_mask (nearest_face_of r.1) (Some k) pp = Some (MBool false)) /\
       (restriction_depths nf k pp <> [] ->
          exists a,
            smart_mask (nearest_face_of r.1) (Some k) pp = Some (MArray a) /\
            length a = length (points Sample.cloud_AB) /\
            forall p q, pp !! p = Some q ->
              (a !! p = Some true <->
               let w := depth_window (restriction_depths nf k pp) in
               (w.1 <= vz q)%Q /\ (vz q <= w.2)%Q))).
Proof.
  intros ss s r pp.
  apply (smart_mask_spec Sample.cloud_AB 2 ss r.1 r.2 1 s).
  - apply surjective_pairing.
  - reflexivity.
Defined.


(** ** Paths *)

Lemma basename_no_slash (n : string) : has_slash n = false -> basename n = n.
Proof.
  destruct n as [|c r]; simpl; [reflexivity|].
  destruct (Ascii.eqb c slash); [discriminate|].
  intros ->. reflexivity.
Qed.

Lemma has_slash_app_l (a n : string) :
  ends_with_slash a = true -> has_slash (a +:+ n) = true.
Proof.
  induction a as [|c r IH]; simpl; [discriminate|].
  destruct r as [|c' r'].
  - intros ->. reflexivity.
  - intros H. destruct (Ascii.eqb c slash); [reflexivity|]. apply IH, H.
Qed.

Lemma basename_app (a n : string) :
  has_slash n = false ->
  a = EmptyString \/ ends_with_slash a = true ->
  basename (a +:+ n) = n.
Proof.
  intros Hn. induction a as [|c r IH]; intros Ha.
  - simpl. apply basename_no_slash, Hn.
  - destruct Ha as [Ha|Ha]; [discriminate|].
    destruct r as [|c' r'].
    + change (String c EmptyString +:+ n) with (String c n).
      cbn [basename ends_with_slash] in *. rewrite Hn, Ha. reflexivity.
    + change (String c (String c' r') +:+ n) with (String c (String c' r' +:+ n)).
      cbn [basename]. rewrite (has_slash_app_l (String c' r') n Ha).
      apply IH. right. exact Ha.
Qed.

Lemma ends_with_slash_snoc (a : string) : ends_with_slash (a +:+ "/") = true.
Proof.
  induction a as [|c r IH]; [reflexivity|].
  change (String c r +:+ "/") with (String c (r +:+ "/")).
  cbn [ends_with_slash].
  destruct (r +:+ "/") eqn:E; [|exact IH].
  destruct r; discriminate.
Qed.

Lemma string_app_assoc (a b c : string) : (a +:+ b) +:+ c = a +:+ (b +:+ c).
Proof.
  induction a as [|x a IH]; [reflexivity|].
  change (String x ((a +:+ b) +:+ c) = String x (a +:+ (b +:+ c))).
  f_equal. exact IH.
Qed.

Lemma path_join_ext (a x e : string) (c : Ascii.ascii) (r : string) :
  e = String c r -> Ascii.eqb c slash = false ->
  path_join a (x +:+ e) = join_pre a x +:+ e.
Proof.
  intros -> Hc. destruct x as [|y x'].
  - simpl. rewrite Hc. unfold join_dir.
    destruct (String.eqb a EmptyString || ends_with_slash a); [reflexivity|].
    rewrite string_app_assoc. reflexivity.
  - change (String y x' +:+ String c r) with (String y (x' +:+ String c r)).
    cbn [path_join join_pre]. destruct (Ascii.eqb y slash); [reflexivity|].
    unfold join_dir.
    destruct (String.eqb a EmptyString || ends_with_slash a);
      rewrite !string_app_assoc; reflexivity.
Qed.

Lemma string_app_inv_head (p a b : string) : p +:+ a = p +:+ b -> a = b.
Proof. induction p as [|c p IH]; simpl; [auto|]. intros [= H]. auto. Qed.

Lemma path_join_ext_ne (a x e1 e2 : string) (c1 c2 : Ascii.ascii) (r1 r2 : string) :
  e1 = String c1 r1 -> Ascii.eqb c1 slash = false ->
  e2 = String c2 r2 -> Ascii.eqb c2 slash = false ->
  e1 <> e2 ->
  path_join a (x +:+ e1) <> path_join a (x +:+ e2).
Proof.
  intros H1 Hc1 H2 Hc2 Hne E.
  rewrite (path_join_ext a x e1 c1 r1 H1 Hc1) in E.
  rewrite (path_join_ext a x e2 c2 r2 H2 Hc2) in E.
  apply string_app_inv_head in E. contradiction.
Qed.

Lemma join_dir_ends (a : string) : join_dir a = EmptyString \/ ends_with_slash (join_dir a) = true.
Proof.
  unfold join_dir. destruct (String.eqb a EmptyString) eqn:Ea; simpl.
  - apply String.eqb_eq in Ea. auto.
  - destruct (ends_with_slash a) eqn:Es; [auto|].
    right. apply ends_with_slash_snoc.
Qed.

(** The name returned for the placeholder is the same for every output
    directory. *)
Lemma basename_no_texture (d : string) :
  basename (path_join d "no_texture.png") = "no_texture.png".
Proof.
  pose proof (path_join_ext d EmptyString "no_texture.png" _ _ eq_refl eq_refl) as E.
  change (EmptyString +:+ "no_texture.png") with "no_texture.png" in E.
  rewrite E. cbn [join_pre].
  apply basename_app; [reflexivity|apply join_dir_ends].
Qed.


(** ** Texture creation *)

Local Arguments path_join : simpl never.
Local Arguments basename : simpl never.
Local Arguments rasterize : simpl never.
Local Arguments texture_gridsize : simpl never.
Local Arguments fmt_03d : simpl never.

Lemma np_any_false_select {A : Type} (m : list bool) (l : list A) :
  np_any m = false -> select m l = [].
Proof.
  unfold np_any. revert l. induction m as [|b m IH]; intros [|x l]; simpl; auto.
  destruct b; simpl; [discriminate|]. apply IH.
Qed.

(** The masks the three methods build can always be combined with the
    in-bounds test: a scalar, or one entry per point. *)
Lemma broadcast_and_defined (mask : Mask) (inb : list bool) :
  (forall a, mask = MArray a -> length a = length inb) ->
  is_Some (broadcast_and mask inb).
Proof.
  intros H. destruct mask as [b|a]; simpl; [eexists; reflexivity|].
  rewrite (H a eq_refl), Nat.eqb_refl. eexists; reflexivity.
Qed.

(** C7: when the mask, cut down to the bounding box, selects no point,
    texture creation does not raise: it returns the name [no_texture.png]
    whatever the face and the output directory are; the placeholder, an
    image of 4 x 4 pixels all of the neutral gray (128, 128, 128), is
    written only when that file is missing, and a further call returns the
    same name and leaves the files as they are. *)
Theorem empty_mask_returns_shared_placeholder
    (vds : PointCloud -> Q -> PointCloud) b (s : Surface Q) mask imagesize
    prefix wp (fs : FS) pc m :
  pcd b = Some pc ->
  broadcast_and mask (map (in_bounds (boundary s)) (get_projected_points pc s))
  = Some m ->
  np_any m = false ->
  let path := path_join (dirname b) "no_texture.png" in
  exists fs' : FS,
    create_texture_image vds b s mask imagesize prefix wp fs
    = Some ("no_texture.png", fs') /\
    (is_Some (fs !! path) -> fs' = fs) /\
    (fs !! path = None -> fs' = <[path := PNG (replicate 4 (replicate 4 (128, 128, 128)%Z))]> fs) /\
    create_texture_image vds b s mask imagesize prefix wp fs'
    = Some ("no_texture.png", fs').
Proof.
  intros Hpc Hm Hany path.
  assert (Hrun : forall fs0 : FS,
    create_texture_image vds b s mask imagesize prefix wp fs0
    = Some ("no_texture.png",
            match fs0 !! path with
            | Some _ => fs0
            | None => <[path := PNG (replicate 4 (replicate 4 (128, 128, 128)%Z))]> fs0
            end)).
  { intros fs0. unfold create_texture_image. rewrite Hpc. simpl.
    rewrite Hm. simpl. rewrite Hany. simpl.
    rewrite basename_no_texture. reflexivity. }
  exists (match fs !! path with
          | Some _ => fs
          | None => <[path := PNG (replicate 4 (replicate 4 (128, 128, 128)%Z))]> fs
          end).
  split; [apply Hrun|]. split; [|split].
  - intros [x Hx]. rewrite Hx. reflexivity.
  - intros ->. reflexivity.
  - rewrite Hrun. f_equal. f_equal.
    destruct (fs !! path) eqn:E.
    + rewrite E. reflexivity.
    + rewrite lookup_insert_eq. reflexivity.
Qed.

(** ** The raster *)

Lemma select_lookup {A : Type} (m : list bool) (l : list A) (i : nat) (x : A) :
  select m l !! i = Some x ->
  m !! nth_true m i = Some true /\ l !! nth_true m i = Some x.
Proof.
  revert l i. induction m as [|b m IH]; intros [|y l] i; simpl; try discriminate.
  destruct b.
  - destruct i as [|i]; simpl; [auto|]. apply IH.
  - apply IH.
Qed.

Lemma length_select_same {A B : Type} (m : list bool) (l : list A) (l' : list B) :
  length l = length l' -> length (select m l) = length (select m l').
Proof.
  revert l l'. induction m as [|b m IH]; intros [|x l] [|y l']; simpl; try discriminate; auto.
  intros [= H]. destruct b; simpl; auto.
Qed.

Lemma np_any_true_select {A : Type} (m : list bool) (l : list A) :
  np_any m = true -> length m = length l -> select m l <> [].
Proof.
  unfold np_any. revert l. induction m as [|b m IH]; intros [|x l]; simpl; try discriminate.
  intros H [= Hl]. destruct b; [discriminate|]. apply IH; auto.
Qed.

Lemma broadcast_and_in_bounds mask (inb m : list bool) (j : nat) :
  broadcast_and mask inb = Some m ->
  length m = length inb ->
  m !! j = Some true -> inb !! j = Some true.
Proof.
  assert (Hmap : forall b, map (andb b) inb !! j = Some true -> inb !! j = Some true).
  { intros b. rewrite lookup_map. destruct (inb !! j) as [x|]; simpl; [|discriminate].
    intros [= H]. apply andb_true_iff in H as [_ ->]. reflexivity. }
  destruct mask as [b|a]; simpl.
  - intros [= <-] _. apply Hmap.
  - destruct (length a =? length inb)%nat eqn:El.
    + intros [= <-] _. rewrite lookup_zip_with.
      destruct (a !! j) as [x|]; simpl; [|discriminate].
      destruct (inb !! j) as [y|]; simpl; [|discriminate].
      intros [= H]. apply andb_true_iff in H as [_ ->]. reflexivity.
    + apply Nat.eqb_neq in El.
      destruct a as [|b [|b' a']].
      * destruct inb as [|i [|i' inb']]; try discriminate.
        intros [= <-]. simpl. discriminate.
      * intros [= <-] _. apply Hmap.
      * destruct inb as [|i [|i' inb']]; try discriminate.
        intros [= <-]. simpl. discriminate.
Qed.

Lemma argmin_lt (l : list Q) : l <> [] -> (argmin l < length l)%nat.
Proof. intros H. apply (argmin_spec l H). Qed.

Lemma cell_color_cases (xy : list (Q * Q)) (cols : list V3) (g : Q) (xi : Q * Q) :
  xy <> [] -> length cols = length xy ->
  cell_color xy cols g xi = gray \/
  exists i c, cols !! i = Some c /\ cell_color xy cols g xi = color_to_rgb c.
Proof.
  intros Hne Hlen. unfold cell_color, tree_query.
  destruct (too_far _ g); [left; reflexivity|]. right.
  set (i := argmin (map (sq_dist xi) xy)).
  assert (Hi : (i < length cols)%nat).
  { rewrite Hlen, <- (length_map (sq_dist xi)). apply argmin_lt.
    destruct xy; [congruence|discriminate]. }
  exists i, (nth i cols (0, 0, 0)%Q). split; [|reflexivity].
  destruct (nth_lookup_or_length cols i (0, 0, 0)%Q); [assumption|lia].
Qed.

(** What a successful call that did not fall back to the placeholder has
    written: the raster of the masked, in-bounds points of the loaded cloud
    at the grid size [texture_gridsize], under the returned name. *)
Lemma create_texture_image_raster
    (vds : PointCloud -> Q -> PointCloud) b (s : Surface Q) mask imagesize
    prefix wp (fs fs' : FS) pc m name :
  pcd b = Some pc ->
  broadcast_and mask (map (in_bounds (boundary s)) (get_projected_points pc s))
  = Some m ->
  np_any m = true ->
  create_texture_image vds b s mask imagesize prefix wp fs = Some (name, fs') ->
  let g := texture_gridsize b s (default DEFAULT_IMAGESIZE imagesize) in
  length m = length (points pc) /\ length (colors pc) = length (points pc) /\
  exists path,
    name = basename path /\
    fs' !! path
    = Some (PNG (rasterize (boundary s) g
                           (select m (get_projected_points pc s))
                           (select m (colors pc)))).
Proof.
  intros Hpc Hm Hany Hrun g. unfold create_texture_image in Hrun.
  rewrite Hpc in Hrun. simpl in Hrun. rewrite Hm in Hrun. simpl in Hrun.
  rewrite Hany in Hrun. simpl in Hrun.
  unfold index_by_mask in Hrun.
  rewrite length_get_projected_points in Hrun.
  destruct (length m =? length (points pc))%nat eqn:E1; [|discriminate].
  simpl in Hrun.
  destruct (length m =? length (colors pc))%nat eqn:E2; [|discriminate].
  simpl in Hrun.
  apply Nat.eqb_eq in E1, E2.
  fold g in Hrun.
  destruct (Qle_bool g 0); [discriminate|].
  injection Hrun as <- <-.
  split; [assumption|]. split; [congruence|].
  eexists. split; [reflexivity|]. apply lookup_insert_eq.
Qed.


(** C10: whatever the mask passed in (the scalar [True] of method [all]
    included), every pixel of the raster a call writes is either the gray
    fill or the colour of a point that the mask selects and whose projection
    lies inside the bounding box of the face. *)
Theorem only_in_bounds_points_colour_cells
    (vds : PointCloud -> Q -> PointCloud) b (s : Surface Q) mask imagesize
    prefix wp (fs fs' : FS) pc m name :
  pcd b = Some pc ->
  broadcast_and mask (map (in_bounds (boundary s)) (get_projected_points pc s))
  = Some m ->
  np_any m = true ->
  create_texture_image vds b s mask imagesize prefix wp fs = Some (name, fs') ->
  exists path img,
    name = basename path /\ fs' !! path = Some (PNG img) /\
    forall row px, In row img -> In px row ->
      px = gray \/
      exists j q c,
        m !! j = Some true /\
        get_projected_points pc s !! j = Some q /\
        in_bounds (boundary s) q = true /\
        colors pc !! j = Some c /\
        px = color_to_rgb c.
Proof.
  intros Hpc Hm Hany Hrun.
  destruct (create_texture_image_raster _ _ _ _ _ _ _ _ _ _ _ _ Hpc Hm Hany Hrun)
    as (Hlm & Hlc & path & Hname & Hfile).
  eexists path, _. split; [exact Hname|]. split; [exact Hfile|].
  set (pp := get_projected_points pc s) in *.
  assert (Hpp : length pp = length (points pc)) by apply length_get_projected_points.
  intros row px Hrow Hpx.
  unfold rasterize in Hrow. destruct (boundary s) as [[[minx miny] maxx] maxy] eqn:Ebd.
  apply in_map_iff in Hrow as (y & <- & _).
  apply in_map_iff in Hpx as (x & <- & _).
  set (sp := select m pp) in *. set (sc := select m (colors pc)) in *.
  assert (Hne : map (fun p : V3 => (vx p, vy p)) sp <> []).
  { intros E. apply (f_equal length) in E. rewrite length_map in E.
    apply (np_any_true_select m pp Hany); [lia|].
    fold sp. destruct sp; [reflexivity|discriminate]. }
  assert (Hlen : length sc = length (map (fun p : V3 => (vx p, vy p)) sp)).
  { rewrite length_map. apply length_select_same. lia. }
  destruct (cell_color_cases _ sc
              (texture_gridsize b s (default DEFAULT_IMAGESIZE imagesize))
              (x, y) Hne Hlen) as [Hg|(i & c & Hc & Hcol)]; [left; exact Hg|].
  right. apply select_lookup in Hc as (Hmj & Hcj).
  set (j := nth_true m i) in *.
  assert (Hinb : map (in_bounds (minx, miny, maxx, maxy)) pp !! j = Some true).
  { apply (broadcast_and_in_bounds mask _ m j Hm); [rewrite length_map; lia|exact Hmj]. }
  rewrite lookup_map in Hinb.
  destruct (pp !! j) as [q|] eqn:Eq; [|discriminate].
  injection Hinb as Hinb.
  exists j, q, c. repeat split; auto.
Qed.

(** C4 (amended): when the grid size of a face exceeds twice the grid size
    of the cloud, the masked subset is voxel-downsampled, but the result is
    only what the optional point-cloud dump receives; the raster draws its
    samples from the whole masked subset, so that the returned name and the
    written files do not depend on the voxel filter when no dump is
    requested. *)
Theorem raster_samples_whole_masked_subset
    (vds : PointCloud -> Q -> PointCloud) b (s : Surface Q) mask imagesize
    prefix wp (fs fs' : FS) pc m name :
  pcd b = Some pc ->
  broadcast_and mask (map (in_bounds (boundary s)) (get_projected_points pc s))
  = Some m ->
  np_any m = true ->
  create_texture_image vds b s mask imagesize prefix wp fs = Some (name, fs') ->
  let g := texture_gridsize b s (default DEFAULT_IMAGESIZE imagesize) in
  let masked := {| points := select m (get_projected_points pc s);
                   colors := select m (colors pc) |} in
  (exists path,
     name = basename path /\
     fs' !! path = Some (PNG (rasterize (boundary s) g (points masked) (colors masked)))) /\
  (wp = true ->
   exists path,
     fs' !! path
     = Some (PLY (if Qltb (gridsize b * 2) g then vds masked g else masked))) /\
  (wp = false ->
   forall vds' : PointCloud -> Q -> PointCloud,
     create_texture_image vds' b s mask imagesize prefix wp fs = Some (name, fs')).
Proof.
  intros Hpc Hm Hany Hrun g masked.
  destruct (create_texture_image_raster _ _ _ _ _ _ _ _ _ _ _ _ Hpc Hm Hany Hrun)
    as (Hlm & Hlc & path & Hname & Hfile).
  split; [exists path; auto|].
  unfold create_texture_image in Hrun |- *.
  rewrite Hpc in Hrun |- *. simpl in Hrun |- *. rewrite Hm in Hrun |- *.
  simpl in Hrun |- *. rewrite Hany in Hrun |- *. simpl in Hrun |- *.
  unfold index_by_mask in Hrun |- *.
  rewrite length_get_projected_points in Hrun |- *.
  rewrite Hlm, Nat.eqb_refl in Hrun |- *. simpl in Hrun |- *.
  rewrite <- Hlc, Nat.eqb_refl in Hrun |- *. simpl in Hrun |- *.
  fold g in Hrun |- *. fold masked in Hrun |- *.
  destruct (Qle_bool g 0); [discriminate|].
  split.
  - intros ->. injection Hrun as <- <-.
    eexists. rewrite lookup_insert_ne; [apply lookup_insert_eq|].
    set (p := match prefix with
              | Some p => if String.eqb p EmptyString then bldid b else p
              | None => bldid b
              end).
    rewrite <- !(string_app_assoc p "_" _).
    rewrite <- !(string_app_assoc (p +:+ "_") (fmt_03d (face_number s)) _).
    apply not_eq_sym.
    eapply path_join_ext_ne; try reflexivity. discriminate.
  - intros ->. intros vds'. exact Hrun.
Qed.


(** C4 as stated fails: for square A the grid size 1 exceeds twice the grid
    size 0.01 of the cloud and the voxel filter merges the two masked points
    into one, yet the raster written is the one drawn from the two masked
    points, not the one drawn from the filtered subset (the first pixels
    differ). *)
Lemma raster_not_drawn_from_downsampled_subset :
  let g := texture_gridsize Sample.job_near Sample.surface_A 3 in
  let down := o3d_voxel_down_sample Sample.masked_near g in
  let bd := boundary Sample.surface_A in
  Qltb (gridsize Sample.job_near * 2) g = true /\
  length (points Sample.masked_near) = 2%nat /\ length (points down) = 1%nat /\
  create_texture_image o3d_voxel_down_sample Sample.job_near Sample.surface_A
                       (MBool true) (Some 3%Z) None false ∅
  = Some Sample.texture_near /\
  Sample.texture_near.2 !! "out/b_000.png"
  = Some (PNG (rasterize bd g (points Sample.masked_near) (colors Sample.masked_near))) /\
  head (concat (rasterize bd g (points Sample.masked_near) (colors Sample.masked_near)))
  = Some (64, 0, 0)%Z /\
  head (concat (rasterize bd g (points down) (colors down))) = Some (32, 32, 0)%Z.
Proof. vm_compute. repeat split; reflexivity. Qed.

Lemma raster_samples_whole_masked_subset_witness :
  let b := Sample.job_near in
  let s := Sample.surface_A in
  let m := [true; true] in
  let g := texture_gridsize b s 3 in
  let masked := {| points := select m (get_projected_points Sample.cloud_near s);
                   colors := select m (colors Sample.cloud_near) |} in
  (exists path,
     Sample.texture_near.1 = basename path /\
     Sample.texture_near.2 !! path
     = Some (PNG (rasterize (boundary s) g (points masked) (colors masked)))) /\
  (false = true ->
   exists path,
     Sample.texture_near.2 !! path
     = Some (PLY (if Qltb (gridsize b * 2) g
                  then o3d_voxel_down_sample masked g else masked))) /\
  (false = false ->
   forall vds' : PointCloud -> Q -> PointCloud,
     create_texture_image vds' b s (MBool true) (Some 3%Z) None false ∅
     = Some (Sample.texture_near.1, Sample.texture_near.2)).
Proof.
  intros b s m g masked.
  apply (raster_samples_whole_masked_subset o3d_voxel_down_sample b s (MBool true)
           (Some 3%Z) None false ∅ Sample.texture_near.2 Sample.cloud_near m
           Sample.texture_near.1).
  - reflexivity.
  - vm_compute. reflexivity.
  - reflexivity.
  - vm_compute. reflexivity.
Defined.

Lemma only_in_bounds_points_colour_cells_witness :
  let s := Sample.surface_A in
  let m := [true; false] in
  exists path img,
    Sample2.texture_out.1 = basename path /\
    Sample2.texture_out.2 !! path = Some (PNG img) /\
    forall row px, In row img -> In px row ->
      px = gray \/
      exists j q c,
        m !! j = Some true /\
        get_projected_points Sample2.cloud_out s !! j = Some q /\
        in_bounds (boundary s) q = true /\
        colors Sample2.cloud_out !! j = Some c /\
        px = color_to_rgb c.
Proof.
  intros s m.
  apply (only_in_bounds_points_colour_cells o3d_voxel_down_sample Sample2.job_out
           s (MBool true) (Some 3%Z) None false ∅ Sample2.texture_out.2
           Sample2.cloud_out m Sample2.texture_out.1).
  - reflexivity.
  - vm_compute. reflexivity.
  - reflexivity.
  - vm_compute. reflexivity.
Defined.

Lemma empty_mask_returns_shared_placeholder_witness :
  let b := Sample.job_near in
  let s := Sample.surface_A in
  let path := path_join (dirname b) "no_texture.png" in
  exists fs' : FS,
    create_texture_image o3d_voxel_down_sample b s (MBool false) None None false ∅
    = Some ("no_texture.png", fs') /\
    (is_Some ((∅ : FS) !! path) -> fs' = ∅) /\
    ((∅ : FS) !! path = None ->
     fs' = <[path := PNG (replicate 4 (replicate 4 (128, 128, 128)%Z))]> ∅) /\
    create_texture_image o3d_voxel_down_sample b s (MBool false) None None false fs'
    = Some ("no_texture.png", fs').
Proof.
  intros b s path.
  apply (empty_mask_returns_shared_placeholder o3d_voxel_down_sample b s
           (MBool false) None None false ∅ Sample.cloud_near [false; false]).
  - reflexivity.
  - vm_compute. reflexivity.
  - reflexivity.
Defined.

(** ** Grid sizes *)

Lemma py_max_Qmax (a b : Q) : (py_max a b == Qmax a b)%Q.
Proof.
  unfold py_max. case_Qltb.
  - destruct (Q.max_spec a b) as [[_ H]|[H _]]; [symmetry; exact H|Lqa.lra].
  - destruct (Q.max_spec a b) as [[H _]|[_ H]]; [Lqa.lra|symmetry; exact H].
Qed.

(** The grid size [get_pointcloud] leaves in the job is the voxel size that
    produced the cloud it caches (or the initial one when the cloud was not
    downsampled), and it is never below [GRIDSIZE]. *)
Lemma downsample_loop_resolution (vds : PointCloud -> Q -> PointCloud)
    (fuel : nat) (pcd : PointCloud) (limit : Z) :
  forall down g sg down' g',
    downsample_loop vds fuel pcd limit down g sg = Some (down', g') ->
    (GRIDSIZE <= g)%Q ->
    (down' = down /\ g' = sg) \/ (down' = vds pcd g' /\ (GRIDSIZE <= g')%Q).
Proof.
  induction fuel as [|fuel IH]; intros down g sg down' g' Hrun Hg; simpl in Hrun.
  - discriminate.
  - destruct (_ && _).
    + right. apply IH in Hrun.
      * destruct Hrun as [[-> ->]|H]; auto.
      * unfold GRIDSIZE in *. Lqa.lra.
    + injection Hrun as <- <-. auto.
Qed.

Lemma get_pointcloud_resolution (vds : PointCloud -> Q -> PointCloud)
    (fuel : nat) (b b' : Build3d) (cropped pc : PointCloud) (limit : option Z) :
  pcd b = None ->
  get_pointcloud vds fuel b cropped limit = Some (b', pc) ->
  pcd b' = Some pc /\
  ((pc = cropped /\ gridsize b' = gridsize b) \/
   (pc = vds cropped (gridsize b') /\ (GRIDSIZE <= gridsize b')%Q)).
Proof.
  intros Hnone Hrun. unfold get_pointcloud in Hrun. rewrite Hnone in Hrun.
  destruct (downsample_loop vds fuel cropped (default LIMIT_POINTS limit) cropped
              GRIDSIZE (gridsize b)) as [[down g]|] eqn:E; [|discriminate].
  simpl in Hrun. injection Hrun as <- <-. simpl. split; [reflexivity|].
  apply downsample_loop_resolution in E; [exact E|]. Lqa.lra.
Qed.

(** The voxel sizes the loop of [get_pointcloud] can leave behind are those
    of the sequence 0.01, 0.01 x 1.41421356, ...: the cloud it returns was
    produced from the cropped cloud with the size it records. *)
Lemma downsample_loop_grid (vds : PointCloud -> Q -> PointCloud)
    (fuel : nat) (pcd : PointCloud) (limit : Z) :
  forall i down sg down' g',
    downsample_loop vds fuel pcd limit down (grid_at i) sg = Some (down', g') ->
    (down' = down /\ g' = sg) \/
    (exists j, down' = vds pcd (grid_at j) /\ g' = grid_at j).
Proof.
  induction fuel as [|fuel IH]; intros i down sg down' g' Hrun; simpl in Hrun.
  - discriminate.
  - destruct (_ && _).
    + right.
      change (grid_at i * (141421356 # 100000000))%Q with (grid_at (S i)) in Hrun.
      apply IH in Hrun. destruct Hrun as [[-> ->]|H]; [exists i; auto|exact H].
    + injection Hrun as <- <-. auto.
Qed.

(** C9: in a job whose cloud [get_pointcloud] has loaded, the grid size of
    the job is the resolution of that cloud: either the cloud is the cropped
    cloud and the grid size is the one the job started with, or the cloud is
    the cropped cloud downsampled with a voxel size of the sequence
    0.01 x 1.41421356^j and the grid size is that voxel size.  For an image
    size other than 1 the grid size of a face is the largest of the two
    extents of its bounding box divided by [imagesize - 1] and of the grid
    size of the job, hence never below the resolution of the cloud. *)
Theorem texture_gridsize_spec (vds : PointCloud -> Q -> PointCloud)
    (fuel : nat) (b b' : Build3d) (cropped pc : PointCloud) (limit : option Z)
    (s : Surface Q) (imagesize : Z) :
  pcd b = None ->
  get_pointcloud vds fuel b cropped limit = Some (b', pc) ->
  imagesize <> 1%Z ->
  let '(minx, miny, maxx, maxy) := boundary s in
  (texture_gridsize b' s imagesize ==
     Qmax (Qmax ((maxx - minx) / (inject_Z imagesize - 1))
                ((maxy - miny) / (inject_Z imagesize - 1)))
          (gridsize b'))%Q /\
  (gridsize b' <= texture_gridsize b' s imagesize)%Q /\
  pcd b' = Some pc /\
  ((pc = cropped /\ gridsize b' = gridsize b) \/
   (exists j, gridsize b' = grid_at j /\ pc = vds cropped (grid_at j))).
Proof.
  intros Hnone Hrun _.
  assert (Hres : pcd b' = Some pc /\
            ((pc = cropped /\ gridsize b' = gridsize b) \/
             (exists j, gridsize b' = grid_at j /\ pc = vds cropped (grid_at j)))).
  { unfold get_pointcloud in Hrun. rewrite Hnone in Hrun.
    destruct (downsample_loop vds fuel cropped (default LIMIT_POINTS limit) cropped
                GRIDSIZE (gridsize b)) as [[down g]|] eqn:E; [|discriminate].
    simpl in Hrun. injection Hrun as <- <-. simpl. split; [reflexivity|].
    change GRIDSIZE with (grid_at 0) in E.
    apply downsample_loop_grid in E.
    destruct E as [[-> ->]|(j & -> & ->)]; [left; auto|right; exists j; auto]. }
  unfold texture_gridsize.
  destruct (boundary s) as [[[minx miny] maxx] maxy].
  split; [|split; [apply py_max_spec|exact Hres]].
  rewrite py_max_Qmax. apply Q.max_compat; [apply py_max_Qmax|reflexivity].
Qed.

Lemma texture_gridsize_spec_witness :
  let down := o3d_voxel_down_sample Sample2.cloud_close (grid_at 1) in
  let b' := with_cloud Sample2.job_unloaded down (grid_at 1) in
  let '(minx, miny, maxx, maxy) := boundary Sample.surface_A in
  (texture_gridsize b' Sample.surface_A 3 ==
     Qmax (Qmax ((maxx - minx) / (inject_Z 3 - 1))
                ((maxy - miny) / (inject_Z 3 - 1)))
          (gridsize b'))%Q /\
  (gridsize b' <= texture_gridsize b' Sample.surface_A 3)%Q /\
  pcd b' = Some down /\
  ((down = Sample2.cloud_close /\ gridsize b' = gridsize Sample2.job_unloaded) \/
   (exists j, gridsize b' = grid_at j /\
              down = o3d_voxel_down_sample Sample2.cloud_close (grid_at j))).
Proof.
  intros down b'.
  apply (texture_gridsize_spec o3d_voxel_down_sample 3 Sample2.job_unloaded b'
           Sample2.cloud_close down (Some 1%Z) Sample.surface_A 3).
  - reflexivity.
  - vm_compute. reflexivity.
  - discriminate.
Defined.


(** ** Deduplicating lists *)

Section DedupFacts.
Context {A : Type} (eqb : A -> A -> bool).
Hypothesis eqb_refl : forall x, eqb x x = true.
Hypothesis eqb_sym : forall x y, eqb x y = true -> eqb y x = true.
Hypothesis eqb_trans : forall x y z, eqb x y = true -> eqb y z = true -> eqb x z = true.

Lemma list_index_app_l (l e : list A) (v : A) (i : nat) :
  list_index eqb l v = Some i -> list_index eqb (l ++ e) v = Some i.
Proof.
  revert i. induction l as [|x l IH]; intros i; simpl; [discriminate|].
  destruct (eqb x v); [auto|].
  destruct (list_index eqb l v) as [j|]; simpl; [|discriminate].
  intros [= <-]. rewrite (IH j eq_refl). reflexivity.
Qed.

Lemma list_index_snoc (l : list A) (v : A) :
  list_index eqb l v = None -> list_index eqb (l ++ [v]) v = Some (length l).
Proof.
  induction l as [|x l IH]; simpl.
  - intros _. rewrite eqb_refl. reflexivity.
  - destruct (eqb x v); [discriminate|].
    destruct (list_index eqb l v); simpl; [discriminate|].
    intros _. rewrite IH by reflexivity. reflexivity.
Qed.

Lemma list_index_Some (l : list A) (v : A) (i : nat) :
  list_index eqb l v = Some i -> exists x, l !! i = Some x /\ eqb x v = true.
Proof.
  revert i. induction l as [|x l IH]; intros i; simpl; [discriminate|].
  destruct (eqb x v) eqn:E.
  - intros [= <-]. exists x. auto.
  - destruct (list_index eqb l v) as [j|]; simpl; [|discriminate].
    intros [= <-]. apply IH. reflexivity.
Qed.

Lemma list_index_eqb (l : list A) (v w : A) :
  eqb v w = true -> list_index eqb l v = list_index eqb l w.
Proof.
  intros Hvw. induction l as [|x l IH]; simpl; [reflexivity|].
  assert (E : eqb x v = eqb x w).
  { destruct (eqb x v) eqn:E1, (eqb x w) eqn:E2; auto.
    - rewrite (eqb_trans x v w E1 Hvw) in E2. discriminate.
    - rewrite (eqb_trans x w v E2 (eqb_sym _ _ Hvw)) in E1. discriminate. }
  rewrite E, IH. reflexivity.
Qed.

Lemma index_or_append_spec (l l' : list A) (v : A) (pos : nat) :
  index_or_append eqb l v = (pos, l') ->
  (exists e, l' = l ++ e) /\ list_index eqb l' v = Some pos.
Proof.
  unfold index_or_append.
  destruct (list_index eqb l v) as [i|] eqn:E; intros [= <- <-].
  - split; [exists []; rewrite app_nil_r; reflexivity|exact E].
  - split; [eexists; reflexivity|]. apply list_index_snoc, E.
Qed.

(** After the pass over [items], every item is found in the shared list at
    the position recorded for it. *)
Lemma index_all_spec (items : list A) :
  forall l ps0 ps l',
    index_all eqb items l ps0 = (ps, l') ->
    exists e qs,
      l' = l ++ e /\ ps = ps0 ++ qs /\ length qs = length items /\
      forall a v, items !! a = Some v ->
        exists idx, qs !! a = Some idx /\ list_index eqb l' v = Some idx.
Proof.
  induction items as [|v0 rest IH]; intros l ps0 ps l' Hrun; simpl in Hrun.
  - injection Hrun as <- <-. exists [], []. rewrite !app_nil_r.
    repeat split; auto. intros a v Ha. discriminate.
  - destruct (index_or_append eqb l v0) as [pos l1] eqn:E0.
    destruct (index_or_append_spec _ _ _ _ E0) as ((e0 & ->) & Hpos).
    destruct (IH _ _ _ _ Hrun) as (e & qs & -> & -> & Hlen & Hitems).
    exists (e0 ++ e), (pos :: qs). rewrite <- !app_assoc. simpl.
    repeat split; auto.
    intros [|a] v Ha; simpl in Ha.
    + injection Ha as <-. exists pos. split; [reflexivity|].
      rewrite app_assoc. apply list_index_app_l, Hpos.
    + destruct (Hitems a v Ha) as (idx & Hq & Hidx).
      exists idx. split; [exact Hq|]. rewrite <- app_assoc in Hidx. exact Hidx.
Qed.
End DedupFacts.

Lemma V3_eqb_refl (x : V3) : V3_eqb x x = true.
Proof.
  unfold V3_eqb. rewrite !andb_true_iff. repeat split; apply Qeq_bool_iff; reflexivity.
Qed.

Lemma V3_eqb_sym (x y : V3) : V3_eqb x y = true -> V3_eqb y x = true.
Proof.
  unfold V3_eqb. rewrite !andb_true_iff, !Qeq_bool_iff.
  intros [[H1 H2] H3]. repeat split; symmetry; assumption.
Qed.

Lemma V3_eqb_trans (x y z : V3) :
  V3_eqb x y = true -> V3_eqb y z = true -> V3_eqb x z = true.
Proof.
  unfold V3_eqb. rewrite !andb_true_iff, !Qeq_bool_iff.
  intros [[H1 H2] H3] [[H4 H5] H6].
  repeat split; etransitivity; eassumption.
Qed.

Lemma Q2_eqb_refl (x : Q * Q) : Q2_eqb x x = true.
Proof.
  unfold Q2_eqb. rewrite !andb_true_iff. repeat split; apply Qeq_bool_iff; reflexivity.
Qed.

Lemma Q2_eqb_sym (x y : Q * Q) : Q2_eqb x y = true -> Q2_eqb y x = true.
Proof.
  unfold Q2_eqb. rewrite !andb_true_iff, !Qeq_bool_iff.
  intros [H1 H2]. repeat split; symmetry; assumption.
Qed.

Lemma Q2_eqb_trans (x y z : Q * Q) :
  Q2_eqb x y = true -> Q2_eqb y z = true -> Q2_eqb x z = true.
Proof.
  unfold Q2_eqb. rewrite !andb_true_iff, !Qeq_bool_iff.
  intros [H1 H2] [H4 H5].
  repeat split; etransitivity; eassumption.
Qed.

(** ** The vertex list *)

Lemma collect_faces_spec (np_sqrt : Q -> Q) (faces : list (list V3)) :
  forall i fv av ss fv' av' ss',
    collect_faces np_sqrt i faces fv av ss = Some (fv', av', ss') ->
    exists e fvs,
      av' = av ++ e /\ fv' = fv ++ fvs /\ length fvs = length faces /\
      forall n ring, faces !! n = Some ring ->
        exists verts,
          fvs !! n = Some verts /\
          forall a v, removelast ring !! a = Some v ->
            exists idx, verts !! a = Some idx /\
                        list_index V3_eqb av' v = Some idx.
Proof.
  induction faces as [|ring0 rest IH]; intros i fv av ss fv' av' ss' Hrun;
    simpl in Hrun.
  - injection Hrun as <- <- <-. exists [], []. rewrite !app_nil_r.
    repeat split; auto. intros n ring Hn. discriminate.
  - destruct (index_all V3_eqb (removelast ring0) av []) as [verts av1] eqn:E0.
    destruct (calc_basic_metrics QOps np_sqrt i ring0) as [surface|]; [|discriminate].
    simpl in Hrun.
    destruct (index_all_spec V3_eqb V3_eqb_refl _ _ _ _ _ E0)
      as (e0 & qs & -> & Hqs & Hlen0 & Hitems0).
    simpl in Hqs. subst qs.
    destruct (IH _ _ _ _ _ _ _ Hrun) as (e & fvs & -> & -> & Hlen & Hfaces).
    exists (e0 ++ e), (verts :: fvs). rewrite <- !app_assoc. simpl.
    repeat split; auto.
    intros [|n] ring Hn; simpl in Hn.
    + injection Hn as <-. exists verts. split; [reflexivity|].
      intros a v Ha. destruct (Hitems0 a v Ha) as (idx & Hq & Hidx).
      exists idx. split; [exact Hq|].
      rewrite app_assoc. apply list_index_app_l, Hidx.
    + destruct (Hfaces n ring Hn) as (vs & Hvs & Hitems).
      exists vs. split; [exact Hvs|].
      intros a v Ha. destruct (Hitems a v Ha) as (idx & Hq & Hidx).
      exists idx. split; [exact Hq|]. rewrite <- app_assoc in Hidx. exact Hidx.
Qed.

Lemma face_triples_spec (n : nat) (vertices : list nat) :
  forall i vt_n tr,
    face_triples n i vertices vt_n = Some tr ->
    forall a v, vertices !! a = Some v ->
      exists t, tr !! a = Some (v + 1, t + 1, n + 1)%nat /\ vt_n !! (i + a)%nat = Some t.
Proof.
  induction vertices as [|v0 rest IH]; intros i vt_n tr Hrun a v Ha; simpl in Hrun.
  - discriminate.
  - destruct (vt_n !! i) as [t0|] eqn:Et; [|discriminate]. simpl in Hrun.
    destruct (face_triples n (S i) rest vt_n) as [r|] eqn:Er; [|discriminate].
    simpl in Hrun. injection Hrun as <-.
    destruct a as [|a]; simpl in Ha.
    + injection Ha as <-. exists t0. rewrite Nat.add_0_r.
      split; [reflexivity|assumption].
    + destruct (IH _ _ _ Er a v Ha) as (t & Ht & Hvt).
      exists t. split; [exact Ht|].
      replace (i + S a)%nat with (S i + a)%nat by lia. exact Hvt.
Qed.

Lemma face_lines_spec (face_vertices : list (list nat)) :
  forall n names vt_index lines,
    face_lines n face_vertices names vt_index = Some lines ->
    v_records lines = [] /\ vt_records lines = [] /\
    forall i vertices, face_vertices !! i = Some vertices ->
      exists tr vt_n,
        f_records lines !! i = Some tr /\ vt_index !! (n + i)%nat = Some vt_n /\
        forall a v, vertices !! a = Some v ->
          exists t, tr !! a = Some (v + 1, t + 1, n + i + 1)%nat /\
                    vt_n !! a = Some t.
Proof.
  induction face_vertices as [|vs rest IH]; intros n names vt_index lines Hrun;
    simpl in Hrun.
  - injection Hrun as <-. repeat split; auto. intros i v Hi. discriminate.
  - destruct (names !! n) as [name|]; [|discriminate]. simpl in Hrun.
    destruct (vt_index !! n) as [vt_n|] eqn:Evt; [|discriminate]. simpl in Hrun.
    destruct (face_triples n 0 vs vt_n) as [values|] eqn:Etr; [|discriminate].
    simpl in Hrun.
    destruct (face_lines (S n) rest names vt_index) as [r|] eqn:Er; [|discriminate].
    simpl in Hrun. injection Hrun as <-.
    destruct (IH _ _ _ _ Er) as (Hv & Hvt & Hfaces).
    repeat split; auto.
    intros [|i] vertices Hi; simpl in Hi.
    + injection Hi as <-. exists values, vt_n. rewrite Nat.add_0_r.
      split; [reflexivity|]. split; [assumption|].
      intros a v Ha. destruct (face_triples_spec _ _ _ _ _ Etr a v Ha) as (t & Ht & Hvt').
      exists t. split; [exact Ht|exact Hvt'].
    + destruct (Hfaces i vertices Hi) as (tr & vt_n' & Htr & Hvt' & Hitems).
      exists tr, vt_n'.
      replace (n + S i)%nat with (S n + i)%nat by lia.
      split; [exact Htr|]. split; [exact Hvt'|exact Hitems].
Qed.


(** ** The mesh file *)

Lemma collect_texcoords_spec (ss : list (Surface Q)) :
  forall vl vi vl' vi',
    collect_texcoords ss vl vi = (vl', vi') ->
    exists e vis,
      vl' = vl ++ e /\ vi' = vi ++ vis /\ length vis = length ss /\
      forall n s, ss !! n = Some s ->
        exists idxs,
          vis !! n = Some idxs /\
          forall a t, texcoords_of s !! a = Some t ->
            exists idx, idxs !! a = Some idx /\
                        list_index Q2_eqb vl' t = Some idx.
Proof.
  induction ss as [|s0 rest IH]; intros vl vi vl' vi' Hrun; simpl in Hrun.
  - injection Hrun as <- <-. exists [], []. rewrite !app_nil_r.
    repeat split; auto. intros n s Hn. discriminate.
  - fold (texcoords_of s0) in Hrun.
    destruct (index_all Q2_eqb (texcoords_of s0) vl []) as [idxs vl1] eqn:E0.
    destruct (index_all_spec Q2_eqb Q2_eqb_refl _ _ _ _ _ E0)
      as (e0 & qs & -> & Hqs & Hlen0 & Hitems0).
    simpl in Hqs. subst qs.
    destruct (IH _ _ _ _ Hrun) as (e & vis & -> & -> & Hlen & Hss).
    exists (e0 ++ e), (idxs :: vis). rewrite <- !app_assoc. simpl.
    repeat split; auto.
    intros [|n] s Hn; simpl in Hn.
    + injection Hn as <-. exists idxs. split; [reflexivity|].
      intros a t Ha. destruct (Hitems0 a t Ha) as (idx & Hq & Hidx).
      exists idx. split; [exact Hq|].
      rewrite app_assoc. apply list_index_app_l, Hidx.
    + destruct (Hss n s Hn) as (is' & His & Hitems).
      exists is'. split; [exact His|].
      intros a t Ha. destruct (Hitems a t Ha) as (idx & Hq & Hidx).
      exists idx. split; [exact Hq|]. rewrite <- app_assoc in Hidx. exact Hidx.
Qed.

Lemma records_map_v (l : list V3) :
  v_records (map L_v l) = l /\ vt_records (map L_v l) = [] /\ f_records (map L_v l) = [].
Proof. induction l as [|x l (H1 & H2 & H3)]; simpl; [auto|]. rewrite H1. auto. Qed.

Lemma records_map_vn {A : Type} (g : A -> V3) (l : list A) :
  v_records (map (fun s => L_vn (g s)) l) = [] /\
  vt_records (map (fun s => L_vn (g s)) l) = [] /\
  f_records (map (fun s => L_vn (g s)) l) = [].
Proof. induction l as [|x l (H1 & H2 & H3)]; simpl; auto. Qed.

Lemma records_map_vt (l : list (Q * Q)) :
  v_records (map L_vt l) = [] /\ vt_records (map L_vt l) = l /\ f_records (map L_vt l) = [].
Proof. induction l as [|x l (H1 & H2 & H3)]; simpl; [auto|]. rewrite H2. auto. Qed.

(** What the records of the mesh file are made of. *)
Lemma obj_lines_records prefix b all_vertices (ss : list (Surface Q))
    face_vertices names lines :
  obj_lines prefix b all_vertices ss face_vertices names = Some lines ->
  exists fl,
    face_lines 0 face_vertices names (collect_texcoords ss [] []).2 = Some fl /\
    v_records lines = all_vertices /\
    vt_records lines = (collect_texcoords ss [] []).1 /\
    f_records lines = f_records fl.
Proof.
  unfold obj_lines. destruct (collect_texcoords ss [] []) as [vt_list vt_index].
  destruct (face_lines 0 face_vertices names vt_index) as [fl|] eqn:Efl; [|discriminate].
  simpl. intros [= <-]. exists fl. split; [exact Efl|].
  destruct (face_lines_spec _ _ _ _ _ Efl) as (Hv & Hvt & _).
  destruct (records_map_v all_vertices) as (A1 & A2 & A3).
  destruct (records_map_vn (fun s => col2 (projection_matrix s)) ss) as (B1 & B2 & B3).
  destruct (records_map_vt vt_list) as (C1 & C2 & C3).
  unfold v_records, vt_records, f_records in *.
  cbn [omap list_omap]. rewrite !omap_app. rewrite A1, A2, A3, B1, B2, B3, C1, C2, C3, Hv, Hvt.
  simpl. rewrite !app_nil_r. auto.
Qed.

(** C2 (amended): texture coordinates are deduplicated in one list for the
    whole building.  Whenever two vertices, of the same face or of two
    different faces, have equal texture coordinates, their face records
    carry the same 1-based index into the single list of [vt] records, and
    the record at that index holds this coordinate. *)
Theorem texcoords_share_one_list prefix b all_vertices (ss : list (Surface Q))
    face_vertices names lines i j si sj vi vj a c va vc t u :
  obj_lines prefix b all_vertices ss face_vertices names = Some lines ->
  ss !! i = Some si -> ss !! j = Some sj ->
  face_vertices !! i = Some vi -> face_vertices !! j = Some vj ->
  vi !! a = Some va -> vj !! c = Some vc ->
  texcoords_of si !! a = Some t -> texcoords_of sj !! c = Some u ->
  Q2_eqb t u = true ->
  exists idx fi fj x,
    f_records lines !! i = Some fi /\ f_records lines !! j = Some fj /\
    fi !! a = Some (va + 1, idx + 1, i + 1)%nat /\
    fj !! c = Some (vc + 1, idx + 1, j + 1)%nat /\
    vt_records lines !! idx = Some x /\ Q2_eqb x t = true.
Proof.
  intros Hobj Hsi Hsj Hvi Hvj Hva Hvc Ht Hu Htu.
  destruct (obj_lines_records _ _ _ _ _ _ _ Hobj) as (fl & Hfl & _ & Hvt & Hf).
  destruct (collect_texcoords ss [] []) as [vt_list vt_index] eqn:Ect.
  simpl in Hfl, Hvt.
  destruct (collect_texcoords_spec _ _ _ _ _ Ect) as (e & vis & -> & -> & _ & Hss).
  simpl in *.
  destruct (face_lines_spec _ _ _ _ _ Hfl) as (_ & _ & Hfaces).
  destruct (Hfaces i vi Hvi) as (fi & vti & Hfi & Hvti & Hti).
  destruct (Hfaces j vj Hvj) as (fj & vtj & Hfj & Hvtj & Htj).
  simpl in Hvti, Hvtj.
  destruct (Hss i si Hsi) as (idxi & Hidxi & Hii).
  destruct (Hss j sj Hsj) as (idxj & Hidxj & Hjj).
  assert (vti = idxi) by congruence. assert (vtj = idxj) by congruence.
  subst vti vtj.
  destruct (Hti a va Hva) as (ta & Hfa & Hta).
  destruct (Htj c vc Hvc) as (tc & Hfc & Htc).
  destruct (Hii a t Ht) as (ia & Hia & Hla).
  destruct (Hjj c u Hu) as (ic & Hic & Hlc).
  assert (ta = ia) by congruence. assert (tc = ic) by congruence.
  subst ta tc.
  rewrite (list_index_eqb Q2_eqb Q2_eqb_sym Q2_eqb_trans _ t u Htu) in Hla.
  assert (ia = ic) by congruence. subst ic.
  rewrite <- (list_index_eqb Q2_eqb Q2_eqb_sym Q2_eqb_trans _ t u Htu) in Hlc.
  destruct (list_index_Some Q2_eqb _ _ _ Hlc) as (x & Hx & Hxt).
  exists ia, fi, fj, x. rewrite Hf, Hvt. simpl in *. repeat split; auto.
Qed.

Lemma make_objfiles_obj_file (np_sqrt : Q -> Q) (vds : PointCloud -> Q -> PointCloud)
    b imagesize method (fs fs' : FS) pc :
  pcd b = Some pc ->
  make_objfiles np_sqrt vds b imagesize method fs = Some fs' ->
  let prefix := make_prefix b pc imagesize method in
  exists fv av ss names fs1 lines,
    collect_faces np_sqrt 0 (building b) [] [] [] = Some (fv, av, ss) /\
    texture_images_of vds b pc imagesize prefix method ss fs = Some (names, fs1) /\
    obj_lines prefix b av ss fv names = Some lines /\
    fs' !! path_join (dirname b) (prefix +:+ ".obj") = Some (OBJ lines).
Proof.
  intros Hpc Hrun prefix. unfold make_objfiles in Hrun. rewrite Hpc in Hrun.
  cbn [mbind option_bind] in Hrun. fold prefix in Hrun.
  destruct (collect_faces np_sqrt 0 (building b) [] [] []) as [[[fv av] ss]|] eqn:E1;
    [|discriminate].
  cbn [mbind option_bind] in Hrun.
  destruct (texture_images_of vds b pc imagesize prefix method ss fs)
    as [[names fs1]|] eqn:E2; [|discriminate].
  cbn [mbind option_bind] in Hrun.
  destruct (obj_lines prefix b av ss fv names) as [lines|] eqn:E3; [|discriminate].
  cbn [mbind option_bind] in Hrun.
  destruct (mtl_lines (length (building b)) 0 names) as [mtl|]; [|discriminate].
  cbn [mbind option_bind] in Hrun. injection Hrun as <-.
  exists fv, av, ss, names, fs1, lines.
  split; [reflexivity|]. split; [exact E2|]. split; [exact E3|].
  rewrite lookup_insert_ne; [apply lookup_insert_eq|].
  apply not_eq_sym.
  eapply path_join_ext_ne; try reflexivity. discriminate.
Qed.

(** C8: in the mesh file [make_objfiles] writes, two vertices with equal
    coordinates, in whichever faces they occur, are referenced by the same
    1-based index, and the [v] record at that index holds these
    coordinates. *)
Theorem equal_vertices_share_index (np_sqrt : Q -> Q)
    (vds : PointCloud -> Q -> PointCloud) b imagesize method (fs fs' : FS) pc
    i j ri rj a c v w :
  pcd b = Some pc ->
  make_objfiles np_sqrt vds b imagesize method fs = Some fs' ->
  building b !! i = Some ri -> building b !! j = Some rj ->
  removelast ri !! a = Some v -> removelast rj !! c = Some w ->
  V3_eqb v w = true ->
  exists lines idx fi fj ti tj x,
    fs' !! path_join (dirname b) (make_prefix b pc imagesize method +:+ ".obj")
    = Some (OBJ lines) /\
    f_records lines !! i = Some fi /\ f_records lines !! j = Some fj /\
    fi !! a = Some (idx + 1, ti, i + 1)%nat /\
    fj !! c = Some (idx + 1, tj, j + 1)%nat /\
    v_records lines !! idx = Some x /\ V3_eqb x v = true.
Proof.
  intros Hpc Hrun Hri Hrj Hv Hw Hvw.
  destruct (make_objfiles_obj_file _ _ _ _ _ _ _ _ Hpc Hrun)
    as (fv & av & ss & names & fs1 & lines & Hcf & _ & Hobj & Hfile).
  destruct (obj_lines_records _ _ _ _ _ _ _ Hobj) as (fl & Hfl & Hvr & _ & Hf).
  destruct (collect_faces_spec _ _ _ _ _ _ _ _ _ Hcf) as (e & fvs & -> & -> & _ & Hfaces).
  simpl in *.
  destruct (Hfaces i ri Hri) as (vi & Hvi & Hii).
  destruct (Hfaces j rj Hrj) as (vj & Hvj & Hjj).
  destruct (Hii a v Hv) as (ia & Hia & Hla).
  destruct (Hjj c w Hw) as (ic & Hic & Hlc).
  rewrite (list_index_eqb V3_eqb V3_eqb_sym V3_eqb_trans _ v w Hvw) in Hla.
  assert (ia = ic) by congruence. subst ic.
  rewrite <- (list_index_eqb V3_eqb V3_eqb_sym V3_eqb_trans _ v w Hvw) in Hlc.
  destruct (list_index_Some V3_eqb _ _ _ Hlc) as (x & Hx & Hxv).
  destruct (face_lines_spec _ _ _ _ _ Hfl) as (_ & _ & Hrec).
  destruct (Hrec i vi Hvi) as (fi & vti & Hfi & _ & Hti).
  destruct (Hrec j vj Hvj) as (fj & vtj & Hfj & _ & Htj).
  destruct (Hti a ia Hia) as (ta & Hfa & _).
  destruct (Htj c ia Hic) as (tc & Hfc & _).
  exists lines, ia, fi, fj, (ta + 1)%nat, (tc + 1)%nat, x.
  rewrite Hf, Hvr. simpl in *. repeat split; auto.
Qed.


Lemma sample_mesh_computed :
  make_objfiles Sample.isqrt o3d_voxel_down_sample Sample.job_AT (Some 3%Z) "smart" ∅
  = Some Sample.mesh_AT /\
  obj_lines "p" Sample.job_AT (removelast Sample.ring_A ++ [(0, 0, 1)%Q])
            Sample.surfaces_AT [[0; 1; 2; 3]; [0; 1; 4]]%nat ["a"; "b"]
  = Some Sample.lines_AT.
Proof. vm_compute. split; reflexivity. Qed.

(** C2 as stated fails: in the mesh of the square A and the triangle T there
    are four [vt] records for seven vertices; the first vertex of T reuses
    the entry the square created (index 1), and the third vertex of T gets
    index 4, the entry of the square's fourth vertex, where a list kept for
    T alone would give it the position 2 (1-based 3). *)
Lemma texcoord_list_is_building_wide :
  exists lines,
    Sample.mesh_AT !! "out/b_lod2_smart_3_2.obj" = Some (OBJ lines) /\
    length (vt_records lines) = 4%nat /\
    f_records lines
    = [[(1, 1, 1); (2, 2, 1); (3, 3, 1); (4, 4, 1)];
       [(1, 1, 2); (2, 2, 2); (5, 4, 2)]]%nat /\
    (index_all Q2_eqb (texcoords_of (Sample.surface_of 1 Sample.ring_T)) [] []).1
    = [0; 1; 2]%nat.
Proof. eexists. vm_compute. repeat split; reflexivity. Qed.

Lemma texcoords_share_one_list_witness :
  exists idx fi fj x,
    f_records Sample.lines_AT !! 0%nat = Some fi /\
    f_records Sample.lines_AT !! 1%nat = Some fj /\
    fi !! 0%nat = Some (0 + 1, idx + 1, 0 + 1)%nat /\
    fj !! 0%nat = Some (0 + 1, idx + 1, 1 + 1)%nat /\
    vt_records Sample.lines_AT !! idx = Some x /\
    Q2_eqb x (0 # 1000, 1000 # 1000)%Q = true.
Proof.
  apply (texcoords_share_one_list "p" Sample.job_AT
           (removelast Sample.ring_A ++ [(0, 0, 1)%Q]) Sample.surfaces_AT
           [[0; 1; 2; 3]; [0; 1; 4]]%nat ["a"; "b"] Sample.lines_AT
           0 1 (Sample.surface_of 0 Sample.ring_A) (Sample.surface_of 1 Sample.ring_T)
           [0; 1; 2; 3]%nat [0; 1; 4]%nat 0 0 0 0
           (0 # 1000, 1000 # 1000)%Q (0 # 1000, 1000 # 1000)%Q);
    vm_compute; reflexivity.
Defined.

Lemma equal_vertices_share_index_witness :
  exists lines idx fi fj ti tj x,
    Sample.mesh_AT
      !! path_join (dirname Sample.job_AT)
           (make_prefix Sample.job_AT Sample.cloud_near (Some 3%Z) "smart" +:+ ".obj")
    = Some (OBJ lines) /\
    f_records lines !! 0%nat = Some fi /\ f_records lines !! 1%nat = Some fj /\
    fi !! 0%nat = Some (idx + 1, ti, 0 + 1)%nat /\
    fj !! 0%nat = Some (idx + 1, tj, 1 + 1)%nat /\
    v_records lines !! idx = Some x /\ V3_eqb x (0, 0, 0)%Q = true.
Proof.
  apply (equal_vertices_share_index Sample.isqrt o3d_voxel_down_sample
           Sample.job_AT (Some 3%Z) "smart" ∅ Sample.mesh_AT Sample.cloud_near
           0 1 Sample.ring_A Sample.ring_T 0 0 (0, 0, 0)%Q (0, 0, 0)%Q);
    vm_compute; reflexivity.
Defined.


(** ** The projection frame, over the reals *)

Section Frame.
Local Open Scope R_scope.

Local Abbreviation RV := (R * R * R)%type.
Local Abbreviation rdot := (dot ROps).
Local Abbreviation rcross := (cross ROps).
Local Abbreviation rnorm := (norm ROps sqrt).
Local Abbreviation rdiv := (vdiv ROps).
Local Abbreviation rsub := (vsub ROps).

Ltac unvec :=
  unfold norm, dot, cross, vdiv, vsub, vx, vy, vz, rzero in *;
  cbn [f_add f_sub f_mul f_div f_zero f_one ROps fst snd] in *.

Lemma rdot_nonneg (a : RV) : 0 <= rdot a a.
Proof. destruct a as [[x y] z]. unvec. nra. Qed.

Lemma rdot_pos (a : RV) : a <> rzero -> 0 < rdot a a.
Proof.
  destruct a as [[x y] z]. intros Hne.
  destruct (Rle_lt_dec (rdot (x, y, z) (x, y, z)) 0) as [Hle|Hlt]; [|exact Hlt].
  exfalso. apply Hne. unvec.
  assert (x = 0) by nra. assert (y = 0) by nra. assert (z = 0) by nra.
  subst. reflexivity.
Qed.

Lemma rnorm_sq (a : RV) : rnorm a * rnorm a = rdot a a.
Proof. unfold norm. apply sqrt_sqrt, rdot_nonneg. Qed.

Lemma rnorm_pos (a : RV) : a <> rzero -> 0 < rnorm a.
Proof. intros H. unfold norm. apply sqrt_lt_R0, rdot_pos, H. Qed.

Lemma rdot_rdiv (a b : RV) (s t : R) :
  s <> 0 -> t <> 0 -> rdot (rdiv a s) (rdiv b t) = rdot a b / (s * t).
Proof.
  intros Hs Ht. destruct a as [[a1 a2] a3], b as [[b1 b2] b3]. unvec. field. auto.
Qed.

Lemma rcross_rdiv (a b : RV) (s t : R) :
  s <> 0 -> t <> 0 -> rcross (rdiv a s) (rdiv b t) = rdiv (rcross a b) (s * t).
Proof.
  intros Hs Ht. destruct a as [[a1 a2] a3], b as [[b1 b2] b3]. unvec.
  f_equal; [f_equal|]; field; auto.
Qed.

Lemma rdot_cross_l (a b : RV) : rdot a (rcross a b) = 0.
Proof. destruct a as [[a1 a2] a3], b as [[b1 b2] b3]. unvec. ring. Qed.

Lemma rdot_cross_r (a b : RV) : rdot a (rcross b a) = 0.
Proof. destruct a as [[a1 a2] a3], b as [[b1 b2] b3]. unvec. ring. Qed.

Lemma rdot_comm (a b : RV) : rdot a b = rdot b a.
Proof. destruct a as [[a1 a2] a3], b as [[b1 b2] b3]. unvec. ring. Qed.

(** Lagrange's identity for a vector orthogonal to the other. *)
Lemma rdot_cross_orth (n a : RV) :
  rdot n a = 0 -> rdot (rcross n a) (rcross n a) = rdot n n * rdot a a.
Proof.
  destruct a as [[a1 a2] a3], n as [[n1 n2] n3]. unvec. intros H.
  replace ((n2 * a3 - n3 * a2) * (n2 * a3 - n3 * a2) +
           (n3 * a1 - n1 * a3) * (n3 * a1 - n1 * a3) +
           (n1 * a2 - n2 * a1) * (n1 * a2 - n2 * a1))
    with ((n1 * n1 + n2 * n2 + n3 * n3) * (a1 * a1 + a2 * a2 + a3 * a3)
          - (n1 * a1 + n2 * a2 + n3 * a3) * (n1 * a1 + n2 * a2 + n3 * a3)) by ring.
  rewrite H. ring.
Qed.

(** [a x (n x a) = (a . a) n] when [n] is orthogonal to [a]. *)
Lemma rcross_triple (n a : RV) :
  rdot n a = 0 ->
  rcross a (rcross n a) = (rdot a a * vx n, rdot a a * vy n, rdot a a * vz n).
Proof.
  destruct a as [[a1 a2] a3], n as [[n1 n2] n3]. unvec. intros H.
  f_equal; [f_equal|].
  - transitivity ((a1 * a1 + a2 * a2 + a3 * a3) * n1
                  - a1 * (n1 * a1 + n2 * a2 + n3 * a3)); [ring|rewrite H; ring].
  - transitivity ((a1 * a1 + a2 * a2 + a3 * a3) * n2
                  - a2 * (n1 * a1 + n2 * a2 + n3 * a3)); [ring|rewrite H; ring].
  - transitivity ((a1 * a1 + a2 * a2 + a3 * a3) * n3
                  - a3 * (n1 * a1 + n2 * a2 + n3 * a3)); [ring|rewrite H; ring].
Qed.

Lemma rsub_translate (v o : RV) : rsub (rsub v o) (rsub o o) = rsub v o.
Proof. destruct v as [[v1 v2] v3], o as [[o1 o2] o3]. unvec. f_equal; [f_equal|]; ring. Qed.

Lemma frame_of_edges (a b : RV) :
  rcross a b <> rzero ->
  let n := rcross a b in
  let m := rcross n a in
  let u0 := rdiv a (rnorm a) in
  let u1 := rdiv m (rnorm m) in
  let u2 := rdiv n (rnorm n) in
  rdot u0 u0 = 1 /\ rdot u1 u1 = 1 /\ rdot u2 u2 = 1 /\
  rdot u0 u1 = 0 /\ rdot u0 u2 = 0 /\ rdot u1 u2 = 0 /\
  rcross u0 u1 = u2 /\ 0 < rdot (rcross a b) u2.
Proof.
  intros Hn n m u0 u1 u2.
  assert (Ha : a <> rzero).
  { intros ->. apply Hn. destruct b as [[b1 b2] b3]. unvec.
    f_equal; [f_equal|]; ring. }
  assert (Hna : rdot n a = 0) by (rewrite rdot_comm; apply rdot_cross_l).
  assert (Hmm : rdot m m = rdot n n * rdot a a) by (apply rdot_cross_orth, Hna).
  pose proof (rdot_pos a Ha) as Hda. pose proof (rdot_pos n Hn) as Hdn.
  assert (Hm : m <> rzero).
  { intros E. fold m in Hmm. rewrite E in Hmm.
    assert (rdot rzero rzero = 0) by (unvec; ring). nra. }
  pose proof (rnorm_pos a Ha) as Hla. pose proof (rnorm_pos n Hn) as Hln.
  pose proof (rnorm_pos m Hm) as Hlm.
  pose proof (rnorm_sq a) as Hsa. pose proof (rnorm_sq n) as Hsn.
  pose proof (rnorm_sq m) as Hsm.
  assert (Hlmn : rnorm m = rnorm n * rnorm a).
  { apply Rsqr_inj; [lra|nra|]. unfold Rsqr. rewrite Hsm, Hmm. nra. }
  unfold u0, u1, u2.
  rewrite !rdot_rdiv by lra.
  rewrite rcross_rdiv by lra.
  rewrite Hsa, Hsn, Hsm.
  fold n. fold m.
  replace (rdot a m) with 0 by (symmetry; apply rdot_cross_r).
  replace (rdot a n) with 0 by (symmetry; apply rdot_cross_l).
  replace (rdot m n) with 0
    by (symmetry; rewrite rdot_comm; apply rdot_cross_l).
  repeat split; try (field; lra).
  - field. rewrite Hmm. nra.
  - rewrite Hlmn. unfold m. rewrite (rcross_triple n a Hna).
    destruct n as [[n1 n2] n3]. 
    unfold vdiv, vx, vy, vz. cbn [f_div ROps fst snd].
    f_equal; [f_equal|]; rewrite <- Hsa; field; lra.
  - destruct n as [[n1 n2] n3] eqn:En.
    unfold dot, vdiv, vx, vy, vz in *. cbn [f_add f_mul f_div ROps fst snd] in *.
    replace (n1 * (n1 / rnorm (n1, n2, n3)) + n2 * (n2 / rnorm (n1, n2, n3)) +
             n3 * (n3 / rnorm (n1, n2, n3)))
      with ((n1 * n1 + n2 * n2 + n3 * n3) / rnorm (n1, n2, n3)) by (field; lra).
    apply Rdiv_lt_0_compat; lra.
Qed.

Lemma removelast_two {A : Type} (l : list A) (x y : A) :
  removelast (l ++ [x; y]) = l ++ [x].
Proof.
  induction l as [|z l IH]; [reflexivity|].
  change ((z :: l) ++ [x; y]) with (z :: (l ++ [x; y])).
  cbn [removelast]. destruct (l ++ [x; y]) eqn:E.
  - destruct l; discriminate.
  - rewrite IH. reflexivity.
Qed.

Lemma last_map_snoc {A B : Type} (f : A -> B) (l : list A) (x : A) (d : B) :
  List.last (map f (l ++ [x])) d = f x.
Proof. rewrite map_app. simpl. apply last_last. Qed.

Lemma is_zero_pos (x : R) : 0 < x -> is_zero ROps x = false.
Proof.
  intros H. unfold is_zero. cbn [f_ltb f_zero ROps]. unfold Rltb.
  destruct (Rlt_dec x 0); [lra|]. destruct (Rlt_dec 0 x); [reflexivity|lra].
Qed.

Lemma edge_norms_pos (a b : RV) :
  rcross a b <> rzero ->
  0 < rnorm a /\ 0 < rnorm (rcross (rcross a b) a) /\ 0 < rnorm (rcross a b).
Proof.
  intros Hn.
  assert (Ha : a <> rzero).
  { intros ->. apply Hn. destruct b as [[b1 b2] b3]. unvec.
    f_equal; [f_equal|]; ring. }
  assert (Hna : rdot (rcross a b) a = 0) by (rewrite rdot_comm; apply rdot_cross_l).
  pose proof (rdot_cross_orth _ _ Hna) as Hmm.
  pose proof (rdot_pos a Ha) as Hda. pose proof (rdot_pos _ Hn) as Hdn.
  assert (Hm : rcross (rcross a b) a <> rzero).
  { intros E. rewrite E in Hmm.
    assert (rdot rzero rzero = 0) by (unvec; ring). nra. }
  split; [|split]; apply rnorm_pos; assumption.
Qed.

(** The frame [calc_basic_metrics] builds from a ring whose first and
    closing edge are not parallel. *)
Lemma calc_basic_metrics_columns (n : nat) (v0 v1 vl closing : RV)
    (mid : list RV) :
  let ring := v0 :: v1 :: mid ++ [vl; closing] in
  let e1 := rsub v1 v0 in
  let e2 := rsub vl v0 in
  rcross e1 e2 <> rzero ->
  exists s,
    calc_basic_metrics ROps sqrt n ring = Some s /\
    col0 (projection_matrix s) = rdiv e1 (rnorm e1) /\
    col1 (projection_matrix s)
    = rdiv (rcross (rcross e1 e2) e1) (rnorm (rcross (rcross e1 e2) e1)) /\
    col2 (projection_matrix s) = rdiv (rcross e1 e2) (rnorm (rcross e1 e2)).
Proof.
  intros ring e1 e2 Hn.
  unfold calc_basic_metrics, ring.
  change (v0 :: v1 :: mid ++ [vl; closing]) with ((v0 :: v1 :: mid) ++ [vl; closing]).
  rewrite removelast_two.
  change ((v0 :: v1 :: mid) ++ [vl]) with (v0 :: v1 :: (mid ++ [vl])).
  destruct (mid ++ [vl]) as [|x rest] eqn:Emid; [destruct mid; discriminate|].
  rewrite <- Emid.
  change (v0 :: v1 :: mid ++ [vl]) with ((v0 :: v1 :: mid) ++ [vl]).
  rewrite last_map_snoc.
  change ((v0 :: v1 :: mid) ++ [vl]) with (v0 :: v1 :: (mid ++ [vl])).
  cbn [map nth].
  rewrite !rsub_translate. fold e1 e2.
  destruct (edge_norms_pos e1 e2 Hn) as (P0 & P1 & P2).
  rewrite (is_zero_pos _ P0), (is_zero_pos _ P1), (is_zero_pos _ P2).
  cbn [orb].
  eexists. split; [reflexivity|].
  cbn [projection_matrix col0 col1 col2 m00 m01 m02 m10 m11 m12 m20 m21 m22].
  set (u0 := rdiv e1 (rnorm e1)).
  set (u1 := rdiv (rcross (rcross e1 e2) e1) (rnorm (rcross (rcross e1 e2) e1))).
  set (u2 := rdiv (rcross e1 e2) (rnorm (rcross e1 e2))).
  change (vx u0, vy u0, vz u0) with u0.
  change (vx u1, vy u1, vz u1) with u1.
  change (vx u2, vy u2, vz u2) with u2.
  repeat split; destruct u0 as [[? ?] ?], u1 as [[? ?] ?], u2 as [[? ?] ?];
    reflexivity.
Qed.

Lemma winding_vector_triangle (v0 v1 vl : RV) :
  winding_vector ROps [v0; v1; vl; v0] = rcross (rsub v1 v0) (rsub vl v0).
Proof.
  destruct v0 as [[a1 a2] a3], v1 as [[b1 b2] b3], vl as [[c1 c2] c3].
  cbn [winding_vector]. unvec. f_equal; [f_equal|]; ring.
Qed.

End Frame.





(** * Further properties *)

(** ** Bounds test and distance values *)

Lemma outbound_in_bounds (bd : Q * Q * Q * Q) (p : V3) :
  outbound bd p = negb (in_bounds bd p).
Proof.
  destruct bd as [[[minx miny] maxx] maxy]. unfold outbound, in_bounds, Qltb.
  destruct (Qle_bool minx (vx p)), (Qle_bool (vx p) maxx),
    (Qle_bool miny (vy p)), (Qle_bool (vy p) maxy); reflexivity.
Qed.

Lemma Forall2_map_r {A B : Type} (P : A -> B -> Prop) (f : A -> B) (l : list A) :
  (forall x, P x (f x)) -> Forall2 P l (map f l).
Proof. intros H. induction l; simpl; constructor; auto. Qed.

Lemma distance_value_cases (bd : Q * Q * Q * Q) (q : V3) :
  let d := (Qabs (vz q) + (if outbound bd q then SENTINEL else 0))%Q in
  d = (Qabs (vz q) + (if in_bounds bd q then 0 else SENTINEL))%Q /\
  (0 <= d)%Q /\ ((d < SENTINEL)%Q -> in_bounds bd q = true).
Proof.
  intros d. subst d. rewrite outbound_in_bounds.
  pose proof (Qabs_nonneg (vz q)) as Habs.
  destruct (in_bounds bd q); simpl.
  - split; [reflexivity|]. split; [Lqa.lra|auto].
  - split; [reflexivity|]. unfold SENTINEL. split; [Lqa.lra|]. intros H. Lqa.lra.
Qed.

(** X1: the distance value of a point is its absolute depth when the point
    passes the bounding-box test of texture creation, and the absolute depth
    plus 999.9 otherwise; it is never negative, and a value below 999.9
    belongs to a point inside the box. *)
Theorem distance_value_spec pc (s : Surface Q) cb :
  Forall2
    (fun q d =>
       d = (Qabs (vz q) + (if in_bounds (boundary s) q then 0 else SENTINEL))%Q /\
       (0 <= d)%Q /\
       ((d < SENTINEL)%Q -> in_bounds (boundary s) q = true))
    (get_projected_points pc s) (get_distance_matrix pc s cb).
Proof.
  unfold get_distance_matrix. apply Forall2_map_r. intros q.
  apply distance_value_cases.
Qed.


(** ** Shape of the distance matrix *)

Lemma rows_before_0 (ks : list (option nat)) : rows_before ks 0 = 0%nat.
Proof. destruct ks; reflexivity. Qed.

Lemma rows_before_cons (x : option nat) (ks : list (option nat)) (i : nat) :
  rows_before (x :: ks) (S i)
  = ((match x with Some _ => 1 | None => 0 end) + rows_before ks i)%nat.
Proof. unfold rows_before. destruct x; reflexivity. Qed.

Lemma rows_before_S (ks : list (option nat)) (i : nat) :
  rows_before ks (S i)
  = (rows_before ks i + match ks !! i with Some (Some _) => 1 | _ => 0 end)%nat.
Proof.
  unfold rows_before. revert i. induction ks as [|x ks IH]; intros i.
  - destruct i; reflexivity.
  - destruct i as [|i].
    + destruct x, ks; reflexivity.
    + change (take (S (S i)) (x :: ks)) with (x :: take (S i) ks).
      change (take (S i) (x :: ks)) with (x :: take i ks).
      change ((x :: ks) !! S i) with (ks !! i).
      destruct x; simpl; rewrite IH; reflexivity.
Qed.

Lemma rows_before_mono (ks : list (option nat)) (i j : nat) :
  (i <= j)%nat -> (rows_before ks i <= rows_before ks j)%nat.
Proof.
  induction 1 as [|j Hle IH]; [lia|]. rewrite rows_before_S. lia.
Qed.

Lemma distance_rows_numbering pc lod nsurf (ss : list (Surface Q)) :
  forall n acc k nk dm nkmap,
    distance_rows pc lod nsurf n ss acc k nk = (dm, nkmap) ->
    exists rows ks,
      dm = acc ++ rows /\ nkmap = nk ++ ks /\
      length rows = rows_before ks (length ks) /\
      forall i j, ks !! i = Some (Some j) -> j = (k + rows_before ks i)%nat.
Proof.
  induction ss as [|s0 rest IH]; intros n acc k nk dm nkmap Hrun; simpl in Hrun.
  - injection Hrun as <- <-. exists [], []. rewrite !app_nil_r.
    repeat split; auto. intros i j Hi. discriminate.
  - assert (Hskip : forall dm nkmap,
        distance_rows pc lod nsurf (S n) rest acc k (nk ++ [None]) = (dm, nkmap) ->
        exists rows ks,
          dm = acc ++ rows /\ nkmap = nk ++ ks /\
          length rows = rows_before ks (length ks) /\
          forall i j, ks !! i = Some (Some j) -> j = (k + rows_before ks i)%nat).
    { intros dm' nkmap' Hrun'.
      destruct (IH _ _ _ _ _ _ Hrun') as (rows & ks & -> & -> & Hlen & Hi).
      exists rows, (None :: ks). rewrite <- app_assoc. simpl.
      split; [reflexivity|]. split; [reflexivity|]. split.
      - simpl length. rewrite rows_before_cons. exact Hlen.
      - intros [|i] j Hj; simpl in Hj; [discriminate|].
        rewrite (Hi i j Hj), rows_before_cons. reflexivity. }
    destruct (length (get_distance_matrix pc s0 true) =? 0)%nat; [apply Hskip, Hrun|].
    destruct (Qltb 10 _); [apply Hskip, Hrun|].
    destruct (IH _ _ _ _ _ _ Hrun) as (rows & ks & -> & -> & Hlen & Hi).
    eexists (_ :: rows), (Some k :: ks). rewrite <- !app_assoc. simpl.
    split; [reflexivity|]. split; [reflexivity|]. split.
    + simpl length. rewrite rows_before_cons, Hlen. reflexivity.
    + intros [|i] j Hj; simpl in Hj.
      * injection Hj as <-. rewrite rows_before_0. lia.
      * rewrite (Hi i j Hj), rows_before_cons. lia.
Qed.

(** X2: the matrix loop hands out one [nkmap] entry per face and one matrix
    entry per face and point; the row numbers are 0, 1, 2, ... in face
    order, so that the matrix has as many rows as there are faces with a
    row, a row number is below the number of rows, and two different faces
    never share a row; the row of a face is that face's vector of penalised
    distances, and a face has a row exactly when it survives the exclusion
    rules. *)
Theorem distance_matrix_shape pc lod (ss : list (Surface Q)) :
  let dm := (build_distance_matrix pc lod ss).1 in
  let nkmap := (build_distance_matrix pc lod ss).2 in
  length nkmap = length ss /\
  Forall (fun row => length row = length (points pc)) dm /\
  length dm = rows_before nkmap (length nkmap) /\
  (forall n k, nkmap !! n = Some (Some k) ->
     k = rows_before nkmap n /\ (k < length dm)%nat) /\
  (forall n m k, nkmap !! n = Some (Some k) -> nkmap !! m = Some (Some k) -> n = m) /\
  (forall n s, ss !! n = Some s ->
     if survives pc lod (length ss) n s
     then exists k, nkmap !! n = Some (Some k) /\
                    dm !! k = Some (face_distances pc lod (length ss) n s)
     else nkmap !! n = Some None).
Proof.
  intros dm nkmap.
  assert (Hb : build_distance_matrix pc lod ss = (dm, nkmap))
    by apply surjective_pairing.
  clearbody dm nkmap.
  destruct (build_distance_matrix_inv _ _ _ _ _ Hb) as (Hlen & Hall & Hrow).
  destruct (distance_rows_numbering _ _ _ _ _ _ _ _ _ _ Hb)
    as (rows & ks & -> & -> & Hrows & Hnum).
  simpl in *.
  assert (Hk : forall n k, ks !! n = Some (Some k) ->
                 k = rows_before ks n /\ (k < length rows)%nat).
  { intros n k Hn. pose proof (Hnum n k Hn) as ->. simpl. split; [reflexivity|].
    rewrite Hrows. pose proof (lookup_lt_Some _ _ _ Hn) as Hlt.
    pose proof (rows_before_mono ks (S n) (length ks) ltac:(lia)) as Hm.
    rewrite rows_before_S, Hn in Hm. lia. }
  split; [exact Hlen|]. split; [exact Hall|]. split; [exact Hrows|].
  split; [exact Hk|]. split; [|exact Hrow].
  intros a b k Ha Hb'.
  destruct (Hk a k Ha) as (Ea & _). destruct (Hk b k Hb') as (Eb & _).
  destruct (Nat.lt_trichotomy a b) as [H|[H|H]]; [|assumption|]; exfalso.
  - pose proof (rows_before_mono ks (S a) b ltac:(lia)) as Hmono.
    rewrite rows_before_S, Ha in Hmono. lia.
  - pose proof (rows_before_mono ks (S b) a ltac:(lia)) as Hmono.
    rewrite rows_before_S, Hb' in Hmono. lia.
Qed.


(** ** Nearest faces and the masks of method [nearest] *)

(** X3: [nearest_face] is the scalar [False] exactly when no face has a
    row; otherwise it has one entry per point, and each entry is the number
    of an existing row holding the minimum of the point's column, the lowest
    such row when several rows tie. *)
Theorem nearest_face_valid pc lod (ss : list (Surface Q)) :
  let dm := (build_distance_matrix pc lod ss).1 in
  match nearest_face_of dm with
  | NF_False => dm = []
  | NF_Array a =>
      dm <> [] /\ length a = length (points pc) /\
      forall p f, a !! p = Some f ->
        (f < length dm)%nat /\ first_min (column dm p) f
  end.
Proof.
  intros dm.
  destruct (build_distance_matrix_inv pc lod ss dm (build_distance_matrix pc lod ss).2
              (surjective_pairing _)) as (_ & Hall & _).
  clearbody dm.
  destruct (nearest_face_of dm) as [|a] eqn:E.
  - destruct dm; [reflexivity|discriminate].
  - assert (Hne : dm <> []) by (intros ->; discriminate).
    destruct (nearest_face_of_lookup dm _ a Hall E) as (Hlen & Hlook).
    split; [exact Hne|]. split; [exact Hlen|].
    intros p f Hp.
    pose proof (lookup_lt_Some _ _ _ Hp) as Hlt. rewrite Hlen in Hlt.
    rewrite (Hlook p Hlt) in Hp. injection Hp as <-.
    pose proof (argmin_spec (column dm p) (column_nonempty dm p Hne)) as Hmin.
    split; [|exact Hmin].
    destruct Hmin as (H & _). unfold column in H. rewrite length_map in H. exact H.
Qed.

Lemma nearest_mask_lookup (nf : list nat) (dm : list (list Q)) (k : nat)
    (a : list bool) (p : nat) :
  nearest_mask (NF_Array nf) dm (Some k) = Some (MArray a) ->
  a !! p = Some true ->
  nf !! p = Some k /\
  exists row d, dm !! k = Some row /\ row !! p = Some d /\ (d < 999)%Q.
Proof.
  unfold nearest_mask. destruct (dm !! k) as [row|] eqn:Erow; [|discriminate].
  intros [= <-]. rewrite lookup_zip_with, !lookup_map.
  destruct (nf !! p) as [f|] eqn:Ef; simpl; [|discriminate].
  destruct (row !! p) as [d|] eqn:Ed; simpl; [|discriminate].
  intros [= H]. apply andb_true_iff in H as [H1 H2].
  apply Nat.eqb_eq in H1. apply Qltb_lt in H2. subst f.
  split; [reflexivity|]. exists row, d.
  split; [reflexivity|]. split; [exact Ed|exact H2].
Qed.

Lemma face_distances_lookup pc lod nsurf n (s : Surface Q) (p : nat) (d : Q) :
  face_distances pc lod nsurf n s !! p = Some d ->
  (d < 999)%Q ->
  exists q, get_projected_points pc s !! p = Some q /\
            in_bounds (boundary s) q = true /\ (d == Qabs (vz q))%Q.
Proof.
  unfold face_distances, get_distance_matrix.
  destruct (_ && _); rewrite ?lookup_map;
    destruct (get_projected_points pc s !! p) as [q|]; simpl; try discriminate;
    intros [= <-] Hd;
    destruct (distance_value_cases (boundary s) q) as (E & Hpos & Hin);
    unfold SENTINEL in *.
  - exfalso. simpl in Hpos. Lqa.lra.
  - exists q. split; [reflexivity|].
    assert (Hb : in_bounds (boundary s) q = true) by (apply Hin; simpl; Lqa.lra).
    split; [exact Hb|]. rewrite outbound_in_bounds, Hb. simpl. ring.
Qed.

(** X4: under [nearest], every point in the mask of a face projects inside
    the bounding box of that face (so the bounds cut of texture creation
    removes nothing from such a mask), and no point is in the masks of two
    different faces. *)
Theorem nearest_masks_in_bounds_and_disjoint pc lod (ss : list (Surface Q))
    n s k a :
  let dm := (build_distance_matrix pc lod ss).1 in
  let nkmap := (build_distance_matrix pc lod ss).2 in
  ss !! n = Some s ->
  nkmap !! n = Some (Some k) ->
  nearest_mask (nearest_face_of dm) dm (Some k) = Some (MArray a) ->
  (forall p, a !! p = Some true ->
     exists q, get_projected_points pc s !! p = Some q /\
               in_bounds (boundary s) q = true) /\
  (forall m k' a' p,
     m <> n -> nkmap !! m = Some (Some k') ->
     nearest_mask (nearest_face_of dm) dm (Some k') = Some (MArray a') ->
     a !! p = Some true -> a' !! p <> Some true).
Proof.
  intros dm nkmap Hs Hk Hmask.
  assert (Hb : build_distance_matrix pc lod ss = (dm, nkmap))
    by apply surjective_pairing.
  clearbody dm nkmap.
  destruct (build_distance_matrix_inv _ _ _ _ _ Hb) as (_ & _ & Hrows).
  destruct (distance_rows_numbering _ _ _ _ _ _ _ _ _ _ Hb)
    as (rows & ks & Hdm & Hnk & Hcount & Hnum).
  simpl in Hdm, Hnk. subst dm nkmap.
  destruct (nearest_face_of rows) as [|nf] eqn:Enf.
  { unfold nearest_mask in Hmask. destruct (rows !! k); discriminate. }
  split.
  - intros p Hp.
    destruct (nearest_mask_lookup _ _ _ _ _ Hmask Hp) as (_ & row & d & Hrow & Hd & Hlt).
    specialize (Hrows n s Hs).
    destruct (survives pc lod (length ss) n s); [|congruence].
    destruct Hrows as (j & Hj & Hrowj). assert (j = k) by congruence. subst j.
    assert (row = face_distances pc lod (length ss) n s) by congruence. subst row.
    destruct (face_distances_lookup _ _ _ _ _ _ _ Hd Hlt) as (q & Hq & Hin & _).
    exists q. auto.
  - intros m k' a' p Hmn Hk' Hmask' Hp Hp'.
    destruct (nearest_mask_lookup _ _ _ _ _ Hmask Hp) as (Hf & _).
    destruct (nearest_mask_lookup _ _ _ _ _ Hmask' Hp') as (Hf' & _).
    assert (k = k') by congruence. subst k'.
    pose proof (Hnum n k Hk) as En. pose proof (Hnum m k Hk') as Em. simpl in En, Em.
    destruct (Nat.lt_trichotomy n m) as [H|[H|H]]; [|congruence|].
    + pose proof (rows_before_mono ks (S n) m ltac:(lia)) as Hmono.
      rewrite rows_before_S, Hk in Hmono. lia.
    + pose proof (rows_before_mono ks (S m) n ltac:(lia)) as Hmono.
      rewrite rows_before_S, Hk' in Hmono. lia.
Qed.


(** ** Texture creation: files and success *)

Local Arguments path_join : simpl never.
Local Arguments basename : simpl never.
Local Arguments rasterize : simpl never.
Local Arguments texture_gridsize : simpl never.
Local Arguments fmt_03d : simpl never.

Lemma files_kept_refl (fs : FS) : files_kept fs fs.
Proof. intros p H. exact H. Qed.

Lemma files_kept_trans (a b c : FS) : files_kept a b -> files_kept b c -> files_kept a c.
Proof. intros H1 H2 p H. auto. Qed.

Lemma files_kept_insert (fs : FS) (path : string) (f : File) :
  files_kept fs (<[path := f]> fs).
Proof.
  intros p H. destruct (decide (path = p)) as [->|Hne].
  - rewrite lookup_insert_eq. eexists; reflexivity.
  - rewrite lookup_insert_ne by assumption. exact H.
Qed.

Lemma has_file_kept (fs fs' : FS) (name : string) :
  files_kept fs fs' -> has_file fs name -> has_file fs' name.
Proof. intros Hk (p & Hb & Hp). exists p. split; [exact Hb|apply Hk, Hp]. Qed.

Lemma create_texture_image_files
    (vds : PointCloud -> Q -> PointCloud) b (s : Surface Q) mask imagesize
    prefix wp (fs fs' : FS) name :
  create_texture_image vds b s mask imagesize prefix wp fs = Some (name, fs') ->
  files_kept fs fs' /\ has_file fs' name.
Proof.
  unfold create_texture_image.
  destruct (pcd b) as [pc|]; [|discriminate]. simpl.
  destruct (broadcast_and _ _) as [m|]; [|discriminate]. simpl.
  destruct (np_any m); simpl.
  - destruct (index_by_mask m (get_projected_points pc s)) as [fp|]; [|discriminate].
    simpl.
    destruct (index_by_mask m (colors pc)) as [fc|]; [|discriminate]. simpl.
    destruct (Qle_bool _ 0); [discriminate|].
    intros [= <- <-]. split.
    + destruct wp.
      * eapply files_kept_trans; apply files_kept_insert.
      * apply files_kept_insert.
    + eexists. split; [reflexivity|]. rewrite lookup_insert_eq. eexists; reflexivity.
  - intros [= <- <-]. destruct (fs !! path_join (dirname b) "no_texture.png") eqn:E.
    + split; [apply files_kept_refl|].
      eexists. split; [reflexivity|]. rewrite E. eexists; reflexivity.
    + split; [apply files_kept_insert|].
      eexists. split; [reflexivity|]. rewrite lookup_insert_eq. eexists; reflexivity.
Qed.

Lemma texture_gridsize_lower (b : Build3d) (s : Surface Q) (imagesize : Z) :
  (gridsize b <= texture_gridsize b s imagesize)%Q.
Proof.
  unfold texture_gridsize. destruct (boundary s) as [[[minx miny] maxx] maxy].
  apply py_max_spec.
Qed.

Lemma broadcast_and_fits (mask : Mask) (inb : list bool) :
  mask_fits (length inb) mask ->
  exists m, broadcast_and mask inb = Some m /\ length m = length inb.
Proof.
  destruct mask as [b|a]; simpl.
  - intros _. eexists. split; [reflexivity|]. apply length_map.
  - intros H. rewrite H, Nat.eqb_refl. eexists. split; [reflexivity|].
    rewrite length_zip_with, H. lia.
Qed.

Lemma create_texture_image_defined
    (vds : PointCloud -> Q -> PointCloud) b (s : Surface Q) mask imagesize
    prefix wp (fs : FS) pc :
  pcd b = Some pc ->
  length (colors pc) = length (points pc) ->
  (0 < gridsize b)%Q ->
  mask_fits (length (points pc)) mask ->
  is_Some (create_texture_image vds b s mask imagesize prefix wp fs).
Proof.
  intros Hpc Hcol Hg Hfit. unfold create_texture_image. rewrite Hpc. simpl.
  destruct (broadcast_and_fits mask
              (map (in_bounds (boundary s)) (get_projected_points pc s)))
    as (m & -> & Hlen).
  { rewrite length_map, length_get_projected_points. exact Hfit. }
  rewrite length_map, length_get_projected_points in Hlen. simpl.
  destruct (np_any m); simpl; [|eexists; reflexivity].
  unfold index_by_mask. rewrite length_get_projected_points, Hcol, Hlen, Nat.eqb_refl.
  simpl.
  destruct (Qle_bool _ 0) eqn:E; [|eexists; reflexivity].
  exfalso. apply Qle_bool_iff in E.
  pose proof (texture_gridsize_lower b s (default DEFAULT_IMAGESIZE imagesize)).
  Lqa.lra.
Qed.


(** ** The texture loop *)

Lemma texture_loop_spec (vds : PointCloud -> Q -> PointCloud) b imagesize prefix
    (mask_of : nat -> Surface Q -> option Mask) (ss : list (Surface Q)) :
  forall n names (fs : FS) names' (fs' : FS),
    texture_loop vds b imagesize prefix mask_of n ss names fs = Some (names', fs') ->
    files_kept fs fs' /\
    exists new,
      names' = names ++ new /\ length new = length ss /\
      (forall i name, new !! i = Some name -> has_file fs' name) /\
      (forall i s, ss !! i = Some s ->
         exists mask name (fsi fsi' : FS),
           mask_of (n + i)%nat s = Some mask /\ new !! i = Some name /\
           create_texture_image vds b s mask imagesize (Some prefix) false fsi
           = Some (name, fsi')).
Proof.
  induction ss as [|s0 rest IH]; intros n names fs names' fs' Hrun; simpl in Hrun.
  - injection Hrun as <- <-. split; [apply files_kept_refl|].
    exists []. rewrite app_nil_r. repeat split; auto; intros i x Hi; discriminate.
  - destruct (mask_of n s0) as [mask|] eqn:Emask; [|discriminate]. simpl in Hrun.
    destruct (create_texture_image vds b s0 mask imagesize (Some prefix) false fs)
      as [[name fs1]|] eqn:Ecreate; [|discriminate].
    simpl in Hrun.
    destruct (create_texture_image_files _ _ _ _ _ _ _ _ _ _ Ecreate) as (Hk1 & Hf1).
    destruct (IH _ _ _ _ _ Hrun) as (Hk2 & new & -> & Hlen & Hfiles & Hmasks).
    split; [eapply files_kept_trans; eassumption|].
    exists (name :: new). rewrite <- app_assoc. simpl.
    split; [reflexivity|]. split; [lia|]. split.
    + intros [|i] x Hi; simpl in Hi.
      * injection Hi as <-. eapply has_file_kept; eassumption.
      * eapply Hfiles, Hi.
    + intros [|i] s Hi; simpl in Hi.
      * injection Hi as <-. exists mask, name, fs, fs1.
        rewrite Nat.add_0_r. auto.
      * destruct (Hmasks i s Hi) as (mk & nm & fa & fb & H1 & H2 & H3).
        exists mk, nm, fa, fb. rewrite Nat.add_succ_r. auto.
Qed.

Lemma texture_loop_defined (vds : PointCloud -> Q -> PointCloud) b imagesize prefix
    (mask_of : nat -> Surface Q -> option Mask) pc (ss : list (Surface Q)) :
  pcd b = Some pc ->
  length (colors pc) = length (points pc) ->
  (0 < gridsize b)%Q ->
  forall n names (fs : FS),
    (forall i s, ss !! i = Some s ->
       exists mask, mask_of (n + i)%nat s = Some mask /\
                    mask_fits (length (points pc)) mask) ->
    is_Some (texture_loop vds b imagesize prefix mask_of n ss names fs).
Proof.
  intros Hpc Hcol Hg.
  induction ss as [|s0 rest IH]; intros n names fs Hmasks; simpl.
  - eexists; reflexivity.
  - destruct (Hmasks 0%nat s0 eq_refl) as (mask & Hm & Hfit).
    rewrite Nat.add_0_r in Hm. rewrite Hm. simpl.
    destruct (create_texture_image_defined vds b s0 mask imagesize (Some prefix)
                false fs pc Hpc Hcol Hg Hfit) as ((name & fs1) & ->).
    simpl. apply IH. intros i s Hi.
    specialize (Hmasks (S i) s Hi). rewrite Nat.add_succ_r in Hmasks. exact Hmasks.
Qed.

(** The masks of methods [nearest] and [smart] always exist and fit. *)
Lemma nearest_mask_fits pc lod (ss : list (Surface Q)) dm nkmap n s :
  build_distance_matrix pc lod ss = (dm, nkmap) ->
  ss !! n = Some s ->
  exists mask,
    (nkmap !! n ≫= nearest_mask (nearest_face_of dm) dm) = Some mask /\
    mask_fits (length (points pc)) mask /\
    (survives pc lod (length ss) n s = false -> mask = MBool false).
Proof.
  intros Hb Hs.
  destruct (build_distance_matrix_inv _ _ _ _ _ Hb) as (_ & Hall & Hrows).
  specialize (Hrows n s Hs).
  destruct (survives pc lod (length ss) n s).
  - destruct Hrows as (k & -> & Hrow). simpl.
    assert (Hne : dm <> []) by (intros ->; discriminate).
    destruct (nearest_face_of dm) as [|nf] eqn:Enf.
    { destruct dm; [congruence|discriminate]. }
    destruct (nearest_face_of_lookup dm _ nf Hall Enf) as (Hnf & _).
    unfold nearest_mask. rewrite Hrow. eexists. split; [reflexivity|].
    split; [|discriminate]. simpl.
    rewrite length_zip_with, !length_map, Hnf, length_face_distances. lia.
  - rewrite Hrows. simpl. exists (MBool false).
    split; [reflexivity|]. split; [exact I|reflexivity].
Qed.

Lemma smart_mask_fits pc lod (ss : list (Surface Q)) dm nkmap n s :
  build_distance_matrix pc lod ss = (dm, nkmap) ->
  ss !! n = Some s ->
  exists mask,
    (nkmap !! n ≫= fun k => smart_mask (nearest_face_of dm) k
                                        (get_projected_points pc s)) = Some mask /\
    mask_fits (length (points pc)) mask /\
    (survives pc lod (length ss) n s = false -> mask = MBool false).
Proof.
  intros Hb Hs.
  destruct (build_distance_matrix_inv _ _ _ _ _ Hb) as (_ & Hall & Hrows).
  specialize (Hrows n s Hs).
  pose proof (length_get_projected_points pc s) as Hpp.
  destruct (survives pc lod (length ss) n s).
  - destruct Hrows as (k & -> & Hrow). simpl.
    assert (Hne : dm <> []) by (intros ->; discriminate).
    destruct (nearest_face_of dm) as [|nf] eqn:Enf.
    { destruct dm; [congruence|discriminate]. }
    destruct (nearest_face_of_lookup dm _ nf Hall Enf) as (Hnf & _).
    unfold smart_mask. simpl. unfold index_by_mask.
    rewrite length_map, Hnf, Hpp, Nat.eqb_refl. simpl.
    destruct (length _ =? 0)%nat.
    + exists (MBool false). split; [reflexivity|]. split; [exact I|discriminate].
    + eexists. split; [reflexivity|]. split; [|discriminate].
      simpl. rewrite !length_map. exact Hpp.
  - rewrite Hrows. simpl. exists (MBool false).
    split; [|split; [exact I|reflexivity]].
    unfold smart_mask.
    destruct (nearest_face_of dm) as [|nf] eqn:Enf; simpl; [reflexivity|].
    destruct (nearest_face_of_lookup dm _ nf Hall Enf) as (Hnf & _).
    unfold index_by_mask. rewrite length_map, Hnf, Hpp, Nat.eqb_refl. simpl.
    rewrite select_all_false. reflexivity.
Qed.


Lemma create_texture_image_placeholder
    (vds : PointCloud -> Q -> PointCloud) b (s : Surface Q) mask imagesize
    prefix wp (fs fs' : FS) pc name :
  pcd b = Some pc ->
  mask = MBool false \/ points pc = [] ->
  create_texture_image vds b s mask imagesize prefix wp fs = Some (name, fs') ->
  name = "no_texture.png".
Proof.
  intros Hpc Hcase. unfold create_texture_image. rewrite Hpc. simpl.
  destruct (broadcast_and mask _) as [m|] eqn:Em; [|discriminate]. simpl.
  assert (Hany : np_any m = false).
  { destruct Hcase as [->|Hp].
    - simpl in Em. injection Em as <-. unfold np_any.
      induction (get_projected_points pc s); simpl; auto.
    - unfold get_projected_points in Em. rewrite Hp in Em. simpl in Em.
      destruct mask as [bb|a]; simpl in Em.
      + injection Em as <-. reflexivity.
      + destruct a as [|x [|y a]]; simpl in Em; try discriminate;
          injection Em as <-; reflexivity. }
  rewrite Hany. simpl. intros [= <- _]. apply basename_no_texture.
Qed.

Lemma texture_images_of_spec (vds : PointCloud -> Q -> PointCloud) b pc imagesize
    prefix method (ss : list (Surface Q)) (fs fs' : FS) names :
  texture_images_of vds b pc imagesize prefix method ss fs = Some (names, fs') ->
  files_kept fs fs' /\ length names = length ss /\
  forall i name, names !! i = Some name -> has_file fs' name.
Proof.
  unfold texture_images_of.
  assert (H : forall mask_of,
    texture_loop vds b imagesize prefix mask_of 0 ss [] fs = Some (names, fs') ->
    files_kept fs fs' /\ length names = length ss /\
    forall i name, names !! i = Some name -> has_file fs' name).
  { intros mask_of Hrun.
    destruct (texture_loop_spec _ _ _ _ _ _ _ _ _ _ _ Hrun)
      as (Hk & new & -> & Hlen & Hfiles & _).
    simpl. auto. }
  destruct (String.eqb _ "all"); [apply H|].
  destruct (build_distance_matrix pc (lod b) ss) as [dm nkmap].
  destruct (String.eqb _ "nearest"); apply H.
Qed.

Lemma texture_images_of_defined (vds : PointCloud -> Q -> PointCloud) b pc
    imagesize prefix method (ss : list (Surface Q)) (fs : FS) :
  pcd b = Some pc ->
  length (colors pc) = length (points pc) ->
  (0 < gridsize b)%Q ->
  is_Some (texture_images_of vds b pc imagesize prefix method ss fs).
Proof.
  intros Hpc Hcol Hg. unfold texture_images_of.
  destruct (String.eqb _ "all").
  { apply (texture_loop_defined _ _ _ _ _ pc); auto.
    intros i s _. exists (MBool true). split; [reflexivity|exact I]. }
  destruct (build_distance_matrix pc (lod b) ss) as [dm nkmap] eqn:Eb.
  destruct (String.eqb _ "nearest");
    apply (texture_loop_defined _ _ _ _ _ pc); auto; intros i s Hi; simpl.
  - destruct (nearest_mask_fits _ _ _ _ _ _ _ Eb Hi) as (mask & Hm & Hfit & _).
    exists mask. auto.
  - destruct (smart_mask_fits _ _ _ _ _ _ _ Eb Hi) as (mask & Hm & Hfit & _).
    exists mask. auto.
Qed.

(** The name stored for a face whose mask is the scalar [False], or for any
    face when the cloud is empty, is the placeholder. *)
Lemma texture_images_of_placeholder (vds : PointCloud -> Q -> PointCloud) b pc
    imagesize prefix method (ss : list (Surface Q)) (fs fs' : FS) names n s :
  pcd b = Some pc ->
  texture_images_of vds b pc imagesize prefix method ss fs = Some (names, fs') ->
  ss !! n = Some s ->
  points pc = [] \/
  (String.eqb (lower method) "all" = false /\
   survives pc (lod b) (length ss) n s = false) ->
  names !! n = Some "no_texture.png".
Proof.
  intros Hpc Hrun Hs Hcase. unfold texture_images_of in Hrun.
  assert (H : forall mask_of,
    texture_loop vds b imagesize prefix mask_of 0 ss [] fs = Some (names, fs') ->
    (forall mask, mask_of n s = Some mask -> mask = MBool false \/ points pc = []) ->
    names !! n = Some "no_texture.png").
  { intros mask_of Hloop Hmask.
    destruct (texture_loop_spec _ _ _ _ _ _ _ _ _ _ _ Hloop)
      as (_ & new & -> & _ & _ & Hmasks).
    destruct (Hmasks n s Hs) as (mask & name & fa & fb & Hm & Hn & Hc).
    simpl in *. rewrite Hn. f_equal.
    eapply create_texture_image_placeholder; [exact Hpc|apply Hmask, Hm|exact Hc]. }
  destruct (String.eqb (lower method) "all") eqn:Eall.
  { apply (H _ Hrun). intros mask _. right.
    destruct Hcase as [Hp|[Hf _]]; [exact Hp|discriminate]. }
  destruct (build_distance_matrix pc (lod b) ss) as [dm nkmap] eqn:Eb.
  destruct Hcase as [Hp|[_ Hsurv]].
  { destruct (String.eqb _ "nearest"); apply (H _ Hrun); intros; right; exact Hp. }
  destruct (String.eqb _ "nearest"); apply (H _ Hrun); intros mask Hm; left.
  - destruct (nearest_mask_fits _ _ _ _ _ _ _ Eb Hs) as (mask' & Hm' & _ & Hfalse).
    assert (E : Some mask = Some mask')
      by (etransitivity; [symmetry; exact Hm|exact Hm']).
    injection E as ->. apply Hfalse, Hsurv.
  - destruct (smart_mask_fits _ _ _ _ _ _ _ Eb Hs) as (mask' & Hm' & _ & Hfalse).
    assert (E : Some mask = Some mask')
      by (etransitivity; [symmetry; exact Hm|exact Hm']).
    injection E as ->. apply Hfalse, Hsurv.
Qed.


(** ** Faces, surfaces and the records of the two files *)

Lemma calc_basic_metrics_shape {F : Type} (ops : NumOps F) (fsqrt : F -> F)
    (n : nat) (ring : list (F * F * F)) (s : Surface F) :
  calc_basic_metrics ops fsqrt n ring = Some s ->
  (3 <= length (removelast ring))%nat /\
  face_number s = n /\
  length (projected_vertices s) = length (removelast ring).
Proof.
  unfold calc_basic_metrics.
  destruct (removelast ring) as [|o [|v1 [|v2 rest]]]; try discriminate.
  destruct (_ || _); [discriminate|].
  intros [= <-]. simpl. rewrite !length_map. repeat split; lia.
Qed.

(** Whether a face can be projected does not depend on its number. *)
Lemma calc_basic_metrics_any_number {F : Type} (ops : NumOps F) (fsqrt : F -> F)
    (n m : nat) (ring : list (F * F * F)) :
  is_Some (calc_basic_metrics ops fsqrt n ring) ->
  is_Some (calc_basic_metrics ops fsqrt m ring).
Proof.
  unfold calc_basic_metrics.
  destruct (removelast ring) as [|o [|v1 [|v2 rest]]];
    try (intros [? ?]; discriminate).
  destruct (_ || _); [intros [? ?]; discriminate|].
  intros _. eexists; reflexivity.
Qed.

Lemma index_all_length {A : Type} (eqb : A -> A -> bool) (items : list A) :
  forall l ps0 ps l',
    index_all eqb items l ps0 = (ps, l') ->
    length ps = (length ps0 + length items)%nat.
Proof.
  induction items as [|v rest IH]; intros l ps0 ps l' Hrun; simpl in Hrun.
  - injection Hrun as <- <-. simpl. lia.
  - destruct (index_or_append eqb l v) as [pos l1].
    apply IH in Hrun. rewrite length_app in Hrun. simpl in *. lia.
Qed.

Lemma collect_faces_shape (np_sqrt : Q -> Q) (faces : list (list V3)) :
  forall i fv av ss fv' av' ss',
    collect_faces np_sqrt i faces fv av ss = Some (fv', av', ss') ->
    exists fvs sss,
      fv' = fv ++ fvs /\ ss' = ss ++ sss /\
      length fvs = length faces /\ length sss = length faces /\
      forall n ring, faces !! n = Some ring ->
        exists verts s,
          fvs !! n = Some verts /\ sss !! n = Some s /\
          length verts = length (removelast ring) /\
          calc_basic_metrics QOps np_sqrt (i + n) ring = Some s.
Proof.
  induction faces as [|ring0 rest IH]; intros i fv av ss fv' av' ss' Hrun;
    simpl in Hrun.
  - injection Hrun as <- <- <-. exists [], []. rewrite !app_nil_r.
    repeat split; auto. intros n ring Hn. discriminate.
  - destruct (index_all V3_eqb (removelast ring0) av []) as [verts av1] eqn:E0.
    destruct (calc_basic_metrics QOps np_sqrt i ring0) as [surface|] eqn:Ecalc;
      [|discriminate].
    simpl in Hrun.
    pose proof (index_all_length _ _ _ _ _ _ E0) as Hlen0. simpl in Hlen0.
    destruct (IH _ _ _ _ _ _ _ Hrun) as (fvs & sss & -> & -> & L1 & L2 & Hfaces).
    exists (verts :: fvs), (surface :: sss). rewrite <- !app_assoc. simpl.
    repeat split; auto.
    intros [|n] ring Hn; simpl in Hn.
    + injection Hn as <-. exists verts, surface. rewrite Nat.add_0_r. auto.
    + destruct (Hfaces n ring Hn) as (vs & s & H1 & H2 & H3 & H4).
      exists vs, s. rewrite Nat.add_succ_r. auto.
Qed.

Lemma collect_faces_defined (np_sqrt : Q -> Q) (faces : list (list V3)) :
  Forall (fun ring => is_Some (calc_basic_metrics QOps np_sqrt 0 ring)) faces ->
  forall i fv av ss, is_Some (collect_faces np_sqrt i faces fv av ss).
Proof.
  induction 1 as [|ring rest Hring Hrest IH]; intros i fv av ss; simpl.
  - eexists; reflexivity.
  - destruct (index_all V3_eqb (removelast ring) av []) as [verts av1].
    destruct (calc_basic_metrics_any_number QOps np_sqrt 0 i ring Hring) as (s & ->).
    simpl. apply IH.
Qed.

Lemma face_triples_defined (n : nat) (vertices vt_n : list nat) :
  forall i,
    (forall a, (a < length vertices)%nat -> is_Some (vt_n !! (i + a)%nat)) ->
    is_Some (face_triples n i vertices vt_n).
Proof.
  induction vertices as [|v rest IH]; intros i H; simpl.
  - eexists; reflexivity.
  - destruct (H 0%nat ltac:(simpl; lia)) as (t & Ht).
    rewrite Nat.add_0_r in Ht. rewrite Ht. simpl.
    destruct (IH (S i)) as (r & ->).
    { intros a Ha. specialize (H (S a) ltac:(simpl; lia)).
      rewrite Nat.add_succ_r in H. exact H. }
    simpl. eexists; reflexivity.
Qed.

Lemma face_triples_length (n : nat) (vertices vt_n : list nat) :
  forall i tr, face_triples n i vertices vt_n = Some tr -> length tr = length vertices.
Proof.
  induction vertices as [|v rest IH]; intros i tr Hrun; simpl in Hrun.
  - injection Hrun as <-. reflexivity.
  - destruct (vt_n !! i); [|discriminate]. simpl in Hrun.
    destruct (face_triples n (S i) rest vt_n) eqn:E; [|discriminate].
    simpl in Hrun. injection Hrun as <-. simpl. f_equal. eapply IH, E.
Qed.

Lemma face_lines_defined (face_vertices : list (list nat)) :
  forall n names vt_index,
    (forall i vertices, face_vertices !! i = Some vertices ->
       is_Some (names !! (n + i)%nat) /\
       exists vt_n, vt_index !! (n + i)%nat = Some vt_n /\
                    forall a, (a < length vertices)%nat -> is_Some (vt_n !! a)) ->
    is_Some (face_lines n face_vertices names vt_index).
Proof.
  induction face_vertices as [|vs rest IH]; intros n names vt_index H; simpl.
  - eexists; reflexivity.
  - destruct (H 0%nat vs eq_refl) as ((name & Hname) & vt_n & Hvt & Hlook).
    rewrite Nat.add_0_r in Hname, Hvt. rewrite Hname, Hvt. simpl.
    destruct (face_triples_defined n vs vt_n 0) as (values & ->); [exact Hlook|].
    simpl.
    destruct (IH (S n) names vt_index) as (r & ->).
    { intros i v Hi. specialize (H (S i) v Hi).
      rewrite Nat.add_succ_r in H. exact H. }
    simpl. eexists; reflexivity.
Qed.

Lemma face_lines_records (face_vertices : list (list nat)) :
  forall n names vt_index lines,
    face_lines n face_vertices names vt_index = Some lines ->
    usemtl_records lines = take (length face_vertices) (drop n names) /\
    vn_records lines = [] /\
    length (f_records lines) = length face_vertices.
Proof.
  induction face_vertices as [|vs rest IH]; intros n names vt_index lines Hrun;
    simpl in Hrun.
  - injection Hrun as <-. repeat split; reflexivity.
  - destruct (names !! n) as [name|] eqn:En; [|discriminate]. simpl in Hrun.
    destruct (vt_index !! n) as [vt_n|]; [|discriminate]. simpl in Hrun.
    destruct (face_triples n 0 vs vt_n) as [values|]; [|discriminate].
    simpl in Hrun.
    destruct (face_lines (S n) rest names vt_index) as [r|] eqn:Er; [|discriminate].
    simpl in Hrun. injection Hrun as <-.
    destruct (IH _ _ _ _ Er) as (H1 & H2 & H3).
    unfold usemtl_records, vn_records, f_records in *.
    cbn [omap list_omap]. rewrite H1, H2. rewrite (drop_S names name n En).
    split; [reflexivity|]. split; [reflexivity|]. simpl. f_equal. exact H3.
Qed.

Lemma mtl_lines_records (nfaces : nat) :
  forall n names mtl,
    mtl_lines nfaces n names = Some mtl ->
    newmtl_records mtl = take nfaces (drop n names) /\
    map_Kd_records mtl = take nfaces (drop n names) /\
    length mtl = (8 * nfaces)%nat.
Proof.
  induction nfaces as [|k IH]; intros n names mtl Hrun; simpl in Hrun.
  - injection Hrun as <-. repeat split; reflexivity.
  - destruct (names !! n) as [name|] eqn:En; [|discriminate]. simpl in Hrun.
    destruct (mtl_lines k (S n) names) as [r|] eqn:Er; [|discriminate].
    simpl in Hrun. injection Hrun as <-.
    destruct (IH _ _ _ Er) as (H1 & H2 & H3).
    unfold newmtl_records, map_Kd_records in *.
    cbn [omap list_omap]. rewrite H1, H2. rewrite (drop_S names name n En).
    split; [reflexivity|]. split; [reflexivity|]. simpl. lia.
Qed.

Lemma mtl_lines_defined (nfaces : nat) :
  forall n names, (n + nfaces <= length names)%nat ->
                  is_Some (mtl_lines nfaces n names).
Proof.
  induction nfaces as [|k IH]; intros n names H; simpl.
  - eexists; reflexivity.
  - destruct (lookup_lt_is_Some_2 names n ltac:(lia)) as (name & ->). simpl.
    destruct (IH (S n) names ltac:(lia)) as (r & ->). simpl. eexists; reflexivity.
Qed.

(** The material file is one block of eight lines per face. *)
Lemma mtl_lines_blocks (nfaces : nat) :
  forall n names mtl,
    mtl_lines nfaces n names = Some mtl ->
    mtl = flat_map (fun name => [L_newmtl name; L_Kd; L_Ns; L_d; L_illum; L_Ka;
                                 L_Ks; L_map_Kd name])
                   (take nfaces (drop n names)).
Proof.
  induction nfaces as [|k IH]; intros n names mtl Hrun; simpl in Hrun.
  - injection Hrun as <-. reflexivity.
  - destruct (names !! n) as [name|] eqn:En; [|discriminate]. simpl in Hrun.
    destruct (mtl_lines k (S n) names) as [r|] eqn:Er; [|discriminate].
    simpl in Hrun. injection Hrun as <-.
    rewrite (drop_S names name n En). cbn [take flat_map app].
    rewrite <- (IH _ _ _ Er). reflexivity.
Qed.


(** ** [make_objfiles] as a whole *)

Lemma make_objfiles_inv (np_sqrt : Q -> Q) (vds : PointCloud -> Q -> PointCloud)
    b imagesize method (fs fs' : FS) pc :
  pcd b = Some pc ->
  make_objfiles np_sqrt vds b imagesize method fs = Some fs' ->
  let prefix := make_prefix b pc imagesize method in
  exists fv av ss names (fs1 : FS) lines mtl,
    collect_faces np_sqrt 0 (building b) [] [] [] = Some (fv, av, ss) /\
    texture_images_of vds b pc imagesize prefix method ss fs = Some (names, fs1) /\
    obj_lines prefix b av ss fv names = Some lines /\
    mtl_lines (length (building b)) 0 names = Some mtl /\
    fs' = <[path_join (dirname b) (prefix +:+ ".mtl") := MTL mtl]>
            (<[path_join (dirname b) (prefix +:+ ".obj") := OBJ lines]> fs1).
Proof.
  intros Hpc Hrun prefix. unfold make_objfiles in Hrun. rewrite Hpc in Hrun.
  cbn [mbind option_bind] in Hrun. fold prefix in Hrun.
  destruct (collect_faces np_sqrt 0 (building b) [] [] []) as [[[fv av] ss]|] eqn:E1;
    [|discriminate].
  cbn [mbind option_bind] in Hrun.
  destruct (texture_images_of vds b pc imagesize prefix method ss fs)
    as [[names fs1]|] eqn:E2; [|discriminate].
  cbn [mbind option_bind] in Hrun.
  destruct (obj_lines prefix b av ss fv names) as [lines|] eqn:E3; [|discriminate].
  cbn [mbind option_bind] in Hrun.
  destruct (mtl_lines (length (building b)) 0 names) as [mtl|] eqn:E4; [|discriminate].
  cbn [mbind option_bind] in Hrun. injection Hrun as <-.
  exists fv, av, ss, names, fs1, lines, mtl. auto.
Qed.

Lemma obj_mtl_paths_differ (d prefix : string) :
  path_join d (prefix +:+ ".obj") <> path_join d (prefix +:+ ".mtl").
Proof. eapply path_join_ext_ne; try reflexivity. discriminate. Qed.

Lemma omap_map_None {A B C : Type} (f : B -> option C) (g : A -> B) (l : list A) :
  (forall x, f (g x) = None) -> omap f (map g l) = [].
Proof.
  intros H. induction l as [|x l IH]; [reflexivity|].
  cbn [map omap list_omap]. rewrite H. exact IH.
Qed.

Lemma omap_map_Some {A B C : Type} (f : B -> option C) (g : A -> B) (h : A -> C)
    (l : list A) :
  (forall x, f (g x) = Some (h x)) -> omap f (map g l) = map h l.
Proof.
  intros H. induction l as [|x l IH]; [reflexivity|].
  cbn [map omap list_omap]. rewrite H. cbn [map]. f_equal. exact IH.
Qed.

Lemma obj_lines_more_records prefix b all_vertices (ss : list (Surface Q))
    face_vertices names lines :
  obj_lines prefix b all_vertices ss face_vertices names = Some lines ->
  usemtl_records lines = take (length face_vertices) names /\
  vn_records lines = map (fun s => col2 (projection_matrix s)) ss /\
  length (f_records lines) = length face_vertices.
Proof.
  intros Hobj.
  destruct (obj_lines_records _ _ _ _ _ _ _ Hobj) as (fl & Hfl & _ & _ & Hf).
  destruct (face_lines_records _ _ _ _ _ Hfl) as (H1 & H2 & H3).
  rewrite drop_0 in H1. rewrite Hf. split; [|split; [|exact H3]].
  - unfold obj_lines in Hobj.
    destruct (collect_texcoords ss [] []) as [vt_list vt_index]. simpl in Hfl.
    rewrite Hfl in Hobj. simpl in Hobj. injection Hobj as <-.
    unfold usemtl_records in *. cbn [omap list_omap]. rewrite !omap_app, H1.
    rewrite !omap_map_None by reflexivity. reflexivity.
  - unfold obj_lines in Hobj.
    destruct (collect_texcoords ss [] []) as [vt_list vt_index]. simpl in Hfl.
    rewrite Hfl in Hobj. simpl in Hobj. injection Hobj as <-.
    unfold vn_records in *. cbn [omap list_omap]. rewrite !omap_app, H2.
    rewrite (omap_map_Some _ _ (fun s => col2 (projection_matrix s))) by reflexivity.
    rewrite !omap_map_None by reflexivity. rewrite app_nil_r. reflexivity.
Qed.


(** X6: a successful [make_objfiles] (image size other than 1) keeps every
    file that existed, writes the mesh file and the material file, and names
    one texture per face: the material file is one block of eight lines per
    face, in face order -- the [newmtl] line with the texture name, the six
    constant lines [Kd], [Ns], [d], [illum], [Ka], [Ks], and the [map_Kd]
    line with the same name --, the [usemtl] records of the mesh file are
    these names in the same order, and every one of them is the base name of
    a file that exists afterwards. *)
Theorem make_objfiles_files (np_sqrt : Q -> Q)
    (vds : PointCloud -> Q -> PointCloud) b imagesize method (fs fs' : FS) pc :
  pcd b = Some pc ->
  imagesize <> Some 1%Z ->
  make_objfiles np_sqrt vds b imagesize method fs = Some fs' ->
  let prefix := make_prefix b pc imagesize method in
  files_kept fs fs' /\
  exists lines mtl names,
    fs' !! path_join (dirname b) (prefix +:+ ".obj") = Some (OBJ lines) /\
    fs' !! path_join (dirname b) (prefix +:+ ".mtl") = Some (MTL mtl) /\
    length names = length (building b) /\
    usemtl_records lines = names /\
    mtl = flat_map (fun name => [L_newmtl name; L_Kd; L_Ns; L_d; L_illum; L_Ka;
                                 L_Ks; L_map_Kd name]) names /\
    length mtl = (8 * length (building b))%nat /\
    Forall (has_file fs') names.
Proof.
  intros Hpc _ Hrun prefix.
  destruct (make_objfiles_inv _ _ _ _ _ _ _ _ Hpc Hrun)
    as (fv & av & ss & names & fs1 & lines & mtl & Ecf & Eti & Eobj & Emtl & ->).
  fold prefix in Eti, Eobj |- *.
  destruct (collect_faces_shape _ _ _ _ _ _ _ _ _ Ecf)
    as (fvs & sss & -> & -> & L1 & L2 & _).
  simpl in *.
  destruct (texture_images_of_spec _ _ _ _ _ _ _ _ _ _ Eti) as (Hkept & Lnames & Hfiles).
  destruct (obj_lines_more_records _ _ _ _ _ _ _ Eobj) as (Huse & _ & _).
  destruct (mtl_lines_records _ _ _ _ Emtl) as (_ & _ & Hlen).
  pose proof (mtl_lines_blocks _ _ _ _ Emtl) as Hblocks.
  rewrite drop_0 in Hblocks.
  rewrite take_ge in Huse by lia. rewrite take_ge in Hblocks by lia.
  assert (Hk2 : files_kept fs1
            (<[path_join (dirname b) (prefix +:+ ".mtl") := MTL mtl]>
               (<[path_join (dirname b) (prefix +:+ ".obj") := OBJ lines]> fs1))).
  { eapply files_kept_trans; apply files_kept_insert. }
  split; [eapply files_kept_trans; eassumption|].
  exists lines, mtl, names.
  split.
  { rewrite lookup_insert_ne by (apply not_eq_sym, obj_mtl_paths_differ).
    apply lookup_insert_eq. }
  split; [apply lookup_insert_eq|].
  split; [lia|]. split; [exact Huse|]. split; [exact Hblocks|].
  split; [exact Hlen|].
  apply Forall_lookup. intros i name Hi.
  eapply has_file_kept; [exact Hk2|]. eapply Hfiles, Hi.
Qed.


(** ** Decoding face records *)

Lemma face_lines_lengths (face_vertices : list (list nat)) :
  forall n names vt_index lines,
    face_lines n face_vertices names vt_index = Some lines ->
    forall i vertices, face_vertices !! i = Some vertices ->
      exists tr, f_records lines !! i = Some tr /\ length tr = length vertices.
Proof.
  induction face_vertices as [|vs rest IH]; intros n names vt_index lines Hrun;
    simpl in Hrun.
  - intros i v Hi. discriminate.
  - destruct (names !! n) as [name|]; [|discriminate]. simpl in Hrun.
    destruct (vt_index !! n) as [vt_n|]; [|discriminate]. simpl in Hrun.
    destruct (face_triples n 0 vs vt_n) as [values|] eqn:Etr; [|discriminate].
    simpl in Hrun.
    destruct (face_lines (S n) rest names vt_index) as [r|] eqn:Er; [|discriminate].
    simpl in Hrun. injection Hrun as <-.
    intros [|i] vertices Hi; simpl in Hi.
    + injection Hi as <-. exists values. split; [reflexivity|].
      eapply face_triples_length, Etr.
    + apply (IH _ _ _ _ Er i vertices Hi).
Qed.

(** X7: the face records of the mesh file (image size other than 1) refer
    to records that exist.  The record of face [i] has one triple per stored
    vertex; in the triple of a vertex the first index points at one of the
    [v] records, the second at the [vt] record that holds the texture
    coordinate of that vertex in the frame of face [i], and the third is
    [i + 1], the position of the [vn] record of face [i]: there is one [vn]
    record per face. *)
Theorem face_records_index_written_records (np_sqrt : Q -> Q)
    (vds : PointCloud -> Q -> PointCloud) b imagesize method (fs fs' : FS) pc
    i ring a v :
  pcd b = Some pc ->
  imagesize <> Some 1%Z ->
  make_objfiles np_sqrt vds b imagesize method fs = Some fs' ->
  building b !! i = Some ring ->
  removelast ring !! a = Some v ->
  exists lines s fi iv it t pv,
    fs' !! path_join (dirname b) (make_prefix b pc imagesize method +:+ ".obj")
    = Some (OBJ lines) /\
    calc_basic_metrics QOps np_sqrt i ring = Some s /\
    length (vn_records lines) = length (building b) /\
    f_records lines !! i = Some fi /\
    length fi = length (removelast ring) /\
    fi !! a = Some (iv + 1, it + 1, i + 1)%nat /\
    (iv < length (v_records lines))%nat /\
    projected_vertices s !! a = Some pv /\
    vt_records lines !! it = Some t /\
    Q2_eqb t (texture_coord (boundary s) pv) = true.
Proof.
  intros Hpc _ Hrun Hring Hv.
  destruct (make_objfiles_inv _ _ _ _ _ _ _ _ Hpc Hrun)
    as (fv & av & ss & names & fs1 & lines & mtl & Ecf & Eti & Eobj & Emtl & ->).
  destruct (collect_faces_spec _ _ _ _ _ _ _ _ _ Ecf) as (e & fvs & -> & -> & _ & Hfaces).
  destruct (collect_faces_shape _ _ _ _ _ _ _ _ _ Ecf)
    as (fvs' & sss & Efv & -> & _ & Lsss & Hshape).
  simpl in Efv. subst fvs'. simpl in *.
  destruct (Hfaces i ring Hring) as (verts & Hverts & Hidx).
  destruct (Hshape i ring Hring) as (verts' & s & Hverts' & Hs & Hlen & Hcalc).
  assert (verts' = verts) by congruence. subst verts'.
  destruct (Hidx a v Hv) as (iv & Hiv & Hlist).
  destruct (list_index_Some V3_eqb _ _ _ Hlist) as (x & Hx & Hxv).
  destruct (obj_lines_records _ _ _ _ _ _ _ Eobj) as (fl & Hfl & Hvr & Hvt & Hf).
  destruct (obj_lines_more_records _ _ _ _ _ _ _ Eobj) as (_ & Hvn & _).
  destruct (collect_texcoords sss [] []) as [vt_list vt_index] eqn:Ect.
  destruct (collect_texcoords_spec _ _ _ _ _ Ect) as (e' & vis & -> & -> & _ & Hss).
  simpl in *.
  destruct (face_lines_spec _ _ _ _ _ Hfl) as (_ & _ & Hrec).
  destruct (Hrec i verts Hverts) as (fi & vt_n & Hfi & Hvtn & Htr).
  destruct (face_lines_lengths _ _ _ _ _ Hfl i verts Hverts) as (fi' & Hfi' & Hfil).
  assert (fi' = fi) by congruence. subst fi'.
  destruct (Htr a iv Hiv) as (it & Hfa & Hit).
  destruct (Hss i s Hs) as (idxs & Hidxs & Htex).
  simpl in Hvtn. assert (vt_n = idxs) by congruence. subst vt_n.
  destruct (calc_basic_metrics_shape _ _ _ _ _ Hcalc) as (_ & _ & Hpv).
  pose proof (lookup_lt_Some _ _ _ Hv) as Ha.
  destruct (lookup_lt_is_Some_2 (projected_vertices s) a ltac:(lia)) as (pv & Epv).
  assert (Et : texcoords_of s !! a = Some (texture_coord (boundary s) pv)).
  { unfold texcoords_of. rewrite lookup_map, Epv. reflexivity. }
  destruct (Htex a _ Et) as (it' & Hit' & Hlist').
  assert (it' = it) by congruence. subst it'.
  destruct (list_index_Some Q2_eqb _ _ _ Hlist') as (t & Ht & Htt).
  exists lines, s, fi, iv, it, t, pv.
  split.
  { rewrite lookup_insert_ne by (apply not_eq_sym, obj_mtl_paths_differ).
    apply lookup_insert_eq. }
  rewrite Hf, Hvr, Hvt, Hvn, length_map.
  pose proof (lookup_lt_Some _ _ _ Hx) as Hivlt.
  repeat split; auto. lia.
Qed.

(** ** Deduplicated lists hold no duplicates *)

Section DistinctFacts.
Context {A : Type} (eqb : A -> A -> bool).
Hypothesis eqb_sym : forall x y, eqb x y = true -> eqb y x = true.

Lemma list_index_None (l : list A) (v : A) :
  list_index eqb l v = None -> forall i x, l !! i = Some x -> eqb x v = false.
Proof.
  induction l as [|y l IH]; simpl; intros H i x Hi; [discriminate|].
  destruct (eqb y v) eqn:E; [discriminate|].
  destruct (list_index eqb l v); [discriminate|].
  destruct i as [|i]; simpl in Hi.
  - injection Hi as <-. exact E.
  - eapply IH; [reflexivity|exact Hi].
Qed.

Lemma index_or_append_distinct (l l' : list A) (v : A) (pos : nat) :
  distinct_under eqb l ->
  index_or_append eqb l v = (pos, l') ->
  distinct_under eqb l' /\ forall x, In x l' -> In x l \/ x = v.
Proof.
  intros Hd. unfold index_or_append.
  destruct (list_index eqb l v) eqn:E; intros [= <- <-].
  - split; [exact Hd|auto].
  - split.
    + intros i j x y Hi Hj Hxy.
      destruct (decide (i < length l)%nat) as [Hil|Hil];
        destruct (decide (j < length l)%nat) as [Hjl|Hjl].
      * rewrite lookup_app_l in Hi, Hj by assumption. eapply Hd; eassumption.
      * rewrite lookup_app_l in Hi by assumption.
        rewrite lookup_app_r in Hj by lia.
        destruct (j - length l)%nat; [|destruct n; discriminate].
        injection Hj as <-.
        rewrite (list_index_None l v E i x Hi) in Hxy. discriminate.
      * rewrite lookup_app_l in Hj by assumption.
        rewrite lookup_app_r in Hi by lia.
        destruct (i - length l)%nat; [|destruct n; discriminate].
        injection Hi as <-. apply eqb_sym in Hxy.
        rewrite (list_index_None l v E j y Hj) in Hxy. discriminate.
      * pose proof (lookup_lt_Some _ _ _ Hi) as Li.
        pose proof (lookup_lt_Some _ _ _ Hj) as Lj.
        rewrite length_app in Li, Lj. simpl in Li, Lj. lia.
    + intros x Hx. apply in_app_or in Hx as [Hx|[<-|[]]]; auto.
Qed.

Lemma index_all_distinct (items : list A) :
  forall l ps0 ps l',
    distinct_under eqb l ->
    index_all eqb items l ps0 = (ps, l') ->
    distinct_under eqb l' /\ forall x, In x l' -> In x l \/ In x items.
Proof.
  induction items as [|v rest IH]; intros l ps0 ps l' Hd Hrun; simpl in Hrun.
  - injection Hrun as <- <-. split; [exact Hd|auto].
  - destruct (index_or_append eqb l v) as [pos l1] eqn:E0.
    destruct (index_or_append_distinct _ _ _ _ Hd E0) as (Hd1 & Hin1).
    destruct (IH _ _ _ _ Hd1 Hrun) as (Hd2 & Hin2).
    split; [exact Hd2|].
    intros x Hx. destruct (Hin2 x Hx) as [H|H]; [|right; right; exact H].
    destruct (Hin1 x H) as [H'| ->]; [left; exact H'|right; left; reflexivity].
Qed.
End DistinctFacts.

Lemma distinct_under_nil {A : Type} (eqb : A -> A -> bool) : distinct_under eqb [].
Proof. intros i j x y Hi. discriminate. Qed.

Lemma collect_faces_distinct (np_sqrt : Q -> Q) (faces : list (list V3)) :
  forall i fv av ss fv' av' ss',
    distinct_under V3_eqb av ->
    collect_faces np_sqrt i faces fv av ss = Some (fv', av', ss') ->
    distinct_under V3_eqb av' /\
    forall x, In x av' -> In x av \/ exists ring, In ring faces /\ In x (removelast ring).
Proof.
  induction faces as [|ring0 rest IH]; intros i fv av ss fv' av' ss' Hd Hrun;
    simpl in Hrun.
  - injection Hrun as <- <- <-. split; [exact Hd|auto].
  - destruct (index_all V3_eqb (removelast ring0) av []) as [verts av1] eqn:E0.
    destruct (calc_basic_metrics QOps np_sqrt i ring0) as [surface|]; [|discriminate].
    simpl in Hrun.
    destruct (index_all_distinct V3_eqb V3_eqb_sym _ _ _ _ _ Hd E0) as (Hd1 & Hin1).
    destruct (IH _ _ _ _ _ _ _ Hd1 Hrun) as (Hd2 & Hin2).
    split; [exact Hd2|].
    intros x Hx. destruct (Hin2 x Hx) as [H|(ring & Hr & Hxr)].
    + destruct (Hin1 x H) as [H'|H']; [left; exact H'|].
      right. exists ring0. split; [left; reflexivity|exact H'].
    + right. exists ring. split; [right; exact Hr|exact Hxr].
Qed.

Lemma collect_texcoords_distinct (ss : list (Surface Q)) :
  forall vl vi vl' vi',
    distinct_under Q2_eqb vl ->
    collect_texcoords ss vl vi = (vl', vi') ->
    distinct_under Q2_eqb vl' /\
    forall t, In t vl' -> In t vl \/ exists s, In s ss /\ In t (texcoords_of s).
Proof.
  induction ss as [|s0 rest IH]; intros vl vi vl' vi' Hd Hrun; simpl in Hrun.
  - injection Hrun as <- <-. split; [exact Hd|auto].
  - destruct (index_all Q2_eqb _ vl []) as [idxs vl1] eqn:E0.
    destruct (index_all_distinct Q2_eqb Q2_eqb_sym _ _ _ _ _ Hd E0) as (Hd1 & Hin1).
    destruct (IH _ _ _ _ Hd1 Hrun) as (Hd2 & Hin2).
    split; [exact Hd2|].
    intros t Ht. destruct (Hin2 t Ht) as [H|(s & Hs & Hts)].
    + destruct (Hin1 t H) as [H'|H']; [left; exact H'|].
      right. exists s0. split; [left; reflexivity|exact H'].
    + right. exists s. split; [right; exact Hs|exact Hts].
Qed.

(** X8: the [vt] records of the mesh file (image size other than 1) hold no
    texture coordinate twice, and every one of them is the texture
    coordinate of a stored vertex of a face of the building, in the frame of
    that face. *)
Theorem texture_coordinates_written_once (np_sqrt : Q -> Q)
    (vds : PointCloud -> Q -> PointCloud) b imagesize method (fs fs' : FS) pc :
  pcd b = Some pc ->
  imagesize <> Some 1%Z ->
  make_objfiles np_sqrt vds b imagesize method fs = Some fs' ->
  exists lines,
    fs' !! path_join (dirname b) (make_prefix b pc imagesize method +:+ ".obj")
    = Some (OBJ lines) /\
    distinct_under Q2_eqb (vt_records lines) /\
    forall t, In t (vt_records lines) ->
      exists n ring s pv,
        building b !! n = Some ring /\
        calc_basic_metrics QOps np_sqrt n ring = Some s /\
        In pv (projected_vertices s) /\
        t = texture_coord (boundary s) pv.
Proof.
  intros Hpc _ Hrun.
  destruct (make_objfiles_inv _ _ _ _ _ _ _ _ Hpc Hrun)
    as (fv & av & ss & names & fs1 & lines & mtl & Ecf & Eti & Eobj & Emtl & ->).
  exists lines.
  split.
  { rewrite lookup_insert_ne by (apply not_eq_sym, obj_mtl_paths_differ).
    apply lookup_insert_eq. }
  destruct (obj_lines_records _ _ _ _ _ _ _ Eobj) as (fl & _ & _ & Hvt & _).
  rewrite Hvt.
  destruct (collect_faces_shape _ _ _ _ _ _ _ _ _ Ecf)
    as (fvs & sss & _ & Ess & _ & Lsss & Hshape).
  simpl in Ess. subst ss.
  destruct (collect_texcoords sss [] []) as [vl vi] eqn:Ect.
  destruct (collect_texcoords_distinct _ _ _ _ _ (distinct_under_nil _) Ect)
    as (Hd & Hin).
  split; [exact Hd|].
  intros t Ht. destruct (Hin t Ht) as [[]|(s & Hs & Hts)].
  apply list_elem_of_In, list_elem_of_lookup_1 in Hs. destruct Hs as (n & Hn).
  pose proof (lookup_lt_Some _ _ _ Hn) as Hlt.
  destruct (lookup_lt_is_Some_2 (building b) n ltac:(lia)) as (ring & Hring).
  destruct (Hshape n ring Hring) as (verts & s' & _ & Hs' & _ & Hcalc).
  assert (s' = s) by congruence. subst s'.
  unfold texcoords_of in Hts. apply in_map_iff in Hts. destruct Hts as (pv & <- & Hpv).
  exists n, ring, s, pv. auto.
Qed.


(** ** Faces that fall back to the placeholder *)

Lemma all_equal_replicate {A : Type} (l : list A) (p : A) :
  (forall i x, l !! i = Some x -> x = p) -> l = replicate (length l) p.
Proof.
  induction l as [|y l IH]; intros H; [reflexivity|].
  simpl. rewrite (H 0%nat y eq_refl). f_equal.
  apply IH. intros i x Hi. apply (H (S i) x Hi).
Qed.

Lemma make_objfiles_usemtl (np_sqrt : Q -> Q) (vds : PointCloud -> Q -> PointCloud)
    b imagesize method (fs fs' : FS) pc :
  pcd b = Some pc ->
  make_objfiles np_sqrt vds b imagesize method fs = Some fs' ->
  exists lines ss names (fs1 : FS),
    fs' !! path_join (dirname b) (make_prefix b pc imagesize method +:+ ".obj")
    = Some (OBJ lines) /\
    usemtl_records lines = names /\
    length ss = length (building b) /\ length names = length (building b) /\
    texture_images_of vds b pc imagesize (make_prefix b pc imagesize method)
                      method ss fs = Some (names, fs1) /\
    forall n ring, building b !! n = Some ring ->
      exists s, ss !! n = Some s /\ calc_basic_metrics QOps np_sqrt n ring = Some s.
Proof.
  intros Hpc Hrun.
  destruct (make_objfiles_inv _ _ _ _ _ _ _ _ Hpc Hrun)
    as (fv & av & ss & names & fs1 & lines & mtl & Ecf & Eti & Eobj & Emtl & ->).
  destruct (collect_faces_shape _ _ _ _ _ _ _ _ _ Ecf)
    as (fvs & sss & -> & -> & L1 & L2 & Hshape).
  simpl in *.
  destruct (texture_images_of_spec _ _ _ _ _ _ _ _ _ _ Eti) as (_ & Lnames & _).
  destruct (obj_lines_more_records _ _ _ _ _ _ _ Eobj) as (Huse & _ & _).
  rewrite take_ge in Huse by lia.
  exists lines, sss, names, fs1.
  split.
  { rewrite lookup_insert_ne by (apply not_eq_sym, obj_mtl_paths_differ).
    apply lookup_insert_eq. }
  split; [exact Huse|]. split; [exact L2|]. split; [lia|]. split; [exact Eti|].
  intros n ring Hn. destruct (Hshape n ring Hn) as (verts & s & _ & Hs & _ & Hcalc).
  exists s. auto.
Qed.

(** X9: with an empty point cloud every face is given the placeholder
    texture, whatever the mapping method: the mesh file names
    [no_texture.png] once per face. *)
Theorem empty_cloud_gives_placeholders (np_sqrt : Q -> Q)
    (vds : PointCloud -> Q -> PointCloud) b imagesize method (fs fs' : FS) pc :
  pcd b = Some pc ->
  points pc = [] ->
  make_objfiles np_sqrt vds b imagesize method fs = Some fs' ->
  exists lines,
    fs' !! path_join (dirname b) (make_prefix b pc imagesize method +:+ ".obj")
    = Some (OBJ lines) /\
    usemtl_records lines = replicate (length (building b)) "no_texture.png".
Proof.
  intros Hpc Hempty Hrun.
  destruct (make_objfiles_usemtl _ _ _ _ _ _ _ _ Hpc Hrun)
    as (lines & ss & names & fs1 & Hfile & Huse & Lss & Lnames & Eti & _).
  exists lines. split; [exact Hfile|]. rewrite Huse, <- Lnames.
  apply all_equal_replicate. intros i x Hi.
  pose proof (lookup_lt_Some _ _ _ Hi) as Hlt.
  destruct (lookup_lt_is_Some_2 ss i ltac:(lia)) as (s & Hs).
  pose proof (texture_images_of_placeholder _ _ _ _ _ _ _ _ _ _ _ _ Hpc Eti Hs
                (or_introl Hempty)) as Hp.
  congruence.
Qed.

(** X10: under [nearest] and [smart] (image size other than 1) a face none
    of whose distance values is within 10.0 is given the placeholder
    texture: the mesh file names [no_texture.png] for it. *)
Theorem far_face_gets_placeholder (np_sqrt : Q -> Q)
    (vds : PointCloud -> Q -> PointCloud) b imagesize method (fs fs' : FS) pc
    n ring s :
  pcd b = Some pc ->
  String.eqb (lower method) "all" = false ->
  imagesize <> Some 1%Z ->
  make_objfiles np_sqrt vds b imagesize method fs = Some fs' ->
  building b !! n = Some ring ->
  calc_basic_metrics QOps np_sqrt n ring = Some s ->
  (10 < min_of (face_distances pc (lod b) (length (building b)) n s))%Q ->
  exists lines,
    fs' !! path_join (dirname b) (make_prefix b pc imagesize method +:+ ".obj")
    = Some (OBJ lines) /\
    usemtl_records lines !! n = Some "no_texture.png".
Proof.
  intros Hpc Hall _ Hrun Hn Hcalc Hfar.
  destruct (make_objfiles_usemtl _ _ _ _ _ _ _ _ Hpc Hrun)
    as (lines & ss & names & fs1 & Hfile & Huse & Lss & Lnames & Eti & Hsurf).
  exists lines. split; [exact Hfile|]. rewrite Huse.
  destruct (Hsurf n ring Hn) as (s' & Hs & Hcalc').
  assert (s' = s) by congruence. subst s'.
  apply (texture_images_of_placeholder _ _ _ _ _ _ _ _ _ _ n s Hpc Eti Hs).
  right. split; [exact Hall|].
  unfold survives. rewrite Lss. apply Qltb_lt in Hfar. rewrite Hfar.
  apply andb_false_r.
Qed.

(** X11: in a job with [lod = 1], under [nearest] and [smart] (image size
    other than 1), the first and the last face of the building are given
    the placeholder texture, whatever points lie near them. *)
Theorem cap_faces_get_placeholder (np_sqrt : Q -> Q)
    (vds : PointCloud -> Q -> PointCloud) b imagesize method (fs fs' : FS) pc
    (n : nat) :
  pcd b = Some pc ->
  String.eqb (lower method) "all" = false ->
  imagesize <> Some 1%Z ->
  make_objfiles np_sqrt vds b imagesize method fs = Some fs' ->
  lod b = 1%Z ->
  (n < length (building b))%nat ->
  (n = 0 \/ n = length (building b) - 1)%nat ->
  exists lines,
    fs' !! path_join (dirname b) (make_prefix b pc imagesize method +:+ ".obj")
    = Some (OBJ lines) /\
    usemtl_records lines !! n = Some "no_texture.png".
Proof.
  intros Hpc Hall _ Hrun Hlod Hn Hcap.
  destruct (make_objfiles_usemtl _ _ _ _ _ _ _ _ Hpc Hrun)
    as (lines & ss & names & fs1 & Hfile & Huse & Lss & Lnames & Eti & Hsurf).
  exists lines. split; [exact Hfile|]. rewrite Huse.
  destruct (lookup_lt_is_Some_2 ss n ltac:(lia)) as (s & Hs).
  apply (texture_images_of_placeholder _ _ _ _ _ _ _ _ _ _ n s Hpc Eti Hs).
  right. split; [exact Hall|].
  rewrite Hlod, Lss. apply cap_never_survives.
  exact Hcap.
Qed.


(** ** Loading and thinning the point cloud ([get_pointcloud]) *)

Section GetPointcloud.
Variable vds : PointCloud -> Q -> PointCloud.

Lemma downsample_loop_stops fuel pcd limit down g sg :
over_limit limit down = false ->
downsample_loop vds (S fuel) pcd limit down g sg = Some (down, sg).
Proof.
unfold over_limit. intros H. simpl. rewrite H. reflexivity.
Qed.

Lemma downsample_loop_first_fit pcd limit (j : nat) :
forall fuel i down sg,
  (j + 2 <= fuel + i)%nat -> (i <= j)%nat ->
  over_limit limit down = true ->
  (forall m, (i <= m < j)%nat -> over_limit limit (vds pcd (grid_at m)) = true) ->
  over_limit limit (vds pcd (grid_at j)) = false ->
  downsample_loop vds fuel pcd limit down (grid_at i) sg
  = Some (vds pcd (grid_at j), grid_at j).
Proof.
induction fuel as [|fuel IH]; intros i down sg Hfuel Hi Hover Hbelow Hfit.
- lia.
- simpl. unfold over_limit in Hover. rewrite Hover.
  destruct (decide (i = j)) as [->|Hne].
  + destruct fuel as [|fuel]; [lia|].
    change (grid_at j * (141421356 # 100000000))%Q with (grid_at (S j)).
    apply downsample_loop_stops. exact Hfit.
  + change (grid_at i * (141421356 # 100000000))%Q with (grid_at (S i)).
    apply IH; [lia|lia| |intros m Hm; apply Hbelow; lia|exact Hfit].
    apply Hbelow. lia.
Qed.

Lemma downsample_loop_limit pcd limit :
forall fuel down g sg down' g',
  downsample_loop vds fuel pcd limit down g sg = Some (down', g') ->
  over_limit limit down' = false.
Proof.
induction fuel as [|fuel IH]; intros down g sg down' g' Hrun; simpl in Hrun.
- discriminate.
- destruct (_ && _) eqn:E.
  + eapply IH; eassumption.
  + injection Hrun as <- <-. exact E.
Qed.

(** X12: a job without a cached cloud whose cropped cloud is within the
  limit, or whose limit is zero or negative, caches the cropped cloud as
  it is and keeps its grid size. *)
Theorem get_pointcloud_keeps_small_clouds fuel b cropped limit :
pcd b = None ->
let l := default LIMIT_POINTS limit in
(l <= 0)%Z \/ (Z.of_nat (length (points cropped)) <= l)%Z ->
get_pointcloud vds (S fuel) b cropped limit
= Some (with_cloud b cropped (gridsize b), cropped).
Proof.
intros Hnone l Hsmall. unfold get_pointcloud. rewrite Hnone.
rewrite downsample_loop_stops; [reflexivity|].
fold l. unfold over_limit.
destruct Hsmall as [H|H].
- replace (0 <? l)%Z with false by (symmetry; apply Z.ltb_ge; lia). reflexivity.
- replace (l <? Z.of_nat (length (points cropped)))%Z with false
    by (symmetry; apply Z.ltb_ge; lia).
  apply andb_false_r.
Qed.

(** X13: when the cropped cloud exceeds a positive limit, the loop
  downsamples the cropped cloud itself (never the previous result) with
  the voxel sizes 0.01, 0.01 x 1.41421356, ... and stops at the first
  size whose result is within the limit: [get_pointcloud] returns that
  result, caches it, and records that voxel size as the grid size of the
  job. *)
Theorem get_pointcloud_first_fit fuel b cropped limit (j : nat) :
pcd b = None ->
let l := default LIMIT_POINTS limit in
(0 < l)%Z ->
(l < Z.of_nat (length (points cropped)))%Z ->
(forall m, (m < j)%nat ->
   (l < Z.of_nat (length (points (vds cropped (grid_at m)))))%Z) ->
(Z.of_nat (length (points (vds cropped (grid_at j)))) <= l)%Z ->
(j + 2 <= fuel)%nat ->
get_pointcloud vds fuel b cropped limit
= Some (with_cloud b (vds cropped (grid_at j)) (grid_at j),
        vds cropped (grid_at j)).
Proof.
intros Hnone l Hpos Hbig Hbelow Hfit Hfuel.
unfold get_pointcloud. rewrite Hnone. fold l. change GRIDSIZE with (grid_at 0).
rewrite (downsample_loop_first_fit cropped l j fuel 0 cropped (gridsize b)).
- reflexivity.
- lia.
- lia.
- unfold over_limit. apply andb_true_iff. split; apply Z.ltb_lt; lia.
- intros m Hm. unfold over_limit. apply andb_true_iff.
  split; apply Z.ltb_lt; [lia|apply Hbelow; lia].
- unfold over_limit. apply andb_false_iff. right. apply Z.ltb_ge. exact Hfit.
Qed.

(** X14: whatever [get_pointcloud] loads under a positive limit has at
  most that many points. *)
Theorem get_pointcloud_respects_limit fuel b cropped limit b' pc :
pcd b = None ->
let l := default LIMIT_POINTS limit in
(0 < l)%Z ->
get_pointcloud vds fuel b cropped limit = Some (b', pc) ->
(Z.of_nat (length (points pc)) <= l)%Z.
Proof.
intros Hnone l Hpos Hrun. unfold get_pointcloud in Hrun. rewrite Hnone in Hrun.
fold l in Hrun.
destruct (downsample_loop vds fuel cropped l cropped GRIDSIZE (gridsize b))
  as [[down g]|] eqn:E; [|discriminate].
simpl in Hrun. injection Hrun as _ <-.
apply downsample_loop_limit in E. unfold over_limit in E.
apply andb_false_iff in E. destruct E as [E|E]; apply Z.ltb_ge in E; lia.
Qed.

(** X15: the cloud is cached: once a call has returned, every later call
  returns the same cloud and leaves the job as it is, whatever cropped
  cloud and limit it is given, without downsampling again. *)
Theorem get_pointcloud_is_cached fuel b cropped limit b' pc :
get_pointcloud vds fuel b cropped limit = Some (b', pc) ->
forall fuel' cropped' limit',
  get_pointcloud vds fuel' b' cropped' limit' = Some (b', pc).
Proof.
intros Hrun fuel' cropped' limit'.
assert (Hpc : pcd b' = Some pc).
{ unfold get_pointcloud in Hrun. destruct (pcd b) as [pc0|] eqn:E.
  - injection Hrun as <- <-. exact E.
  - destruct (downsample_loop vds fuel cropped _ cropped GRIDSIZE (gridsize b))
      as [[down g]|]; [|discriminate].
    simpl in Hrun. injection Hrun as <- <-. reflexivity. }
unfold get_pointcloud. rewrite Hpc. reflexivity.
Qed.
End GetPointcloud.


(** ** Points near the walls ([count_points_near_walls]) *)

Lemma surfaces_with_area_spec (np_sqrt : Q -> Q) (faces : list (list V3)) :
  forall i ss total ss' total',
    surfaces_with_area np_sqrt i faces ss total = Some (ss', total') ->
    exists new,
      ss' = ss ++ new /\ length new = length faces /\
      forall m ring, faces !! m = Some ring ->
        exists s, new !! m = Some s /\
                  calc_basic_metrics QOps np_sqrt (i + m) ring = Some s.
Proof.
  induction faces as [|ring0 rest IH]; intros i ss total ss' total' Hrun;
    simpl in Hrun.
  - injection Hrun as <- <-. exists []. rewrite app_nil_r.
    repeat split. intros m ring Hm. discriminate.
  - destruct (calc_basic_metrics QOps np_sqrt i ring0) as [s0|] eqn:E0;
      [|discriminate].
    simpl in Hrun. apply IH in Hrun. destruct Hrun as (new & -> & Hlen & Hnew).
    exists (s0 :: new). rewrite <- app_assoc. split; [reflexivity|].
    split; [simpl; lia|].
    intros [|m] ring Hm; simpl in Hm.
    + injection Hm as <-. exists s0. rewrite Nat.add_0_r. auto.
    + destruct (Hnew m ring Hm) as (s & Hs & Hcalc).
      exists s. split; [exact Hs|].
      replace (i + S m)%nat with (S i + m)%nat by lia. exact Hcalc.
Qed.

Lemma surfaces_with_area_defined (np_sqrt : Q -> Q) (faces : list (list V3)) :
  Forall (fun ring => is_Some (calc_basic_metrics QOps np_sqrt 0 ring)) faces ->
  forall i ss total, is_Some (surfaces_with_area np_sqrt i faces ss total).
Proof.
  induction 1 as [|ring rest Hring _ IH]; intros i ss total; simpl.
  - eexists; reflexivity.
  - destruct (calc_basic_metrics_any_number QOps np_sqrt 0 i ring Hring) as (s & ->).
    simpl. apply IH.
Qed.

Lemma near_rows_In pc lod nsurf t (surfaces : list (Surface Q)) :
  forall n acc row,
    In row (near_rows pc lod nsurf n surfaces acc t) <->
    In row acc \/
    exists m s, surfaces !! m = Some s /\
                row = face_distances pc lod nsurf (n + m) s /\
                Qltb t (min_of row) = false.
Proof.
  induction surfaces as [|s0 rest IH]; intros n acc row; simpl.
  - split; [auto|]. intros [H|(m & s & Hm & _)]; [exact H|discriminate].
  - fold (face_distances pc lod nsurf n s0).
    assert (Hshift : forall acc',
      (In row acc' \/
       exists m s, rest !! m = Some s /\
                   row = face_distances pc lod nsurf (S n + m) s /\
                   Qltb t (min_of row) = false) <->
      (In row acc' \/
       exists m s, (s0 :: rest) !! S m = Some s /\
                   row = face_distances pc lod nsurf (n + S m) s /\
                   Qltb t (min_of row) = false)).
    { intros acc'. split; intros [H|(m & s & Hm & Hrow & Hmin)]; try (left; exact H);
        right; exists m, s; simpl in *;
        replace (n + S m)%nat with (S n + m)%nat in * by lia;
        repeat split; assumption. }
    destruct (Qltb t (min_of (face_distances pc lod nsurf n s0))) eqn:E;
      rewrite IH, Hshift; clear IH Hshift.
    + split.
      * intros [H|(m & s & Hm & Hrow & Hmin)]; [left; exact H|].
        right. exists (S m), s. repeat split; assumption.
      * intros [H|(m & s & Hm & Hrow & Hmin)]; [left; exact H|].
        destruct m as [|m].
        -- simpl in Hm. injection Hm as <-. rewrite Nat.add_0_r in Hrow.
           subst row. congruence.
        -- right. exists m, s. repeat split; assumption.
    + rewrite in_app_iff. simpl. split.
      * intros [[H|[H|[]]]|(m & s & Hm & Hrow & Hmin)].
        -- left; exact H.
        -- right. exists 0%nat, s0. rewrite Nat.add_0_r. subst row.
           repeat split; auto.
        -- right. exists (S m), s. repeat split; assumption.
      * intros [H|(m & s & Hm & Hrow & Hmin)]; [left; left; exact H|].
        destruct m as [|m].
        -- simpl in Hm. injection Hm as <-. rewrite Nat.add_0_r in Hrow.
           left. right. left. symmetry. exact Hrow.
        -- right. exists m, s. repeat split; assumption.
Qed.

Lemma lookup_nth_lt {A : Type} (l : list A) (i : nat) (d : A) :
  (i < length l)%nat -> l !! i = Some (nth i l d).
Proof.
  intros Hlt. destruct (nth_lookup_or_length l i d) as [H|H]; [exact H|lia].
Qed.

Lemma count_true_map_le (f : nat -> Q) (t : Q) (l : list nat) :
  Z.of_nat (length (List.filter (fun d => Qle_bool d t) (map f l)))
  = count_true (map (fun p => Qle_bool (f p) t) l).
Proof.
  unfold count_true. f_equal.
  induction l as [|x l IH]; simpl; [reflexivity|].
  destruct (Qle_bool (f x) t); simpl; lia.
Qed.

Lemma count_true_all_false (l : list bool) :
  (forall p, l !! p <> Some true) -> count_true l = 0%Z.
Proof.
  unfold count_true. induction l as [|x l IH]; intros H; [reflexivity|].
  destruct x; [destruct (H 0%nat); reflexivity|].
  simpl. apply IH. intros p. apply (H (S p)).
Qed.

Lemma count_true_bounds (l : list bool) :
  (0 <= count_true l <= Z.of_nat (length l))%Z.
Proof.
  unfold count_true. pose proof (filter_length_le (fun x : bool => x) l). lia.
Qed.

Lemma count_true_mono (l1 l2 : list bool) :
  length l1 = length l2 ->
  (forall p, l1 !! p = Some true -> l2 !! p = Some true) ->
  (count_true l1 <= count_true l2)%Z.
Proof.
  unfold count_true. revert l2.
  induction l1 as [|x l1 IH]; intros [|y l2] Hlen H; simpl in *;
    try discriminate; try lia.
  assert (IH' := IH l2 ltac:(lia) (fun p => H (S p))).
  pose proof (H 0%nat) as H0. simpl in H0.
  destruct x.
  - specialize (H0 eq_refl). injection H0 as ->. simpl. lia.
  - destruct y; simpl; lia.
Qed.

(** What the function computes, for a loaded cloud: a vector with one entry
    per point, true where some face has the point within the threshold. *)
Lemma count_points_near_walls_inv (np_sqrt : Q -> Q) b threshold pc c :
  pcd b = Some pc ->
  count_points_near_walls np_sqrt b threshold = Some c ->
  exists near : list bool,
    length near = length (points pc) /\
    c = count_true near /\
    forall p, near !! p = Some true <->
      exists n ring s d,
        building b !! n = Some ring /\
        calc_basic_metrics QOps np_sqrt n ring = Some s /\
        face_distances pc (lod b) (length (building b)) n s !! p = Some d /\
        (d <= default 1 threshold)%Q.
Proof.
  intros Hpc Hrun. unfold count_points_near_walls in Hrun.
  rewrite Hpc in Hrun. cbn [mbind option_bind] in Hrun.
  set (t := default 1%Q threshold) in *.
  destruct (length (points pc) =? 0)%nat eqn:Enp.
  { apply Nat.eqb_eq in Enp. injection Hrun as <-.
    exists []. split; [simpl; lia|]. split; [reflexivity|].
    intros p. split; [discriminate|].
    intros (n & ring & s & d & _ & _ & Hd & _).
    apply lookup_lt_Some in Hd. rewrite length_face_distances in Hd. lia. }
  apply Nat.eqb_neq in Enp.
  destruct (surfaces_with_area np_sqrt 0 (building b) [] 0) as [[ss total]|] eqn:Ess;
    [|discriminate].
  cbn [mbind option_bind] in Hrun.
  destruct (surfaces_with_area_spec _ _ _ _ _ _ _ Ess) as (new & Hss & Hlen & Hnew).
  simpl in Hss. subst new. rewrite Hlen in Hrun.
  set (rows := near_rows pc (lod b) (length (building b)) 0 ss [] t) in *.
  assert (Hrows : forall row, In row rows <->
            exists m s, ss !! m = Some s /\
                        row = face_distances pc (lod b) (length (building b)) m s /\
                        Qltb t (min_of row) = false).
  { intros row. unfold rows. rewrite near_rows_In. simpl.
    split; [intros [[]|H]; exact H|auto]. }
  assert (Hface : forall n ring s d p,
            building b !! n = Some ring ->
            calc_basic_metrics QOps np_sqrt n ring = Some s ->
            face_distances pc (lod b) (length (building b)) n s !! p = Some d ->
            (d <= t)%Q ->
            exists row, In row rows /\ row !! p = Some d).
  { intros n ring s d p Hring Hcalc Hd Hle.
    exists (face_distances pc (lod b) (length (building b)) n s).
    split; [|exact Hd]. apply Hrows. exists n, s.
    destruct (Hnew n ring Hring) as (s' & Hs' & Hcalc'). simpl in Hcalc'.
    split; [congruence|]. split; [reflexivity|].
    apply Qltb_ge.
    apply Qle_trans with d; [|exact Hle].
    apply min_of_le. apply list_elem_of_In. eapply list_elem_of_lookup_2. exact Hd. }
  destruct (length rows =? 0)%nat eqn:Erows.
  - apply Nat.eqb_eq in Erows. injection Hrun as <-.
    assert (rows = []) as Hnil by (destruct rows; [reflexivity|discriminate]).
    exists (replicate (length (points pc)) false).
    split; [apply length_replicate|].
    assert (Hno : forall p, replicate (length (points pc)) false !! p <> Some true).
    { intros p Hp. apply lookup_replicate in Hp. destruct Hp; discriminate. }
    split; [symmetry; apply count_true_all_false; exact Hno|].
    intros p. split; [intros Hp; destruct (Hno p Hp)|].
    intros (n & ring & s & d & Hring & Hcalc & Hd & Hle).
    destruct (Hface n ring s d p Hring Hcalc Hd Hle) as (row & Hin & _).
    rewrite Hnil in Hin. destruct Hin.
  - apply Nat.eqb_neq in Erows. injection Hrun as <-.
    assert (Hne : rows <> []) by (intros E; rewrite E in Erows; apply Erows; reflexivity).
    exists (map (fun p => Qle_bool (min_of (column rows p)) t)
                (seq 0 (length (points pc)))).
    split; [rewrite length_map, length_seq; reflexivity|].
    split; [apply count_true_map_le|].
    intros p. rewrite lookup_map. split.
    + intros Hp.
      destruct (seq 0 (length (points pc)) !! p) as [p'|] eqn:Eseq; [|discriminate].
      apply lookup_seq in Eseq. destruct Eseq as (-> & Hlt). simpl in Hp.
      injection Hp as Hp. apply Qle_bool_iff in Hp.
      pose proof (min_of_In (column rows p) (column_nonempty rows p Hne)) as Hin.
      unfold column in Hin at 2. apply in_map_iff in Hin.
      destruct Hin as (row & Hval & Hin).
      apply Hrows in Hin. destruct Hin as (m & s & Hs & -> & _).
      pose proof (lookup_lt_Some _ _ _ Hs) as Hm. rewrite Hlen in Hm.
      destruct (lookup_lt_is_Some_2 (building b) m Hm) as (ring & Hring).
      destruct (Hnew m ring Hring) as (s' & Hs' & Hcalc). simpl in Hcalc.
      assert (s' = s) by congruence. subst s'.
      exists m, ring, s, (nth p (face_distances pc (lod b) (length (building b)) m s) 0%Q).
      split; [exact Hring|]. split; [exact Hcalc|]. split.
      * apply lookup_nth_lt. rewrite length_face_distances. exact Hlt.
      * rewrite Hval. exact Hp.
    + intros (n & ring & s & d & Hring & Hcalc & Hd & Hle).
      destruct (Hface n ring s d p Hring Hcalc Hd Hle) as (row & Hin & Hrow).
      pose proof (lookup_lt_Some _ _ _ Hd) as Hlt.
      rewrite length_face_distances in Hlt.
      rewrite (lookup_seq_lt 0 _ p Hlt). simpl. f_equal.
      apply Qle_bool_iff.
      apply Qle_trans with d; [|exact Hle].
      apply min_of_le. unfold column. apply in_map_iff.
      exists row. split; [|exact Hin].
      apply (nth_lookup_Some _ _ 0%Q) in Hrow. exact Hrow.
Qed.


(** X16: for a loaded cloud, [count_points_near_walls] returns the number of
    points that lie within the threshold of at least one face, where the
    distance of a point from a face is the entry of the face's distance
    vector (bounding-box penalty included, and the penalty of the first and
    the last face when [lod = 1]).  Dropping the faces whose nearest point is
    beyond the threshold does not change the count. *)
Theorem count_points_near_walls_counts (np_sqrt : Q -> Q) b threshold pc c :
  pcd b = Some pc ->
  count_points_near_walls np_sqrt b threshold = Some c ->
  exists near : list bool,
    length near = length (points pc) /\
    c = count_true near /\
    forall p, near !! p = Some true <->
      exists n ring s d,
        building b !! n = Some ring /\
        calc_basic_metrics QOps np_sqrt n ring = Some s /\
        face_distances pc (lod b) (length (building b)) n s !! p = Some d /\
        (d <= default 1 threshold)%Q.
Proof. apply count_points_near_walls_inv. Qed.

(** X17: the count lies between 0 and the number of points, and it does not
    decrease when the threshold grows. *)
Theorem count_points_near_walls_monotone (np_sqrt : Q -> Q) b t1 t2 pc c1 c2 :
  pcd b = Some pc ->
  (t1 <= t2)%Q ->
  count_points_near_walls np_sqrt b (Some t1) = Some c1 ->
  count_points_near_walls np_sqrt b (Some t2) = Some c2 ->
  (0 <= c1 <= c2)%Z /\ (c2 <= Z.of_nat (length (points pc)))%Z.
Proof.
  intros Hpc Hle H1 H2.
  destruct (count_points_near_walls_inv _ _ _ _ _ Hpc H1) as (n1 & L1 & -> & N1).
  destruct (count_points_near_walls_inv _ _ _ _ _ Hpc H2) as (n2 & L2 & -> & N2).
  pose proof (count_true_bounds n1). pose proof (count_true_bounds n2).
  assert (count_true n1 <= count_true n2)%Z; [|lia].
  apply count_true_mono; [lia|].
  intros p Hp. apply N2. apply N1 in Hp.
  destruct Hp as (n & ring & s & d & Hring & Hcalc & Hd & Hdle).
  exists n, ring, s, d. simpl in *. repeat split; try assumption.
  apply Qle_trans with t1; assumption.
Qed.

(** X18: on a loaded job [count_points_near_walls] returns normally exactly
    when the cloud is empty (the answer is then 0 and no face is looked at)
    or every face can be projected ([calc_basic_metrics] returns for it). *)
Theorem count_points_near_walls_defined (np_sqrt : Q -> Q) b threshold pc :
  pcd b = Some pc ->
  (points pc = [] -> count_points_near_walls np_sqrt b threshold = Some 0%Z) /\
  (is_Some (count_points_near_walls np_sqrt b threshold) <->
   points pc = [] \/
   Forall (fun ring => is_Some (calc_basic_metrics QOps np_sqrt 0 ring)) (building b)).
Proof.
  intros Hpc. unfold count_points_near_walls. rewrite Hpc.
  cbn [mbind option_bind]. split.
  - intros ->. reflexivity.
  - destruct (length (points pc) =? 0)%nat eqn:Enp.
    + apply Nat.eqb_eq in Enp. split; [|intros _; eexists; reflexivity].
      intros _. left. destruct (points pc); [reflexivity|discriminate].
    + apply Nat.eqb_neq in Enp. split.
      * intros Hsome. right.
        destruct (surfaces_with_area np_sqrt 0 (building b) [] 0)
          as [[ss total]|] eqn:Ess; [|destruct Hsome; discriminate].
        destruct (surfaces_with_area_spec _ _ _ _ _ _ _ Ess) as (new & _ & _ & Hnew).
        apply Forall_forall. intros ring Hin.
        apply list_elem_of_lookup_1 in Hin. destruct Hin as (m & Hm).
        destruct (Hnew m ring Hm) as (s & _ & Hcalc).
        apply (calc_basic_metrics_any_number QOps np_sqrt (0 + m) 0 ring).
        eexists; exact Hcalc.
      * intros [Hnil|Hfaces]; [rewrite Hnil in Enp; destruct Enp; reflexivity|].
        destruct (surfaces_with_area_defined np_sqrt _ Hfaces 0 [] 0%Q)
          as ([ss total] & ->).
        cbn [mbind option_bind]. destruct (_ =? _)%nat; eexists; reflexivity.
Qed.

(** ** The total wall area ([get_surface_area]) *)

Lemma polygon_area_nonneg (l : list (Q * Q)) : (0 <= polygon_area QOps l)%Q.
Proof.
  unfold polygon_area. destruct l as [|p l]; simpl; [Lqa.lra|].
  set (s := (_ + _)%Q).
  assert (H2 : (0 < 1 + 1)%Q) by Lqa.lra.
  destruct (Qltb s 0) eqn:E; [apply Qltb_lt in E|apply Qltb_ge in E];
    apply Qle_shift_div_l; try exact H2; Lqa.lra.
Qed.

Lemma calc_basic_metrics_area_eq {F : Type} (ops : NumOps F) (fsqrt : F -> F)
    n ring (s : Surface F) :
  calc_basic_metrics ops fsqrt n ring = Some s ->
  area s = polygon_area ops (map (fun v => (vx v, vy v)) (projected_vertices s)) /\
  forall m, exists s', calc_basic_metrics ops fsqrt m ring = Some s' /\
                       area s' = area s.
Proof.
  unfold calc_basic_metrics.
  destruct (removelast ring) as [|o [|v1 [|v2 rest]]]; try discriminate.
  destruct (_ || _); [discriminate|].
  intros [= <-]. split; [reflexivity|].
  intros m. eexists. split; reflexivity.
Qed.

Lemma calc_basic_metrics_area (np_sqrt : Q -> Q) n ring (s : Surface Q) :
  calc_basic_metrics QOps np_sqrt n ring = Some s ->
  (0 <= area s)%Q /\
  forall m, exists s', calc_basic_metrics QOps np_sqrt m ring = Some s' /\
                       area s' = area s.
Proof.
  intros H. destruct (calc_basic_metrics_area_eq _ _ _ _ _ H) as (Ha & Hm).
  split; [rewrite Ha; apply polygon_area_nonneg|exact Hm].
Qed.

Lemma area_loop_spec (np_sqrt : Q -> Q) (faces : list (list V3)) :
  forall i total,
    match area_loop np_sqrt i faces total with
    | Some total' =>
        Forall (fun ring => is_Some (calc_basic_metrics QOps np_sqrt 0 ring)) faces /\
        exists areas,
          Forall2 (fun ring a =>
                     exists s, calc_basic_metrics QOps np_sqrt 0 ring = Some s /\
                               a = area s) faces areas /\
          (total' == total + fold_right Qplus 0 areas)%Q
    | None => ~ Forall (fun ring => is_Some (calc_basic_metrics QOps np_sqrt 0 ring)) faces
    end.
Proof.
  induction faces as [|ring rest IH]; intros i total; simpl.
  - split; [constructor|]. exists []. split; [constructor|]. simpl. Lqa.lra.
  - destruct (calc_basic_metrics QOps np_sqrt i ring) as [s|] eqn:E; simpl.
    + specialize (IH (S i) (total + area s)%Q).
      assert (H3 : is_Some (calc_basic_metrics QOps np_sqrt 0 ring)).
      { apply (calc_basic_metrics_any_number QOps np_sqrt i 0 ring).
        eexists; exact E. }
      destruct (area_loop np_sqrt (S i) rest (total + area s)) as [total'|].
      * destruct IH as (Hall & areas & Hareas & Hsum).
        split; [constructor; assumption|].
        exists (area s :: areas). split.
        -- constructor; [|exact Hareas].
           destruct (calc_basic_metrics_area _ _ _ _ E) as (_ & Hm).
           destruct (Hm 0%nat) as (s' & Hs' & Ha). exists s'. auto.
        -- simpl. rewrite Hsum. Lqa.lra.
      * intros Hall. apply IH. inversion Hall; assumption.
    + intros Hall. inversion Hall as [|? ? H3 _]; subst.
      destruct (calc_basic_metrics_any_number QOps np_sqrt 0 i ring H3) as (s & Hs).
      congruence.
Qed.

Lemma sum_nonneg (l : list Q) :
  Forall (fun a => (0 <= a)%Q) l -> (0 <= fold_right Qplus 0 l)%Q.
Proof.
  induction 1 as [|a l Ha _ IH]; simpl; [Lqa.lra|]. Lqa.lra.
Qed.

(** X19: [get_surface_area] returns normally exactly when every face can be
    projected ([calc_basic_metrics] returns for it; an empty building has
    area 0); the result is the sum of the areas of the faces, each the
    unsigned shoelace area of the projected ring, and it is never
    negative. *)
Theorem get_surface_area_spec (np_sqrt : Q -> Q) b :
  (is_Some (get_surface_area np_sqrt b) <->
   Forall (fun ring => is_Some (calc_basic_metrics QOps np_sqrt 0 ring)) (building b)) /\
  forall total,
    get_surface_area np_sqrt b = Some total ->
    (0 <= total)%Q /\
    exists areas,
      Forall2 (fun ring a =>
                 exists s, calc_basic_metrics QOps np_sqrt 0 ring = Some s /\
                           a = polygon_area QOps
                                 (map (fun v => (vx v, vy v)) (projected_vertices s)))
              (building b) areas /\
      (total == fold_right Qplus 0 areas)%Q.
Proof.
  unfold get_surface_area.
  pose proof (area_loop_spec np_sqrt (building b) 0 0%Q) as H.
  destruct (area_loop np_sqrt 0 (building b) 0) as [t|].
  - destruct H as (Hall & areas & Hareas & Hsum). split.
    + split; [intros _; exact Hall|intros _; eexists; reflexivity].
    + intros total [= <-].
      assert (Hpos : Forall (fun a => (0 <= a)%Q) areas).
      { clear Hsum Hall.
        induction Hareas as [|ring a faces areas (s & Hs & ->) _ IH].
        - constructor.
        - constructor; [|exact IH].
          apply (calc_basic_metrics_area _ _ _ _ Hs). }
      split; [rewrite Hsum; pose proof (sum_nonneg areas Hpos); Lqa.lra|].
      exists areas. split; [|rewrite Hsum; Lqa.lra].
      clear Hsum Hpos Hall.
      induction Hareas as [|ring a faces areas (s & Hs & ->) _ IH].
      * constructor.
      * constructor; [|exact IH].
        exists s. split; [exact Hs|].
        apply (calc_basic_metrics_area_eq _ _ _ _ _ Hs).
  - split.
    + split; [intros [x Hx]; discriminate|intros Hall; destruct (H Hall)].
    + intros total [=].
Qed.


(** ** The extra properties on the sample data *)

Lemma nearest_masks_in_bounds_and_disjoint_witness :
  let pc := Sample.cloud_AB in
  let s := Sample.surface_of 0 Sample.ring_A in
  let dm := (build_distance_matrix pc 2 Sample.surfaces_AB).1 in
  let nkmap := (build_distance_matrix pc 2 Sample.surfaces_AB).2 in
  (forall p, Sample2.mask_A !! p = Some true ->
     exists q, get_projected_points pc s !! p = Some q /\
               in_bounds (boundary s) q = true) /\
  (forall m k' a' p,
     m <> 0%nat -> nkmap !! m = Some (Some k') ->
     nearest_mask (nearest_face_of dm) dm (Some k') = Some (MArray a') ->
     Sample2.mask_A !! p = Some true -> a' !! p <> Some true).
Proof.
  intros pc s dm nkmap.
  apply (nearest_masks_in_bounds_and_disjoint pc 2 Sample.surfaces_AB 0 s 0
           Sample2.mask_A); vm_compute; reflexivity.
Defined.


Lemma make_objfiles_files_witness :
  let prefix := make_prefix Sample.job_AT Sample.cloud_near (Some 3%Z) "smart" in
  files_kept ∅ Sample.mesh_AT /\
  exists lines mtl names,
    Sample.mesh_AT !! path_join (dirname Sample.job_AT) (prefix +:+ ".obj")
    = Some (OBJ lines) /\
    Sample.mesh_AT !! path_join (dirname Sample.job_AT) (prefix +:+ ".mtl")
    = Some (MTL mtl) /\
    length names = length (building Sample.job_AT) /\
    usemtl_records lines = names /\
    mtl = flat_map (fun name => [L_newmtl name; L_Kd; L_Ns; L_d; L_illum; L_Ka;
                                 L_Ks; L_map_Kd name]) names /\
    length mtl = (8 * length (building Sample.job_AT))%nat /\
    Forall (has_file Sample.mesh_AT) names.
Proof.
  apply (make_objfiles_files Sample.isqrt o3d_voxel_down_sample Sample.job_AT
           (Some 3%Z) "smart" ∅ Sample.mesh_AT Sample.cloud_near);
    [reflexivity | discriminate | vm_compute; reflexivity].
Defined.

Lemma face_records_index_written_records_witness :
  exists lines s fi iv it t pv,
    Sample.mesh_AT
      !! path_join (dirname Sample.job_AT)
           (make_prefix Sample.job_AT Sample.cloud_near (Some 3%Z) "smart" +:+ ".obj")
    = Some (OBJ lines) /\
    calc_basic_metrics QOps Sample.isqrt 1 Sample.ring_T = Some s /\
    length (vn_records lines) = length (building Sample.job_AT) /\
    f_records lines !! 1%nat = Some fi /\
    length fi = length (removelast Sample.ring_T) /\
    fi !! 2%nat = Some (iv + 1, it + 1, 1 + 1)%nat /\
    (iv < length (v_records lines))%nat /\
    projected_vertices s !! 2%nat = Some pv /\
    vt_records lines !! it = Some t /\
    Q2_eqb t (texture_coord (boundary s) pv) = true.
Proof.
  apply (face_records_index_written_records Sample.isqrt o3d_voxel_down_sample
           Sample.job_AT (Some 3%Z) "smart" ∅ Sample.mesh_AT Sample.cloud_near
           1 Sample.ring_T 2 (0, 0, 1)%Q);
    [reflexivity | discriminate | vm_compute; reflexivity
    | reflexivity | reflexivity].
Defined.

Lemma texture_coordinates_written_once_witness :
  exists lines,
    Sample.mesh_AT
      !! path_join (dirname Sample.job_AT)
           (make_prefix Sample.job_AT Sample.cloud_near (Some 3%Z) "smart" +:+ ".obj")
    = Some (OBJ lines) /\
    distinct_under Q2_eqb (vt_records lines) /\
    forall t, In t (vt_records lines) ->
      exists n ring s pv,
        building Sample.job_AT !! n = Some ring /\
        calc_basic_metrics QOps Sample.isqrt n ring = Some s /\
        In pv (projected_vertices s) /\
        t = texture_coord (boundary s) pv.
Proof.
  apply (texture_coordinates_written_once Sample.isqrt o3d_voxel_down_sample
           Sample.job_AT (Some 3%Z) "smart" ∅ Sample.mesh_AT Sample.cloud_near);
    [reflexivity | discriminate | vm_compute; reflexivity].
Defined.

Lemma empty_cloud_gives_placeholders_witness :
  exists lines,
    Sample2.mesh_empty
      !! path_join (dirname Sample2.job_empty)
           (make_prefix Sample2.job_empty Sample2.cloud_empty (Some 3%Z) "nearest"
            +:+ ".obj")
    = Some (OBJ lines) /\
    usemtl_records lines
    = replicate (length (building Sample2.job_empty)) "no_texture.png".
Proof.
  apply (empty_cloud_gives_placeholders Sample.isqrt o3d_voxel_down_sample
           Sample2.job_empty (Some 3%Z) "nearest" ∅ Sample2.mesh_empty
           Sample2.cloud_empty);
    vm_compute; reflexivity.
Defined.

Lemma far_face_gets_placeholder_witness :
  let b := Sample2.job_far in
  let pc := Sample.cloud_near in
  let s := Sample.surface_of 1 Sample2.ring_far in
  (10 < min_of (face_distances pc (lod b) (length (building b)) 1 s))%Q /\
  exists lines,
    Sample2.mesh_far
      !! path_join (dirname b) (make_prefix b pc (Some 3%Z) "nearest" +:+ ".obj")
    = Some (OBJ lines) /\
    usemtl_records lines !! 1%nat = Some "no_texture.png".
Proof.
  intros b pc s. split; [vm_compute; reflexivity|].
  apply (far_face_gets_placeholder Sample.isqrt o3d_voxel_down_sample
           b (Some 3%Z) "nearest" ∅ Sample2.mesh_far pc 1 Sample2.ring_far s);
    [reflexivity | reflexivity | discriminate | vm_compute; reflexivity
    | reflexivity | vm_compute; reflexivity | vm_compute; reflexivity].
Defined.

Lemma cap_faces_get_placeholder_witness :
  let b := Sample2.job_caps in
  let pc := Sample.cloud_near in
  lod b = 1%Z /\
  exists lines,
    Sample2.mesh_caps
      !! path_join (dirname b) (make_prefix b pc (Some 3%Z) "nearest" +:+ ".obj")
    = Some (OBJ lines) /\
    usemtl_records lines !! 0%nat = Some "no_texture.png".
Proof.
  intros b pc. split; [reflexivity|].
  apply (cap_faces_get_placeholder Sample.isqrt o3d_voxel_down_sample
           b (Some 3%Z) "nearest" ∅ Sample2.mesh_caps pc 0);
    [reflexivity | reflexivity | discriminate | vm_compute; reflexivity
    | reflexivity | simpl; lia | left; reflexivity].
Defined.


Lemma get_pointcloud_keeps_small_clouds_witness :
  get_pointcloud o3d_voxel_down_sample 1 Sample2.job_unloaded Sample.cloud_near None
  = Some (with_cloud Sample2.job_unloaded Sample.cloud_near
                     (gridsize Sample2.job_unloaded),
          Sample.cloud_near).
Proof.
  apply (get_pointcloud_keeps_small_clouds o3d_voxel_down_sample 0
           Sample2.job_unloaded Sample.cloud_near None).
  - reflexivity.
  - right. vm_compute. discriminate.
Defined.

Lemma get_pointcloud_first_fit_witness :
  let down := o3d_voxel_down_sample Sample2.cloud_close (grid_at 1) in
  get_pointcloud o3d_voxel_down_sample 3 Sample2.job_unloaded Sample2.cloud_close
                 (Some 1%Z)
  = Some (with_cloud Sample2.job_unloaded down (grid_at 1), down).
Proof.
  intros down.
  apply (get_pointcloud_first_fit o3d_voxel_down_sample 3 Sample2.job_unloaded
           Sample2.cloud_close (Some 1%Z) 1).
  - reflexivity.
  - reflexivity.
  - reflexivity.
  - intros m Hm. assert (m = 0%nat) as -> by lia. reflexivity.
  - vm_compute. discriminate.
  - lia.
Defined.

Lemma get_pointcloud_respects_limit_witness :
  let down := o3d_voxel_down_sample Sample2.cloud_close (grid_at 1) in
  (Z.of_nat (length (points down)) <= 1)%Z.
Proof.
  intros down.
  apply (get_pointcloud_respects_limit o3d_voxel_down_sample 3
           Sample2.job_unloaded Sample2.cloud_close (Some 1%Z)
           (with_cloud Sample2.job_unloaded down (grid_at 1)) down).
  - reflexivity.
  - reflexivity.
  - vm_compute. reflexivity.
Defined.

Lemma get_pointcloud_is_cached_witness :
  let down := o3d_voxel_down_sample Sample2.cloud_close (grid_at 1) in
  get_pointcloud o3d_voxel_down_sample 0
                 (with_cloud Sample2.job_unloaded down (grid_at 1))
                 Sample.cloud_far (Some 1%Z)
  = Some (with_cloud Sample2.job_unloaded down (grid_at 1), down).
Proof.
  intros down.
  apply (get_pointcloud_is_cached o3d_voxel_down_sample 3 Sample2.job_unloaded
           Sample2.cloud_close (Some 1%Z)).
  vm_compute. reflexivity.
Defined.

Lemma count_points_near_walls_counts_witness :
  exists near : list bool,
    length near = length (points Sample.cloud_near) /\
    2%Z = count_true near /\
    forall p, near !! p = Some true <->
      exists n ring s d,
        building Sample.job_AT !! n = Some ring /\
        calc_basic_metrics QOps Sample.isqrt n ring = Some s /\
        face_distances Sample.cloud_near (lod Sample.job_AT)
                       (length (building Sample.job_AT)) n s !! p = Some d /\
        (d <= default 1 None)%Q.
Proof.
  apply (count_points_near_walls_counts Sample.isqrt Sample.job_AT None
           Sample.cloud_near 2); vm_compute; reflexivity.
Defined.

Lemma count_points_near_walls_monotone_witness :
  (0 <= 0 <= 2)%Z /\ (2 <= Z.of_nat (length (points Sample.cloud_near)))%Z.
Proof.
  apply (count_points_near_walls_monotone Sample.isqrt Sample.job_AT
           (-1) 1 Sample.cloud_near 0 2).
  - reflexivity.
  - vm_compute. discriminate.
  - vm_compute. reflexivity.
  - vm_compute. reflexivity.
Defined.

Lemma count_points_near_walls_defined_witness :
  (points Sample.cloud_near = [] ->
   count_points_near_walls Sample.isqrt Sample.job_AT None = Some 0%Z) /\
  (is_Some (count_points_near_walls Sample.isqrt Sample.job_AT None) <->
   points Sample.cloud_near = [] \/
   Forall (fun ring => is_Some (calc_basic_metrics QOps Sample.isqrt 0 ring))
          (building Sample.job_AT)).
Proof.
  apply (count_points_near_walls_defined Sample.isqrt Sample.job_AT None
           Sample.cloud_near).
  reflexivity.
Defined.


(** * Map-sheet codes ([zukaku.py]) *)

(** ** Truncation towards zero *)

Lemma Qtrunc_opp (x : Q) : Qtrunc (- x) = (- Qtrunc x)%Z.
Proof. unfold Qtrunc. destruct x as [n d]. simpl. apply Z.quot_opp_l. lia. Qed.

Lemma Qtrunc_nonneg (x : Q) : (0 <= x)%Q -> Qtrunc x = Qfloor x.
Proof.
  destruct x as [n d]. unfold Qle, Qtrunc. simpl. intros H.
  apply Z.quot_div_nonneg; lia.
Qed.

Lemma Qtrunc_cases (x : Q) :
  ((0 <= x)%Q /\ Qtrunc x = Qfloor x) \/
  ((x < 0)%Q /\ Qtrunc x = (- Qfloor (- x))%Z).
Proof.
  destruct (Qlt_le_dec x 0) as [H|H].
  - right. split; [exact H|].
    rewrite <- (Qtrunc_nonneg (- x)) by Lqa.lra.
    rewrite Qtrunc_opp. lia.
  - left. split; [exact H|apply Qtrunc_nonneg; exact H].
Qed.

Lemma Qtrunc_bound (x : Q) (N : Z) :
  (Qabs x < inject_Z N)%Q -> (- N < Qtrunc x < N)%Z.
Proof.
  intros H.
  assert (HN : (0 < inject_Z N)%Q) by (pose proof (Qabs_nonneg x); Lqa.lra).
  destruct (Qtrunc_cases x) as [(Hx & ->)|(Hx & ->)].
  - rewrite Qabs_pos in H by exact Hx.
    pose proof (Qfloor_le x) as Hf.
    assert (0 <= Qfloor x)%Z.
    { change 0%Z with (Qfloor 0). apply Qfloor_resp_le. exact Hx. }
    assert (inject_Z (Qfloor x) < inject_Z N)%Q by Lqa.lra.
    rewrite <- Zlt_Qlt in *. lia.
  - rewrite Qabs_neg in H by Lqa.lra.
    pose proof (Qfloor_le (- x)) as Hf.
    assert (0 <= Qfloor (- x))%Z.
    { change 0%Z with (Qfloor 0). apply Qfloor_resp_le. Lqa.lra. }
    assert (inject_Z (Qfloor (- x)) < inject_Z N)%Q by Lqa.lra.
    rewrite <- Zlt_Qlt in *. lia.
Qed.

Lemma Qtrunc_le (x y : Q) : (x <= y)%Q -> (Qtrunc x <= Qtrunc y)%Z.
Proof.
  intros H.
  destruct (Qtrunc_cases x) as [(Hx & ->)|(Hx & ->)];
    destruct (Qtrunc_cases y) as [(Hy & ->)|(Hy & ->)].
  - apply Qfloor_resp_le. exact H.
  - Lqa.lra.
  - assert (0 <= Qfloor (- x))%Z
      by (change 0%Z with (Qfloor 0); apply Qfloor_resp_le; Lqa.lra).
    assert (0 <= Qfloor y)%Z
      by (change 0%Z with (Qfloor 0); apply Qfloor_resp_le; Lqa.lra).
    lia.
  - assert (Qfloor (- y) <= Qfloor (- x))%Z by (apply Qfloor_resp_le; Lqa.lra).
    lia.
Qed.

(** ** [get_code] *)

Lemma chr_some (i : Z) : (0 <= i < 1114112)%Z -> zukaku.chr i = Some i.
Proof.
  intros H. unfold zukaku.chr.
  destruct (Z.leb_spec 0 i); [|lia]. destruct (Z.ltb_spec i 1114112); [|lia].
  reflexivity.
Qed.

Ltac zdiv := Z.to_euclidean_division_equations; lia.

Lemma in_range_iff (x y : Q) :
  Qle_bool 160000 (Qabs x) || Qle_bool 300000 (Qabs y) = false <->
  (Qabs x < 160000)%Q /\ (Qabs y < 300000)%Q.
Proof.
  rewrite orb_false_iff.
  assert (H : forall a b, Qle_bool a b = false <-> (b < a)%Q).
  { intros a b. split; intros Hab.
    - apply Qnot_le_lt. intros Hle. apply Qle_bool_iff in Hle. congruence.
    - destruct (Qle_bool a b) eqn:E; [|reflexivity].
      apply Qle_bool_iff in E. Lqa.lra. }
  rewrite !H. reflexivity.
Qed.

Lemma get_code_sheet (x y : Q) (system_code : option Z) (level : Z) :
  (Qabs x < 160000)%Q -> (Qabs y < 300000)%Q ->
  zukaku.get_code x y system_code level
  = zukaku.sheet_code (Qtrunc x) (Qtrunc (- y))
                      (zukaku.system_prefix system_code) level.
Proof.
  intros Hx Hy. unfold zukaku.get_code, zukaku.sheet_code.
  rewrite (proj2 (in_range_iff x y) (conj Hx Hy)).
  fold (zukaku.system_prefix system_code).
  pose proof (Qtrunc_bound x 160000 Hx) as HX.
  assert (Hy' : (Qabs (- y) < 300000)%Q) by (rewrite Qabs_opp; exact Hy).
  pose proof (Qtrunc_bound (- y) 300000 Hy') as HY.
  set (X := Qtrunc x) in *. set (Y := Qtrunc (- y)) in *.
  rewrite !chr_some by zdiv.
  cbn [mbind option_bind].
  repeat (destruct (_ <? level)%Z; [reflexivity|]).
  repeat (destruct (level =? _)%Z; [reflexivity|]).
  reflexivity.
Qed.


(** X20: [get_code] raises exactly when a coordinate is out of range or the
    level is none of 2500, 1000, 500, 250, 50 and not above 2500: every
    level above 2500 is accepted, whether it is a map level or not. *)
Theorem get_code_defined (x y : Q) (system_code : option Z) (level : Z) :
  is_Some (zukaku.get_code x y system_code level) <->
  (Qabs x < 160000)%Q /\ (Qabs y < 300000)%Q /\
  ((2500 < level)%Z \/ In level [2500; 1000; 500; 250; 50]%Z).
Proof.
  destruct (Qle_bool 160000 (Qabs x) || Qle_bool 300000 (Qabs y)) eqn:E.
  - unfold zukaku.get_code. rewrite E. split.
    + intros [c Hc]. discriminate.
    + intros (Hx & Hy & _).
      rewrite (proj2 (in_range_iff x y) (conj Hx Hy)) in E. discriminate.
  - apply in_range_iff in E. destruct E as (Hx & Hy).
    rewrite (get_code_sheet x y system_code level Hx Hy).
    unfold zukaku.sheet_code. simpl In.
    destruct (Z.ltb_spec 5000 level).
    { split; [intros _; repeat split; try assumption; left; lia|].
      intros _. eexists; reflexivity. }
    destruct (Z.ltb_spec 2500 level).
    { split; [intros _; repeat split; try assumption; left; lia|].
      intros _. eexists; reflexivity. }
    destruct (Z.eqb_spec level 2500).
    { split; [intros _; repeat split; try assumption; right; lia|].
      intros _. eexists; reflexivity. }
    destruct (Z.eqb_spec level 1000).
    { split; [intros _; repeat split; try assumption; right; lia|].
      intros _. eexists; reflexivity. }
    destruct (Z.eqb_spec level 250).
    { split; [intros _; repeat split; try assumption; right; lia|].
      intros _. eexists; reflexivity. }
    destruct (Z.eqb_spec level 500).
    { split; [intros _; repeat split; try assumption; right; lia|].
      intros _. eexists; reflexivity. }
    destruct (Z.eqb_spec level 50).
    { split; [intros _; repeat split; try assumption; right; lia|].
      intros _. eexists; reflexivity. }
    split; [intros [c Hc]; discriminate|].
    intros (_ & _ & [H'|H']); lia.
Qed.

(** ** Reading a code back ([get_extent]) *)

Lemma take_while_all (f : Z -> bool) (s : list Z) :
  forallb f s = true -> zukaku.take_while f s = s.
Proof.
  induction s as [|c s IH]; simpl; [reflexivity|].
  intros H. apply andb_true_iff in H. destruct H as (-> & H).
  rewrite IH by exact H. reflexivity.
Qed.

Lemma re_match_plain (k1 k2 : Z) (rest : list Z) :
  zukaku.is_upper k1 = true -> zukaku.is_upper k2 = true ->
  forallb zukaku.is_number_char rest = true ->
  zukaku.re_match (k1 :: k2 :: rest) = Some (None, [k1; k2], rest).
Proof.
  intros H1 H2 Hrest. unfold zukaku.re_match, zukaku.match2.
  assert (zukaku.is_digit k1 = false) as ->.
  { unfold zukaku.is_upper, zukaku.is_digit in *.
    destruct (Z.leb_spec 65 k1); [|discriminate].
    destruct (Z.leb_spec k1 57); [lia|]. apply andb_false_r. }
  cbn [andb]. rewrite H1, H2. cbn [andb].
  rewrite take_while_all by exact Hrest. reflexivity.
Qed.

Lemma re_match_system (d1 d2 k1 k2 : Z) (rest : list Z) :
  zukaku.is_digit d1 = true -> zukaku.is_digit d2 = true ->
  zukaku.is_upper k1 = true -> zukaku.is_upper k2 = true ->
  forallb zukaku.is_number_char rest = true ->
  zukaku.re_match (d1 :: d2 :: k1 :: k2 :: rest)
  = Some (Some [d1; d2], [k1; k2], rest).
Proof.
  intros D1 D2 H1 H2 Hrest. unfold zukaku.re_match.
  cbn [zukaku.match2]. rewrite D1, D2. cbn [andb zukaku.match2].
  rewrite H1, H2. cbn [andb].
  rewrite take_while_all by exact Hrest. reflexivity.
Qed.

Lemma format_02d_two_digits (n : Z) :
  (0 < n <= 99)%Z ->
  zukaku.format_02d n = [48 + n / 10; 48 + n mod 10]%Z.
Proof.
  intros Hn. unfold zukaku.format_02d.
  destruct (Z.ltb_spec n 0); [lia|].
  destruct (Z.ltb_spec n 10) as [H10|H10].
  - rewrite Z.div_small, Z.mod_small by lia. reflexivity.
  - assert (H3 : (3 <= Z.log2 n)%Z).
    { change 3%Z with (Z.log2 10). apply Z.log2_le_mono. exact H10. }
    destruct (Z.to_nat (Z.log2 n)) as [|f] eqn:Ef; [lia|].
    simpl. destruct (Z.ltb_spec n 10); [lia|].
    destruct (Z.ltb_spec (n / 10) 10) as [_|Hge]; [|zdiv].
    rewrite (Z.mod_small (n / 10)) by zdiv. reflexivity.
Qed.


Lemma is_upper_kukaku (d : Z) : (0 <= d <= 19)%Z -> zukaku.is_upper (65 + d) = true.
Proof.
  intros H. unfold zukaku.is_upper. apply andb_true_iff. split; apply Z.leb_le; lia.
Qed.

Lemma is_number_char_digit (d : Z) :
  (0 <= d <= 9)%Z -> zukaku.is_number_char (48 + d) = true.
Proof.
  intros H. unfold zukaku.is_number_char, zukaku.is_digit.
  apply orb_true_iff. left. apply andb_true_iff. split; apply Z.leb_le; lia.
Qed.

Lemma is_number_char_letter (d : Z) :
  (0 <= d <= 19)%Z -> zukaku.is_number_char (65 + d) = true.
Proof.
  intros H. unfold zukaku.is_number_char.
  apply orb_true_iff. right. apply andb_true_iff. split; apply Z.leb_le; lia.
Qed.

(** The groups found in a code made of a system prefix, two capitals and
    characters of the numbers class. *)
Lemma re_match_prefixed (P : list Z) (sys : option (list Z)) (k1 k2 : Z)
    (rest : list Z) :
  (P = [] /\ sys = None) \/
  (exists d1 d2, P = [d1; d2] /\ zukaku.is_digit d1 = true /\
                 zukaku.is_digit d2 = true /\ sys = Some P) ->
  zukaku.is_upper k1 = true -> zukaku.is_upper k2 = true ->
  forallb zukaku.is_number_char rest = true ->
  zukaku.re_match (P ++ k1 :: k2 :: rest) = Some (sys, [k1; k2], rest).
Proof.
  intros [(-> & ->)|(d1 & d2 & -> & D1 & D2 & ->)] H1 H2 Hrest.
  - apply re_match_plain; assumption.
  - apply re_match_system; assumption.
Qed.

Ltac ztest :=
  repeat match goal with
  | |- context [(?a <=? ?b)%Z] => destruct (Z.leb_spec a b); try lia
  | |- context [(?a <? ?b)%Z] => destruct (Z.ltb_spec a b); try lia
  | |- context [(?a =? ?b)%Z] => destruct (Z.eqb_spec a b); try lia
  end.

Ltac level_tests level :=
  repeat match goal with
  | |- context [(?a <? level)%Z] => destruct (Z.ltb_spec a level); try lia
  | |- context [(level =? ?b)%Z] => destruct (Z.eqb_spec level b); try lia
  end.

Ltac push_inject :=
  unfold Z.sub;
  repeat (rewrite inject_Z_plus || rewrite inject_Z_mult || rewrite inject_Z_opp);
  repeat match goal with
  | |- context [inject_Z (Zpos ?p)] => change (inject_Z (Zpos p)) with (Zpos p # 1)%Q
  | |- context [inject_Z (Zneg ?p)] => change (inject_Z (Zneg p)) with (Zneg p # 1)%Q
  | |- context [inject_Z Z0] => change (inject_Z Z0) with 0%Q
  end.

Ltac sheet_read X Y P sys HP :=
  eexists; eexists; eexists; eexists; eexists; eexists;
  split; [reflexivity|];
  rewrite <- ?app_assoc; cbn [app];
  unfold zukaku.get_extent;
  rewrite (re_match_prefixed P sys _ _ _ HP);
  [ cbn [mbind option_bind]; cbv zeta; cbn [length Nat.leb Nat.eqb nth];
    ztest; cbn [andb orb];
    (split; [destruct sys; reflexivity|])
  | replace (75 + Y / 30000)%Z with (65 + (10 + Y / 30000))%Z by lia;
    apply is_upper_kukaku; lia
  | replace (69 + X / 40000)%Z with (65 + (4 + X / 40000))%Z by lia;
    apply is_upper_kukaku; lia
  | cbn [forallb];
    rewrite ?is_number_char_digit, ?is_number_char_letter by lia;
    try reflexivity ].

Ltac sheet_start X Y P sys HP level :=
  unfold zukaku.sheet_code; level_tests level; ztest;
  sheet_read X Y P sys HP.

Ltac tile_goals HXid HYid :=
  repeat split; rewrite ?HXid, ?HYid; push_inject; try field; try reflexivity.

(** The extent read back from the code of an integer position is the cell
    of the level's grid that holds the position. *)
Lemma sheet_extent (X Y : Z) (P : list Z) (sys : option (list Z)) (level : Z) :
  (-160000 < X < 160000)%Z -> (-300000 < Y < 300000)%Z ->
  (P = [] /\ sys = None) \/
  (exists d1 d2, P = [d1; d2] /\ zukaku.is_digit d1 = true /\
                 zukaku.is_digit d2 = true /\ sys = Some P) ->
  In level [50000; 5000; 2500; 500; 250; 50]%Z ->
  let w := (4 * level / 5)%Z in
  let h := (3 * level / 5)%Z in
  exists code mx my Mx My lvl,
    zukaku.sheet_code X Y P level = Some code /\
    zukaku.get_extent code
    = Some (mx, my, Mx, My,
            option_map (fun s => (6668 + zukaku.int_of_digits s)%Z) sys, lvl) /\
    (mx == inject_Z (w * (X / w)))%Q /\
    (Mx == inject_Z (w * (X / w) + w))%Q /\
    (My == inject_Z (- (h * (Y / h))))%Q /\
    (my == inject_Z (- (h * (Y / h)) - h))%Q /\
    (lvl == inject_Z level)%Q.
Proof.
  intros HX HY HP Hl w h.
  assert (A1 : (-4 <= X / 40000 <= 3)%Z) by zdiv.
  assert (B1 : (-10 <= Y / 30000 <= 9)%Z) by zdiv.
  assert (A2 : (0 <= X mod 40000 / 4000 <= 9)%Z) by zdiv.
  assert (B2 : (0 <= Y mod 30000 / 3000 <= 9)%Z) by zdiv.
  assert (A3 : (0 <= X mod 40000 mod 4000 / 400 <= 9)%Z) by zdiv.
  assert (B3 : (0 <= Y mod 30000 mod 3000 / 300 <= 9)%Z) by zdiv.
  assert (A4 : (0 <= X mod 40000 mod 4000 mod 400 / 40 <= 9)%Z) by zdiv.
  assert (B4 : (0 <= Y mod 30000 mod 3000 mod 300 / 30 <= 9)%Z) by zdiv.
  assert (A5 : (0 <= X mod 40000 mod 4000 / 200 <= 19)%Z) by zdiv.
  assert (B5 : (0 <= Y mod 30000 mod 3000 / 150 <= 19)%Z) by zdiv.
  simpl in Hl.
  destruct Hl as [Hl|[Hl|[Hl|[Hl|[Hl|[Hl|[]]]]]]]; symmetry in Hl.
  - (* 50000 *)
    assert (Hw : w = 40000%Z) by (subst w level; reflexivity).
    assert (Hh : h = 30000%Z) by (subst h level; reflexivity).
    rewrite Hw, Hh. clear Hw Hh w h.
    sheet_start X Y P sys HP level; subst level;
      tile_goals (eq_refl 0%Z) (eq_refl 0%Z).
  - (* 5000 *)
    assert (Hw : w = 4000%Z) by (subst w level; reflexivity).
    assert (Hh : h = 3000%Z) by (subst h level; reflexivity).
    rewrite Hw, Hh. clear Hw Hh w h.
    assert (HXid : (4000 * (X / 4000)
                    = 40000 * (X / 40000) + 4000 * (X mod 40000 / 4000))%Z) by zdiv.
    assert (HYid : (3000 * (Y / 3000)
                    = 30000 * (Y / 30000) + 3000 * (Y mod 30000 / 3000))%Z) by zdiv.
    sheet_start X Y P sys HP level; subst level;
      tile_goals HXid HYid.
  - (* 2500 *)
    assert (Hw : w = 2000%Z) by (subst w level; reflexivity).
    assert (Hh : h = 1500%Z) by (subst h level; reflexivity).
    rewrite Hw, Hh. clear Hw Hh w h.
    sheet_start X Y P sys HP level; subst level;
      match goal with
      | Hx : (X mod 40000 mod 4000 < 2000)%Z |- _ =>
          assert (HXid : (2000 * (X / 2000)
                    = 40000 * (X / 40000) + 4000 * (X mod 40000 / 4000))%Z) by zdiv
      | Hx : (2000 <= X mod 40000 mod 4000)%Z |- _ =>
          assert (HXid : (2000 * (X / 2000)
                    = 40000 * (X / 40000) + 4000 * (X mod 40000 / 4000) + 2000)%Z)
            by zdiv
      end;
      match goal with
      | Hy : (Y mod 30000 mod 3000 < 1500)%Z |- _ =>
          assert (HYid : (1500 * (Y / 1500)
                    = 30000 * (Y / 30000) + 3000 * (Y mod 30000 / 3000))%Z) by zdiv
      | Hy : (1500 <= Y mod 30000 mod 3000)%Z |- _ =>
          assert (HYid : (1500 * (Y / 1500)
                    = 30000 * (Y / 30000) + 3000 * (Y mod 30000 / 3000) + 1500)%Z)
            by zdiv
      end;
      tile_goals HXid HYid.
  - (* 500 *)
    assert (Hw : w = 400%Z) by (subst w level; reflexivity).
    assert (Hh : h = 300%Z) by (subst h level; reflexivity).
    rewrite Hw, Hh. clear Hw Hh w h.
    assert (HXid : (400 * (X / 400)
                    = 40000 * (X / 40000) + 4000 * (X mod 40000 / 4000)
                      + 400 * (X mod 40000 mod 4000 / 400))%Z) by zdiv.
    assert (HYid : (300 * (Y / 300)
                    = 30000 * (Y / 30000) + 3000 * (Y mod 30000 / 3000)
                      + 300 * (Y mod 30000 mod 3000 / 300))%Z) by zdiv.
    sheet_start X Y P sys HP level; subst level;
      tile_goals HXid HYid.
  - (* 250 *)
    assert (Hw : w = 200%Z) by (subst w level; reflexivity).
    assert (Hh : h = 150%Z) by (subst h level; reflexivity).
    rewrite Hw, Hh. clear Hw Hh w h.
    assert (HXid : (200 * (X / 200)
                    = 40000 * (X / 40000) + 4000 * (X mod 40000 / 4000)
                      + 200 * (X mod 40000 mod 4000 / 200))%Z) by zdiv.
    assert (HYid : (150 * (Y / 150)
                    = 30000 * (Y / 30000) + 3000 * (Y mod 30000 / 3000)
                      + 150 * (Y mod 30000 mod 3000 / 150))%Z) by zdiv.
    sheet_start X Y P sys HP level; subst level;
      tile_goals HXid HYid.
  - (* 50 *)
    assert (Hw : w = 40%Z) by (subst w level; reflexivity).
    assert (Hh : h = 30%Z) by (subst h level; reflexivity).
    rewrite Hw, Hh. clear Hw Hh w h.
    assert (HXid : (40 * (X / 40)
                    = 40000 * (X / 40000) + 4000 * (X mod 40000 / 4000)
                      + 400 * (X mod 40000 mod 4000 / 400)
                      + 40 * (X mod 40000 mod 4000 mod 400 / 40))%Z) by zdiv.
    assert (HYid : (30 * (Y / 30)
                    = 30000 * (Y / 30000) + 3000 * (Y mod 30000 / 3000)
                      + 300 * (Y mod 30000 mod 3000 / 300)
                      + 30 * (Y mod 30000 mod 3000 mod 300 / 30))%Z) by zdiv.
    sheet_start X Y P sys HP level; subst level;
      tile_goals HXid HYid.
Qed.


Lemma system_prefix_groups (system_code : option Z) :
  (forall n, system_code = Some n -> (0 <= n <= 99)%Z) ->
  exists sys,
    ((zukaku.system_prefix system_code = [] /\ sys = None) \/
     (exists d1 d2, zukaku.system_prefix system_code = [d1; d2] /\
                    zukaku.is_digit d1 = true /\ zukaku.is_digit d2 = true /\
                    sys = Some (zukaku.system_prefix system_code))) /\
    option_map (fun s => (6668 + zukaku.int_of_digits s)%Z) sys
    = zukaku.crs_of system_code.
Proof.
  intros Hsc. destruct system_code as [n|]; simpl.
  - specialize (Hsc n eq_refl).
    destruct (Z.eqb_spec n 0) as [->|Hn].
    + exists None. split; [left; auto|reflexivity].
    + exists (Some (zukaku.format_02d n)). split.
      * right. rewrite format_02d_two_digits by lia.
        exists (48 + n / 10)%Z, (48 + n mod 10)%Z.
        split; [reflexivity|].
        unfold zukaku.is_digit.
        repeat split; try (apply andb_true_iff; split; apply Z.leb_le; zdiv).
      * rewrite format_02d_two_digits by lia. simpl. f_equal.
        unfold zukaku.int_of_digits. simpl. zdiv.
  - exists None. split; [left; auto|reflexivity].
Qed.

(** X21: for the levels 50000, 5000, 2500, 500, 250 and 50 and a system
    code that is absent or between 0 and 99, [get_extent] reads the code
    produced by [get_code] back as the tile of that level that holds the
    position truncated towards zero: the level and the reference system are
    those asked for, the tile is 0.8 x level wide and 0.6 x level high, its
    west and north bounds are multiples of these sizes, and it holds the
    truncated position (west and north bounds included, the others not).
    The position itself is inside when [x >= 0] and [y <= 0]. *)
Theorem get_extent_of_get_code (x y : Q) (system_code : option Z) (level : Z) :
  (Qabs x < 160000)%Q -> (Qabs y < 300000)%Q ->
  In level [50000; 5000; 2500; 500; 250; 50]%Z ->
  (forall n, system_code = Some n -> (0 <= n <= 99)%Z) ->
  let w := (4 * level / 5)%Z in
  let h := (3 * level / 5)%Z in
  exists code mx my Mx My lvl,
    zukaku.get_code x y system_code level = Some code /\
    zukaku.get_extent code
    = Some (mx, my, Mx, My, zukaku.crs_of system_code, lvl) /\
    (lvl == inject_Z level)%Q /\
    (Mx == mx + inject_Z w)%Q /\ (my == My - inject_Z h)%Q /\
    (exists i j, (mx == inject_Z (w * i))%Q /\ (My == inject_Z (h * j))%Q) /\
    (mx <= inject_Z (Qtrunc x) < Mx)%Q /\
    (my < inject_Z (Qtrunc y) <= My)%Q /\
    ((0 <= x)%Q -> (mx <= x < Mx)%Q) /\
    ((y <= 0)%Q -> (my < y <= My)%Q).
Proof.
  intros Hx Hy Hl Hsc w h.
  rewrite (get_code_sheet x y system_code level Hx Hy).
  pose proof (Qtrunc_bound x 160000 Hx) as HX.
  assert (Hy' : (Qabs (- y) < 300000)%Q) by (rewrite Qabs_opp; exact Hy).
  pose proof (Qtrunc_bound (- y) 300000 Hy') as HY.
  destruct (system_prefix_groups system_code Hsc) as (sys & HP & Hcrs).
  destruct (sheet_extent (Qtrunc x) (Qtrunc (- y)) _ sys level HX HY HP Hl)
    as (code & mx & my & Mx & My & lvl & Hcode & Hext & Hmx & HMx & HMy & Hmy & Hlvl).
  fold w h in Hmx, HMx, HMy, Hmy.
  assert (Hwh : (0 < w /\ 0 < h)%Z).
  { subst w h. simpl in Hl.
    destruct Hl as [Hl|[Hl|[Hl|[Hl|[Hl|[Hl|[]]]]]]]; subst level; split; reflexivity. }
  destruct Hwh as (Hw & Hh).
  set (X := Qtrunc x) in *. set (Y := Qtrunc (- y)) in *.
  assert (HYt : Qtrunc y = (- Y)%Z).
  { subst Y. rewrite Qtrunc_opp. lia. }
  pose proof (Z.mul_div_le X w Hw) as Hx1.
  pose proof (Z.mod_pos_bound X w Hw) as Hx2.
  pose proof (Z.div_mod X w ltac:(lia)) as Hx3.
  pose proof (Z.mul_div_le Y h Hh) as Hy1.
  pose proof (Z.mod_pos_bound Y h Hh) as Hy2.
  pose proof (Z.div_mod Y h ltac:(lia)) as Hy3.
  set (qx := (w * (X / w))%Z) in *. set (qy := (h * (Y / h))%Z) in *.
  exists code, mx, my, Mx, My, lvl.
  rewrite Hcrs in Hext.
  split; [exact Hcode|]. split; [exact Hext|]. split; [exact Hlvl|].
  rewrite Hmx, HMx, HMy, Hmy, HYt.
  split; [rewrite inject_Z_plus; reflexivity|].
  split; [unfold Z.sub; rewrite inject_Z_plus, !inject_Z_opp; Lqa.lra|].
  split.
  { exists (X / w)%Z, (- (Y / h))%Z. split; [exact Hmx|].
    replace (h * - (Y / h))%Z with (- qy)%Z by (subst qy; ring). exact HMy. }
  split; [split; [rewrite <- Zle_Qle|rewrite <- Zlt_Qlt]; lia|].
  split; [split; [rewrite <- Zlt_Qlt|rewrite <- Zle_Qle]; lia|].
  split.
  - intros H0.
    assert (HXf : X = Qfloor x) by (apply Qtrunc_nonneg; exact H0).
    pose proof (Qfloor_le x) as F1. pose proof (Qlt_floor x) as F2.
    rewrite <- HXf in F1, F2.
    assert (G1 : (inject_Z qx <= inject_Z X)%Q) by (rewrite <- Zle_Qle; lia).
    assert (G2 : (inject_Z (X + 1) <= inject_Z (qx + w))%Q)
      by (rewrite <- Zle_Qle; lia).
    rewrite ?Hmx, ?HMx.
    split; Lqa.lra.
  - intros H0.
    assert (HYf : Y = Qfloor (- y)) by (apply Qtrunc_nonneg; Lqa.lra).
    pose proof (Qfloor_le (- y)) as F1. pose proof (Qlt_floor (- y)) as F2.
    rewrite <- HYf in F1, F2.
    assert (G1 : (inject_Z (Y + 1) <= inject_Z (- (- qy - h)))%Q)
      by (rewrite <- Zle_Qle; lia).
    assert (G2 : (- inject_Z Y <= inject_Z (- qy))%Q)
      by (rewrite <- (inject_Z_opp Y), <- Zle_Qle; lia).
    rewrite inject_Z_opp in G1.
    rewrite ?Hmy, ?HMy.
    split; Lqa.lra.
Qed.


Lemma get_extent_same_groups (code code' : list Z) :
  zukaku.re_match code = zukaku.re_match code' ->
  zukaku.get_extent code = zukaku.get_extent code'.
Proof. intros H. unfold zukaku.get_extent. rewrite H. reflexivity. Qed.

Lemma re_match_prefix_rest (P : list Z) (sys : option (list Z)) (k1 k2 : Z)
    (rest : list Z) :
  (P = [] /\ sys = None) \/
  (exists d1 d2, P = [d1; d2] /\ zukaku.is_digit d1 = true /\
                 zukaku.is_digit d2 = true /\ sys = Some P) ->
  zukaku.is_upper k1 = true -> zukaku.is_upper k2 = true ->
  zukaku.re_match (P ++ k1 :: k2 :: rest)
  = Some (sys, [k1; k2], zukaku.take_while zukaku.is_number_char rest).
Proof.
  intros [(-> & ->)|(d1 & d2 & -> & D1 & D2 & ->)] H1 H2;
    unfold zukaku.re_match; cbn [app zukaku.match2].
  - assert (zukaku.is_digit k1 = false) as ->.
    { unfold zukaku.is_upper, zukaku.is_digit in *.
      destruct (Z.leb_spec 65 k1); [|discriminate].
      destruct (Z.leb_spec k1 57); [lia|]. apply andb_false_r. }
    cbn [andb]. rewrite H1, H2. reflexivity.
  - rewrite D1, D2. cbn [andb zukaku.match2]. rewrite H1, H2. reflexivity.
Qed.

(** X22: a level-1000 code cannot be read back.  [get_code] writes the row
    of the level-1000 tile with [chr(548 + ...)], a character outside the
    class [0-9A-T], so the code is the level-5000 code of the position
    followed by that character and a letter from A to E, and [get_extent]
    reads it exactly as it reads the level-5000 code. *)
Theorem level_1000_code_reads_as_level_5000 (x y : Q) (system_code : option Z) :
  (Qabs x < 160000)%Q -> (Qabs y < 300000)%Q ->
  (forall n, system_code = Some n -> (0 <= n <= 99)%Z) ->
  exists code5000 i j,
    zukaku.get_code x y system_code 5000 = Some code5000 /\
    zukaku.get_code x y system_code 1000
    = Some (code5000 ++ [548 + j; 65 + i]%Z) /\
    (0 <= i <= 4)%Z /\ (0 <= j <= 4)%Z /\
    zukaku.is_number_char (548 + j) = false /\
    zukaku.get_extent (code5000 ++ [548 + j; 65 + i]%Z)
    = zukaku.get_extent code5000.
Proof.
  intros Hx Hy Hsc.
  rewrite !(get_code_sheet x y system_code _ Hx Hy).
  pose proof (Qtrunc_bound x 160000 Hx) as HX.
  assert (Hy' : (Qabs (- y) < 300000)%Q) by (rewrite Qabs_opp; exact Hy).
  pose proof (Qtrunc_bound (- y) 300000 Hy') as HY.
  destruct (system_prefix_groups system_code Hsc) as (sys & HP & _).
  set (X := Qtrunc x) in *. set (Y := Qtrunc (- y)) in *.
  set (P := zukaku.system_prefix system_code) in *.
  exists (P ++ [75 + Y / 30000; 69 + X / 40000]
            ++ [48 + Y mod 30000 / 3000; 48 + X mod 40000 / 4000])%Z,
         (X mod 40000 mod 4000 / 800)%Z, (Y mod 30000 mod 3000 / 600)%Z.
  split; [unfold zukaku.sheet_code; rewrite <- !app_assoc; reflexivity|].
  split; [unfold zukaku.sheet_code; rewrite <- !app_assoc; reflexivity|].
  split; [zdiv|]. split; [zdiv|].
  assert (Hj : (0 <= Y mod 30000 mod 3000 / 600 <= 4)%Z) by zdiv.
  assert (Hnot : zukaku.is_number_char (548 + Y mod 30000 mod 3000 / 600) = false).
  { unfold zukaku.is_number_char, zukaku.is_digit.
    destruct (Z.leb_spec (548 + Y mod 30000 mod 3000 / 600) 57); [lia|].
    destruct (Z.leb_spec (548 + Y mod 30000 mod 3000 / 600) 84); [lia|].
    rewrite !andb_false_r. reflexivity. }
  split; [exact Hnot|].
  apply get_extent_same_groups.
  rewrite <- !app_assoc. cbn [app].
  assert (U1 : zukaku.is_upper (75 + Y / 30000) = true).
  { replace (75 + Y / 30000)%Z with (65 + (10 + Y / 30000))%Z by lia.
    apply is_upper_kukaku. zdiv. }
  assert (U2 : zukaku.is_upper (69 + X / 40000) = true).
  { replace (69 + X / 40000)%Z with (65 + (4 + X / 40000))%Z by lia.
    apply is_upper_kukaku. zdiv. }
  rewrite !(re_match_prefix_rest P sys _ _ _ HP U1 U2).
  cbn [zukaku.take_while].
  rewrite !is_number_char_digit by zdiv. rewrite Hnot. reflexivity.
Qed.

(** X23: whatever code [get_extent] accepts, the tile it returns is
    0.8 x level wide and 0.6 x level high and the level is positive, also
    for the codes of the two-, five-, ten- and twenty-fold subdivisions. *)
Theorem get_extent_size (code : list Z) mx my Mx My crs lvl :
  zukaku.get_extent code = Some (mx, my, Mx, My, crs, lvl) ->
  (Mx - mx == lvl * (4 # 5))%Q /\ (My - my == lvl * (3 # 5))%Q /\ (0 < lvl)%Q.
Proof.
  unfold zukaku.get_extent.
  destruct (zukaku.re_match code) as [[[sys kukaku] numbers]|]; [|discriminate].
  cbn [mbind option_bind]. cbv zeta.
  destruct numbers as [|c0 [|c1 [|c2 [|c3 [|c4 [|c5 [|c6 rest]]]]]]];
    cbn [length Nat.leb Nat.eqb nth];
    repeat match goal with
    | |- context [if ?b then _ else _] => destruct b
    end;
    intros [= <- <- <- <- _ <-]; repeat split; try Lqa.lra; field.
Qed.

(** ** The map-sheet codes on a sample position *)

Lemma get_extent_of_get_code_witness :
  let w := (4 * 500 / 5)%Z in
  let h := (3 * 500 / 5)%Z in
  exists code mx my Mx My lvl,
    zukaku.get_code 1234 (-5678) (Some 9%Z) 500 = Some code /\
    zukaku.get_extent code
    = Some (mx, my, Mx, My, zukaku.crs_of (Some 9%Z), lvl) /\
    (lvl == inject_Z 500)%Q /\
    (Mx == mx + inject_Z w)%Q /\ (my == My - inject_Z h)%Q /\
    (exists i j, (mx == inject_Z (w * i))%Q /\ (My == inject_Z (h * j))%Q) /\
    (mx <= inject_Z (Qtrunc 1234) < Mx)%Q /\
    (my < inject_Z (Qtrunc (-5678)) <= My)%Q /\
    ((0 <= 1234)%Q -> (mx <= 1234 < Mx)%Q) /\
    ((-5678 <= 0)%Q -> (my < -5678 <= My)%Q).
Proof.
  apply (get_extent_of_get_code 1234 (-5678) (Some 9%Z) 500).
  - reflexivity.
  - reflexivity.
  - simpl. tauto.
  - intros n [= <-]. lia.
Defined.

Lemma level_1000_code_reads_as_level_5000_witness :
  exists code5000 i j,
    zukaku.get_code 1234 (-5678) (Some 9%Z) 5000 = Some code5000 /\
    zukaku.get_code 1234 (-5678) (Some 9%Z) 1000
    = Some (code5000 ++ [548 + j; 65 + i]%Z) /\
    (0 <= i <= 4)%Z /\ (0 <= j <= 4)%Z /\
    zukaku.is_number_char (548 + j) = false /\
    zukaku.get_extent (code5000 ++ [548 + j; 65 + i]%Z)
    = zukaku.get_extent code5000.
Proof.
  apply (level_1000_code_reads_as_level_5000 1234 (-5678) (Some 9%Z)).
  - reflexivity.
  - reflexivity.
  - intros n [= <-]. lia.
Defined.

Lemma get_extent_size_witness :
  ((2800 # 2) - 1200 == (500 # 2) * (4 # 5))%Q /\
  (-5400 - (-11100 # 2) == (500 # 2) * (3 # 5))%Q /\ (0 < 500 # 2)%Q.
Proof.
  apply (get_extent_size [48; 57; 75; 69; 49; 48; 56; 51; 52]%Z
           1200 (-11100 # 2) (2800 # 2) (-5400) (Some 6677%Z) (500 # 2)).
  vm_compute. reflexivity.
Defined.
